(** * SQL ReAct agent: parser, SQL validator, tool dispatch, resilient LLM
      client and controller loop

    A shallow embedding of [src/prompts.py], [src/tools.py], [src/agent.py]
    and of [run_query_with_full_logging] in [api.py], followed by the
    properties of the specification that were checked against it.

    Modelling conventions.
    - A Python [str] is a [string], one character for one code point; the
      text represented is ASCII text.  The case mappings, [\w], [\s] and
      [str.strip] are the ASCII ones, which is what Python's are on such
      text; the statements that depend on it say so by the hypothesis
      [ascii_text].
    - Wall-clock time and durations are exact integers (clock ticks, [Z]);
      floating-point rounding is not modelled.  Time passes only while the
      program sleeps or waits for the provider.
    - The model provider, the SQLite engine and [json.loads] are external:
      they are Section variables, so every theorem holds for all of them.
      [json.loads] decodes, raises [json.JSONDecodeError] or raises
      something else, which the parser does not catch.
    - Python exceptions are values of type [exn]; code that can raise runs in
      the monad [M], which keeps the state when an exception propagates.
    - [print] output (the [verbose] flag) is not modelled. *)

From Stdlib Require Import String Ascii List ZArith Lia Bool Arith.
From Stdlib Require Import Numbers.DecimalString.
Import ListNotations.
Open Scope string_scope.
Open Scope Z_scope.

(** ** Python string primitives *)

Module PyStr.

Definition code (c : ascii) : nat := nat_of_ascii c.

Definition is_upper_letter (c : ascii) : bool :=
  (65 <=? code c)%nat && (code c <=? 90)%nat.

Definition is_lower_letter (c : ascii) : bool :=
  (97 <=? code c)%nat && (code c <=? 122)%nat.

Definition is_digit (c : ascii) : bool :=
  (48 <=? code c)%nat && (code c <=? 57)%nat.

(** [\w] on ASCII text: a letter, a digit or the underscore.  (On other
    text Python's [\w] and [\b] also count the letters and digits beyond
    code 127.) *)
Definition is_word (c : ascii) : bool :=
  is_upper_letter c || is_lower_letter c || is_digit c || Ascii.eqb c "_".

(** [\s] and the characters removed by [str.strip()]: tab, LF, VT, FF, CR,
    FS, GS, RS, US and space. *)
Definition is_space (c : ascii) : bool :=
  ((9 <=? code c)%nat && (code c <=? 13)%nat)
  || ((28 <=? code c)%nat && (code c <=? 32)%nat).

(** The case mappings of one character of ASCII text.  (On other text
    [str.upper] and [str.lower] also map characters beyond code 127, some
    of them to ASCII letters.) *)
Definition upper_char (c : ascii) : ascii :=
  if is_lower_letter c then ascii_of_nat (code c - 32) else c.

Definition lower_char (c : ascii) : ascii :=
  if is_upper_letter c then ascii_of_nat (code c + 32) else c.

Fixpoint map_str (f : ascii -> ascii) (s : string) : string :=
  match s with
  | EmptyString => EmptyString
  | String c s' => String (f c) (map_str f s')
  end.

(** [s.upper()] and [s.lower()] *)
Definition upper : string -> string := map_str upper_char.
Definition lower : string -> string := map_str lower_char.

(** [s.startswith(p)] *)
Fixpoint startswith (s p : string) {struct p} : bool :=
  match p with
  | EmptyString => true
  | String a p' =>
      match s with
      | EmptyString => false
      | String b s' => Ascii.eqb a b && startswith s' p'
      end
  end.

(** [p in s] *)
Fixpoint str_in (p s : string) : bool :=
  startswith s p
  || match s with
     | EmptyString => false
     | String _ s' => str_in p s'
     end.

(** [s[n:]] *)
Fixpoint drop (n : nat) (s : string) : string :=
  match n with
  | O => s
  | S n' => match s with
            | EmptyString => EmptyString
            | String _ s' => drop n' s'
            end
  end.

(** [s.lstrip(chars)] and [s.rstrip(chars)], the set of characters given as
    a predicate. *)
Fixpoint lstrip_by (f : ascii -> bool) (s : string) : string :=
  match s with
  | EmptyString => EmptyString
  | String c s' => if f c then lstrip_by f s' else s
  end.

Fixpoint rstrip_by (f : ascii -> bool) (s : string) : string :=
  match s with
  | EmptyString => EmptyString
  | String c s' =>
      match rstrip_by f s' with
      | EmptyString => if f c then EmptyString else String c EmptyString
      | r => String c r
      end
  end.

Definition rstrip : string -> string := rstrip_by is_space.
Definition strip (s : string) : string := rstrip (lstrip_by is_space s).

(** [s.rstrip(';')] *)
Definition rstrip_semicolons : string -> string :=
  rstrip_by (fun c => Ascii.eqb c ";").

(** [sep.join(l)] *)
Fixpoint join (sep : string) (l : list string) : string :=
  match l with
  | [] => EmptyString
  | [x] => x
  | x :: rest => x ++ sep ++ join sep rest
  end.

(** [s * n] *)
Fixpoint repeat_str (s : string) (n : nat) : string :=
  match n with
  | O => EmptyString
  | S n' => s ++ repeat_str s n'
  end.

(** The longest prefix of characters satisfying [f], and what follows it. *)
Fixpoint span (f : ascii -> bool) (s : string) : string * string :=
  match s with
  | EmptyString => (EmptyString, EmptyString)
  | String c s' =>
      if f c then let (a, b) := span f s' in (String c a, b)
      else (EmptyString, s)
  end.

(** [s.split(sep)[0]]: the text before the first occurrence of [sep], the
    whole of [s] when there is none ([sep] is not empty). *)
Fixpoint before_first (sep s : string) : string :=
  if startswith s sep then EmptyString
  else match s with
       | EmptyString => EmptyString
       | String c s' => String c (before_first sep s')
       end.

(** [s.replace(old, "")] for a non-empty [old]: occurrences are removed from
    left to right, without overlap.  The fuel is the length of [s]. *)
Fixpoint remove_all_fuel (fuel : nat) (old s : string) : string :=
  match fuel with
  | O => s
  | S fuel' =>
      match s with
      | EmptyString => EmptyString
      | String c s' =>
          if startswith s old
          then remove_all_fuel fuel' old (drop (String.length old) s)
          else String c (remove_all_fuel fuel' old s')
      end
  end.

Definition remove_all (old s : string) : string :=
  remove_all_fuel (String.length s) old s.

(** [re.search(r'\b' + kw + r'\b', s)] for a keyword that begins and ends
    with a word character: an occurrence of [kw] with no word character
    directly before or after it.  [prev] tells whether the character before
    the current position is a word character. *)
Definition word_end_after (kw s : string) : bool :=
  match drop (String.length kw) s with
  | EmptyString => true
  | String d _ => negb (is_word d)
  end.

Fixpoint word_search_from (prev : bool) (kw s : string) : bool :=
  match s with
  | EmptyString => false
  | String c s' =>
      (negb prev && startswith s kw && word_end_after kw s)
      || word_search_from (is_word c) kw s'
  end.

Definition word_search (kw s : string) : bool := word_search_from false kw s.

(** [str(n)] for an [int] *)
Definition str_of_Z (z : Z) : string := NilZero.string_of_int (Z.to_int z).

End PyStr.

Import PyStr.

(** The line feed, which has no escape in a Rocq string literal. *)
Definition LF : string := String "010"%char EmptyString.

(** ** Values decoded from JSON *)

(** What [json.loads] builds.  A float keeps its literal text. *)
#[warnings="-register-all"]
Inductive json : Type :=
| JNull
| JBool (b : bool)
| JInt (z : Z)
| JFloat (lit : string)
| JStr (s : string)
| JArr (items : list json)
| JObj (fields : list (string * json)).

(** A decoded parameter object: a [dict] with string keys, as the list of
    its items in insertion order (the keys are pairwise distinct). *)
Definition Params : Type := list (string * json).

(** ** Exceptions *)

(** The exception classes the program meets.  [ProviderError] stands for
    whatever is raised inside the [try] around the provider SDK call, whose
    class the program never inspects; [SqliteError] for [sqlite3.Error]. *)
Inductive exn : Type :=
| ProviderError (msg : string)
| SqliteError (msg : string)
| RuntimeError (msg : string)
| ValueError (msg : string)
| TypeError (msg : string)
| AttributeError (msg : string)
| UnboundLocalError (msg : string)
| RecursionError (msg : string).

(** [str(e)] *)
Definition exn_str (e : exn) : string :=
  match e with
  | ProviderError m | SqliteError m | RuntimeError m | ValueError m
  | TypeError m | AttributeError m | UnboundLocalError m
  | RecursionError m => m
  end.

(** What [json.loads] does with a text that starts with an opening brace.
    [json.JSONDecodeError] is the one class [extract_action_from_response]
    catches; the decoder also raises a plain [ValueError] on an integer
    literal longer than the interpreter's digit limit and [RecursionError]
    on brackets nested too deep, and these are not caught. *)
Inductive Loaded : Type :=
| Decoded (params : Params)   (* the decoded [dict] *)
| DecodeError                 (* [json.JSONDecodeError] *)
| LoadsRaises (e : exn).      (* any other exception *)

(** ** prompts.py *)

Section Prompts.

(** [json.loads], an external function. *)
Variable json_loads : string -> Loaded.

(** One attempt of [ACTION:\s*(\w+)] at the start of [s]: the tool name
    (group 1) and the text after the end of the match.  [\s*] and [\w+] are
    greedy and no character is both a space and a word character, so giving
    back spaces cannot turn a failure into a match. *)
Definition match_action_here (s : string) : option (string * string) :=
  if startswith s "ACTION:" then
    match span is_word (lstrip_by is_space (drop 7 s)) with
    | (EmptyString, _) => None
    | (tool_name, rest) => Some (tool_name, rest)
    end
  else None.

(** [re.search(r'ACTION:\s*(\w+)', response)]: the leftmost match. *)
Fixpoint search_action (s : string) : option (string * string) :=
  match match_action_here s with
  | Some m => Some m
  | None =>
      match s with
      | EmptyString => None
      | String _ s' => search_action s'
      end
  end.

(** [response.find('{', start_pos)]: the text from the first opening brace
    on, [None] for the index [-1]. *)
Fixpoint from_brace (s : string) : option string :=
  match s with
  | EmptyString => None
  | String c s' => if Ascii.eqb c "{" then Some s else from_brace s'
  end.

(** The brace-counting loop, run on [response[brace_start:]] with the
    current [brace_count]; the result is [response[brace_start:brace_end+1]],
    [None] when [brace_end] stays [-1]. *)
Fixpoint brace_span (s : string) (brace_count : Z) : option string :=
  match s with
  | EmptyString => None
  | String c s' =>
      if Ascii.eqb c "{" then
        option_map (String c) (brace_span s' (brace_count + 1))
      else if Ascii.eqb c "}" then
        if brace_count - 1 =? 0 then Some (String c EmptyString)
        else option_map (String c) (brace_span s' (brace_count - 1))
      else option_map (String c) (brace_span s' brace_count)
  end.

(** The pair [(None, None)] is [inr None]; [inl e] is the exception that
    [json.loads] raised and the [except] clause did not catch. *)
Definition extract_action_from_response (response : string)
  : exn + option (string * Params) :=
  match search_action response with
  | None => inr None
  | Some (tool_name, after_name) =>
      match from_brace after_name with
      | None => inr None
      | Some from_open =>
          match brace_span from_open 0 with
          | None => inr None
          | Some json_str =>
              match json_loads json_str with
              | Decoded params => inr (Some (tool_name, params))
              | DecodeError => inr None
              | LoadsRaises e => inl e
              end
          end
      end
  end.

Definition has_final_answer (response : string) : bool :=
  str_in "FINAL ANSWER:" (upper response).

(** A literal matched under [re.IGNORECASE], on ASCII text: letter for
    letter, in either case.  (On other text the flag also lets a few
    characters beyond code 127 match an ASCII letter.) *)
Fixpoint startswith_nocase (s p : string) {struct p} : bool :=
  match p with
  | EmptyString => true
  | String a p' =>
      match s with
      | EmptyString => false
      | String b s' =>
          Ascii.eqb (upper_char a) (upper_char b) && startswith_nocase s' p'
      end
  end.

(** [\s*(.+)] under [re.DOTALL], matched on the text after the marker:
    group 1.  When only spaces follow the marker, the greedy [\s*] gives the
    last of them back to [.+]. *)
Definition final_answer_group (after : string) : option string :=
  match span is_space after with
  | (_, String c rest) => Some (String c rest)
  | (EmptyString, EmptyString) => None
  | (spaces, EmptyString) => Some (drop (String.length spaces - 1) spaces)
  end.

(** [re.search(r'FINAL ANSWER:\s*(.+)', response, re.IGNORECASE | re.DOTALL)] *)
Fixpoint search_final_answer (s : string) : option string :=
  match (if startswith_nocase s "FINAL ANSWER:"
         then final_answer_group (drop 13 s) else None) with
  | Some g => Some g
  | None =>
      match s with
      | EmptyString => None
      | String _ s' => search_final_answer s'
      end
  end.

Definition extract_final_answer (response : string) : string :=
  match search_final_answer response with
  | Some g => strip g
  | None => EmptyString
  end.

End Prompts.

(** ** Effects and the monad of effectful code *)

(** What the outside world can observe, in the order it happens. *)
Inductive Event : Type :=
| EvSleep (d : Z)            (* [time.sleep(d)] *)
| EvLlmCall (t attempt : Z)  (* a provider call started at clock time [t],
                                as attempt number [attempt] of [_call_llm] *)
| EvSql (stmt : string) (args : list string).
                             (* [cursor.execute(stmt, args)] *)

Record World : Type := mkWorld {
  clock : Z;                 (* what [time.time()] returns *)
  last_api_call : Z;         (* the agent's [_last_api_call] field *)
  llm_calls : nat;           (* provider calls started so far *)
  events : list Event
}.

Definition M (A : Type) : Type := World -> (exn + A) * World.

Definition ret {A} (a : A) : M A := fun w => (inr a, w).
Definition raise {A} (e : exn) : M A := fun w => (inl e, w).

Definition bind {A B} (m : M A) (k : A -> M B) : M B :=
  fun w =>
    match m w with
    | (inr a, w') => k a w'
    | (inl e, w') => (inl e, w')
    end.

(** [try: body  except Exception as e: handler e] *)
Definition try_except {A} (body : M A) (handler : exn -> M A) : M A :=
  fun w =>
    match body w with
    | (inr a, w') => (inr a, w')
    | (inl e, w') => handler e w'
    end.

Declare Scope monad_scope.
Delimit Scope monad_scope with monad.
Notation "x <- m ;; k" := (bind m (fun x => k))
  (at level 61, m at next level, right associativity) : monad_scope.
Notation "m ;;; k" := (bind m (fun _ => k))
  (at level 61, right associativity) : monad_scope.
Open Scope monad_scope.

Definition emit (e : Event) : M unit :=
  fun w => (inr tt, mkWorld (clock w) (last_api_call w) (llm_calls w)
                            (events w ++ [e])).

(** [time.time()] *)
Definition time_now : M Z := fun w => (inr (clock w), w).

(** [time.sleep(d)]: a negative length raises [ValueError]; otherwise the
    clock advances by [d]. *)
Definition time_sleep (d : Z) : M unit :=
  fun w =>
    if d <? 0 then (inl (ValueError "sleep length must be non-negative"), w)
    else (inr tt, mkWorld (clock w + d) (last_api_call w) (llm_calls w)
                          (events w ++ [EvSleep d])).

Definition get_last_api_call : M Z := fun w => (inr (last_api_call w), w).

Definition set_last_api_call (t : Z) : M unit :=
  fun w => (inr tt, mkWorld (clock w) t (llm_calls w) (events w)).

(** [try: body  except C as e: handler e] for one exception class [C], given
    by the test [is_c]; any other exception propagates. *)
Definition try_except_class {A} (is_c : exn -> bool) (body : M A)
    (handler : exn -> M A) : M A :=
  try_except body (fun e => if is_c e then handler e else raise e).

Definition is_sqlite_error (e : exn) : bool :=
  match e with SqliteError _ => true | _ => false end.

(** Lifting a pure computation that may raise. *)
Definition lift {A} (r : exn + A) : M A :=
  match r with inl e => raise e | inr a => ret a end.

(** ** The SQLite connection *)

Inductive SqlValue : Type :=
| SqlNull
| SqlInt (z : Z)
| SqlReal (repr : string)    (* a float, carried as its [str()] *)
| SqlText (s : string).

(** [str(val)] *)
Definition sql_str (v : SqlValue) : string :=
  match v with
  | SqlNull => "None"
  | SqlInt z => str_of_Z z
  | SqlReal r => r
  | SqlText s => s
  end.

(** A row of [PRAGMA table_info]: [col[1]], [col[2]], [col[3]], [col[5]]. *)
Record Column : Type := mkColumn {
  col_name : string;
  col_type : string;
  col_notnull : Z;
  col_pk : Z
}.

(** The answer of the engine to a statement: [inl msg] when it raises
    [sqlite3.Error] with message [msg]. *)
Definition DbResult (A : Type) : Type := (string + A)%type.

(** The engine behind a connection, one field per kind of statement the
    tools send.  The database is only read, so the answers do not depend on
    the statements sent before. *)
Record Database : Type := mkDatabase {
  (* SELECT name FROM sqlite_master WHERE type='table' ORDER BY name *)
  db_table_names : DbResult (list string);
  (* SELECT name FROM sqlite_master WHERE type='table' AND name=? : is there a row *)
  db_table_lookup : string -> DbResult bool;
  (* PRAGMA table_info(name) *)
  db_table_info : string -> DbResult (list Column);
  (* SELECT COUNT( * ) FROM name *)
  db_row_count : string -> DbResult Z;
  (* EXPLAIN query, given the whole statement text *)
  db_explain : string -> DbResult unit;
  (* a SELECT: [cursor.description] column names and [fetchall()] *)
  db_select : string -> DbResult (list string * list (list SqlValue))
}.

(** [cursor.execute(stmt, args)] followed by the fetch. *)
Definition db_execute {A} (stmt : string) (args : list string)
    (answer : DbResult A) : M A :=
  emit (EvSql stmt args) ;;;
  match answer with
  | inl msg => raise (SqliteError msg)
  | inr a => ret a
  end.

(** ** tools.py *)

Definition dangerous_keywords : list string :=
  [ "DELETE"; "DROP"; "INSERT"; "UPDATE"; "ALTER";
    "TRUNCATE"; "EXEC"; "EXECUTE"; "CREATE"; "REPLACE";
    "PRAGMA"; "ATTACH"; "DETACH" ].

(** The [for keyword in dangerous_keywords] loop: the first keyword, in list
    order, that [re.search] finds. *)
Fixpoint first_dangerous (keywords : list string) (query_upper : string)
  : option string :=
  match keywords with
  | [] => None
  | keyword :: rest =>
      if word_search keyword query_upper then Some keyword
      else first_dangerous rest query_upper
  end.

Definition add_limit_if_missing (query : string) (default_limit : Z) : string :=
  if str_in "LIMIT" (upper query) then query
  else
    let query_stripped := rstrip (rstrip_semicolons query) in
    query_stripped ++ " LIMIT " ++ str_of_Z default_limit.

Definition is_letter (c : ascii) : bool :=
  is_upper_letter c || is_lower_letter c.

(** [re.match(r'^[a-zA-Z_][a-zA-Z0-9_]*$', s)]; in Python [$] also matches
    just before a line feed that ends the text. *)
Definition identifier_match (s : string) : bool :=
  match s with
  | EmptyString => false
  | String c s' =>
      (is_letter c || Ascii.eqb c "_")
      && (let (_, rest) := span is_word s' in
          String.eqb rest EmptyString || String.eqb rest LF)
  end.

(** The Python type name of a decoded value. *)
Definition py_type_name (v : json) : string :=
  match v with
  | JNull => "NoneType"
  | JBool _ => "bool"
  | JInt _ => "int"
  | JFloat _ => "float"
  | JStr _ => "str"
  | JArr _ => "list"
  | JObj _ => "dict"
  end.

(** The argument comes from decoded JSON, so it need not be a [str]:
    [re.match] raises [TypeError] on anything else. *)
Definition sanitize_identifier (identifier : json) : exn + string :=
  match identifier with
  | JStr s =>
      if identifier_match s then inr s
      else inl (ValueError ("Invalid identifier '" ++ s ++ "'. "
                  ++ "Only alphanumeric characters and underscores allowed."))
  | v => inl (TypeError ("expected string or bytes-like object, got '"
                           ++ py_type_name v ++ "'"))
  end.

Section Tools.

(** The engine behind [db_conn]. *)
Variable db : Database.

(** The result is the pair [(is_valid, error_message)]. *)
Definition validate_sql_query (query : string) : M (bool * string) :=
  let query_stripped := strip query in
  let query_upper := upper query_stripped in
  (* Layer 1 *)
  if negb (existsb (startswith query_upper) ["SELECT"; "WITH"]) then
    ret (false, "Only SELECT queries (including WITH/CTEs) are allowed.")
  else
    (* Layer 2 *)
    let query_no_trailing := rstrip (rstrip_semicolons query_stripped) in
    if str_in ";" query_no_trailing then
      ret (false, "Multiple statements not allowed.")
    else
      (* Layer 3 *)
      match first_dangerous dangerous_keywords query_upper with
      | Some keyword =>
          ret (false, "Dangerous keyword '" ++ keyword ++ "' detected.")
      | None =>
          (* Layer 4 *)
          try_except_class is_sqlite_error
            (db_execute ("EXPLAIN " ++ query) []
                        (db_explain db ("EXPLAIN " ++ query)) ;;;
             ret (true, EmptyString))
            (fun e => ret (false, "Invalid SQL syntax: " ++ exn_str e))
      end.

Definition list_tables : M string :=
  try_except_class is_sqlite_error
    (tables <- db_execute
                 "SELECT name FROM sqlite_master WHERE type='table' ORDER BY name"
                 [] (db_table_names db) ;;
     match tables with
     | [] => ret "No tables found in database."
     | table_names => ret ("Tables in database: " ++ join ", " table_names)
     end)
    (fun e => ret ("Error listing tables: " ++ exn_str e)).

Definition column_line (col : Column) : string :=
  let not_null := if col_notnull col =? 0 then EmptyString else " NOT NULL" in
  let pk := if col_pk col =? 0 then EmptyString else " PRIMARY KEY" in
  "  - " ++ col_name col ++ " (" ++ col_type col ++ ")" ++ not_null ++ pk.

Definition describe_table (table_name : json) : M string :=
  try_except_class is_sqlite_error
    (match sanitize_identifier table_name with
     | inl (ValueError m) => ret ("Error: " ++ m)
     | inl e => raise e
     | inr safe_table_name =>
         found <- db_execute
                    "SELECT name FROM sqlite_master WHERE type='table' AND name=?"
                    [safe_table_name] (db_table_lookup db safe_table_name) ;;
         if negb found then
           ret ("Error: Table '" ++ safe_table_name ++ "' does not exist.")
         else
           columns <- db_execute
                        ("PRAGMA table_info(" ++ safe_table_name ++ ")") []
                        (db_table_info db safe_table_name) ;;
           row_count <- db_execute
                          ("SELECT COUNT(*) FROM " ++ safe_table_name) []
                          (db_row_count db safe_table_name) ;;
           ret (join LF
                  ([ "Table: " ++ safe_table_name;
                     "Row count: " ++ str_of_Z row_count;
                     "Columns:" ]
                   ++ map column_line columns))
     end)
    (fun e => ret ("Error describing table: " ++ exn_str e)).

Definition format_rows (column_names : list string)
    (results : list (list SqlValue)) : string :=
  let header := join " | " column_names in
  let display_limit := Nat.min 20 (List.length results) in
  join LF
    ([ "Query returned " ++ str_of_Z (Z.of_nat (List.length results))
         ++ " row(s):";
       EmptyString;
       header;
       repeat_str "-" (String.length header) ]
     ++ map (fun row => join " | " (map sql_str row))
            (firstn display_limit results)
     ++ (if (display_limit <? List.length results)%nat then
           [ "... ("
               ++ str_of_Z (Z.of_nat (List.length results - display_limit))
               ++ " more rows not shown)" ]
         else [])).

(** The argument comes from decoded JSON; on anything but a [str] the call
    [query.strip()] raises [AttributeError], inside the [try]. *)
Definition query_database (query : json) : M string :=
  try_except
    (match query with
     | JStr q =>
         v <- validate_sql_query q ;;
         let (is_valid, error_msg) := v in
         if negb is_valid then
           ret ("Query validation failed: " ++ error_msg)
         else
           let query_with_limit := add_limit_if_missing q 100 in
           r <- db_execute query_with_limit []
                           (db_select db query_with_limit) ;;
           let (column_names, results) := r in
           match results with
           | [] => ret "Query executed successfully but returned no results."
           | _ => ret (format_rows column_names results)
           end
     | v => raise (AttributeError ("'" ++ py_type_name v
                                     ++ "' object has no attribute 'strip'"))
     end)
    (fun e =>
       if is_sqlite_error e then ret ("Database error: " ++ exn_str e)
       else ret ("Unexpected error: " ++ exn_str e)).

(** *** The registry *)

(** A [Tool]; [tool_func] is the [functools.partial] over the connection,
    called with the decoded parameters as keyword arguments. *)
Record Tool : Type := mkTool {
  tool_name : string;
  tool_func : Params -> M string;
  tool_description : string;
  tool_param_schema : list (string * string)
}.

(** The connection is bound positionally by [functools.partial]; a keyword
    of that name collides with it. *)
Definition unexpected_keyword (fname k : string) : exn :=
  if String.eqb k "db_conn" then
    TypeError (fname ++ "() got multiple values for argument 'db_conn'")
  else
    TypeError (fname ++ "() got an unexpected keyword argument '" ++ k ++ "'").

Definition missing_argument (fname p : string) : exn :=
  TypeError (fname ++ "() missing 1 required positional argument: '"
               ++ p ++ "'").

(** Binding [**kwargs] to a function that takes no further argument. *)
Definition bind_no_argument (fname : string) (kwargs : Params) : exn + unit :=
  match kwargs with
  | [] => inr tt
  | (k, _) :: _ => inl (unexpected_keyword fname k)
  end.

(** Binding [**kwargs] to a function whose one further argument is [p]. *)
Definition bind_one_argument (fname p : string) (kwargs : Params)
  : exn + json :=
  match find (fun kv => negb (String.eqb (fst kv) p)) kwargs with
  | Some (k, _) => inl (unexpected_keyword fname k)
  | None =>
      match kwargs with
      | (_, v) :: _ => inr v
      | [] => inl (missing_argument fname p)
      end
  end.

Definition create_tool_registry : list Tool :=
  [ mkTool "list_tables"
      (fun kwargs => lift (bind_no_argument "list_tables" kwargs) ;;;
                     list_tables)
      "Lists all tables in the database. No parameters required."
      [];
    mkTool "describe_table"
      (fun kwargs =>
         table_name <- lift (bind_one_argument "describe_table" "table_name"
                                               kwargs) ;;
         describe_table table_name)
      "Describes the schema of a specific table including columns, types, and row count."
      [("table_name", "str")];
    mkTool "query_database"
      (fun kwargs =>
         query <- lift (bind_one_argument "query_database" "query" kwargs) ;;
         query_database query)
      "Executes a read-only SELECT query on the database. Only SELECT queries allowed."
      [("query", "str")] ].

(** [tools_dict.get(name)] *)
Definition tools_dict_get (name : string) : option Tool :=
  find (fun t => String.eqb (tool_name t) name) create_tool_registry.

(** [list(tools_dict.keys())] *)
Definition tools_dict_keys : list string := map tool_name create_tool_registry.

End Tools.

(** *** Schema extraction *)

Section Schema.

Variable db : Database.




End Schema.

(** ** prompts.py: the system prompt *)

Definition DQUOTE : string := String "034"%char EmptyString.

(** A text given line by line, every line ended by a line feed. *)
Fixpoint unlines (l : list string) : string :=
  match l with
  | [] => EmptyString
  | x :: rest => x ++ LF ++ unlines rest
  end.

(** The lines of the literal [SYSTEM_PROMPT_TEMPLATE]; the literal starts
    with its first line and ends with the line feed of its last. *)
Definition SYSTEM_PROMPT_TEMPLATE_lines : list string :=
  [
    "You are a SQL Database Agent that helps users query a database using natural language.";
    EmptyString;
    "## DATABASE SCHEMA:";
    EmptyString;
    "___SCHEMA___";
    EmptyString;
    "## AVAILABLE TOOLS:";
    EmptyString;
    "___TOOLS___";
    EmptyString;
    "## OUTPUT FORMAT:";
    EmptyString;
    "CRITICAL: Each response must contain EXACTLY ONE of these:";
    EmptyString;
    "Option 1 - Use a tool:";
    "THOUGHT: your reasoning";
    "ACTION: tool_name{" ++ DQUOTE ++ "param" ++ DQUOTE ++ ": " ++ DQUOTE ++ "value" ++ DQUOTE ++ "}";
    EmptyString;
    "Option 2 - Final answer:";
    "FINAL ANSWER: your complete answer";
    EmptyString;
    "RULES:";
    "1. One output per turn: EITHER (THOUGHT + ACTION) OR (FINAL ANSWER)";
    "2. NEVER generate OBSERVATION - system provides it";
    "3. STOP after ACTION";
    "4. ACTION format must be valid JSON: tool_name{" ++ DQUOTE ++ "param" ++ DQUOTE ++ ": " ++ DQUOTE ++ "value" ++ DQUOTE ++ "}";
    "5. Always THOUGHT first";
    EmptyString;
    "___EXAMPLES___"
  ].

Definition SYSTEM_PROMPT_TEMPLATE : string :=
  unlines SYSTEM_PROMPT_TEMPLATE_lines.

(** The lines of the literal [FEW_SHOT_EXAMPLES], which starts with a line
    feed: its first line is empty. *)
Definition FEW_SHOT_EXAMPLES_lines : list string :=
  [
    EmptyString;
    "## EXAMPLES:";
    EmptyString;
    "Example 1: Simple Query";
    EmptyString;
    "User: How many employees are in the database?";
    EmptyString;
    "Agent:";
    "THOUGHT: I can see the employees table. I'll count the rows.";
    "ACTION: query_database{" ++ DQUOTE ++ "query" ++ DQUOTE ++ ": " ++ DQUOTE ++ "SELECT COUNT(*) as count FROM employees" ++ DQUOTE ++ "}";
    EmptyString;
    "OBSERVATION: Query returned 1 row(s):";
    "count";
    "-----";
    "8";
    EmptyString;
    "Agent:";
    "FINAL ANSWER: There are 8 employees in the database.";
    EmptyString;
    "---";
    EmptyString;
    "Example 2: Multi-Step";
    EmptyString;
    "User: How many people work in Engineering?";
    EmptyString;
    "Agent:";
    "THOUGHT: I need to find the department_id for Engineering first.";
    "ACTION: query_database{" ++ DQUOTE ++ "query" ++ DQUOTE ++ ": " ++ DQUOTE ++ "SELECT id FROM departments WHERE name='Engineering'" ++ DQUOTE ++ "}";
    EmptyString;
    "OBSERVATION: Query returned 1 row(s):";
    "id";
    "--";
    "1";
    EmptyString;
    "Agent:";
    "THOUGHT: Engineering has department_id=1. Now I'll count employees.";
    "ACTION: query_database{" ++ DQUOTE ++ "query" ++ DQUOTE ++ ": " ++ DQUOTE ++ "SELECT COUNT(*) as count FROM employees WHERE department_id=1" ++ DQUOTE ++ "}";
    EmptyString;
    "OBSERVATION: Query returned 1 row(s):";
    "count";
    "-----";
    "3  ";
    EmptyString;
    "Agent:";
    "FINAL ANSWER: There are 3 people working in the Engineering department.";
    EmptyString;
    "---";
    EmptyString;
    "Remember: Each response is EITHER (THOUGHT + ACTION) OR (FINAL ANSWER). NEVER generate OBSERVATION.";
    EmptyString;
    "NOW IT'S YOUR TURN."
  ].

Definition FEW_SHOT_EXAMPLES : string := unlines FEW_SHOT_EXAMPLES_lines.

(** [s.replace(old, new)] for a non-empty [old]: the occurrences of [old]
    are replaced from left to right, without overlap, and what was put in
    is not searched again.  [skip] is the number of characters of a replaced
    occurrence still to pass over. *)
Fixpoint replace_from (skip : nat) (old new s : string) : string :=
  match s with
  | EmptyString => EmptyString
  | String c s' =>
      match skip with
      | S k => replace_from k old new s'
      | O =>
          if startswith s old
          then new ++ replace_from (String.length old - 1) old new s'
          else String c (replace_from 0 old new s')
      end
  end.

Definition replace (old new s : string) : string := replace_from 0 old new s.

(** [enumerate(l, start)] *)
Fixpoint enumerate {A} (l : list A) (start : Z) : list (Z * A) :=
  match l with
  | [] => []
  | x :: rest => (start, x) :: enumerate rest (start + 1)
  end.

(** [Tool.to_prompt_string] of tools.py; [param_schema] is a [dict], here
    the list of its items in insertion order. *)
Definition to_prompt_string (tool : Tool) : string :=
  let params_str :=
    join ", " (map (fun kv : string * string =>
                      fst kv ++ " (" ++ snd kv ++ ")")
                   (tool_param_schema tool)) in
  if negb (String.eqb params_str EmptyString) then
    tool_name tool ++ "(" ++ params_str ++ "): " ++ tool_description tool
  else
    tool_name tool ++ "(): " ++ tool_description tool.

Definition build_tool_descriptions (tools : list Tool) : string :=
  let descriptions :=
    map (fun it : Z * Tool =>
           str_of_Z (fst it) ++ ". " ++ to_prompt_string (snd it))
        (enumerate tools 1) in
  join (LF ++ LF) descriptions.

Definition build_system_prompt (schema : string) (tools : list Tool)
    (include_examples : bool) : string :=
  let tool_descriptions := build_tool_descriptions tools in
  let few_shot := if include_examples then FEW_SHOT_EXAMPLES
                  else EmptyString in
  let prompt := replace "___SCHEMA___" schema SYSTEM_PROMPT_TEMPLATE in
  let prompt := replace "___TOOLS___" tool_descriptions prompt in
  let prompt := replace "___EXAMPLES___" few_shot prompt in
  prompt.

(** ** agent.py *)

Inductive Role : Type := system | user | assistant.

Record Message : Type := mkMessage { role : Role; content : string }.

(** [AgentConfig].  [temperature] (a float) and [verbose] are left out: the
    first is only passed on to the provider, the second only prints. *)
Record AgentConfig : Type := mkAgentConfig {
  max_iterations : Z;
  model_name : string;
  stop_sequences : list string;
  min_delay_between_calls : Z;
  max_retries : Z;
  retry_delay : Z
}.

(** What one call of the provider SDK does: it takes [latency] ticks and
    then returns the text [inr text], or raises an exception [e] with
    [str(e) = msg], written [inl msg]. *)
Record Reply : Type := mkReply { latency : Z; outcome : string + string }.

(** [range(1, n + 1)] *)
Definition range_from_1 (n : Z) : list Z :=
  map Z.of_nat (seq 1 (Z.to_nat n)).

Definition fatal_keywords : list string :=
  [ "daily limit"; "quota exceeded"; "daily quota"; "rate_limit_exceeded" ].

Definition rate_limit_keywords : list string :=
  [ "rate limit"; "too many requests"; "requests per minute" ].

(** [any(keyword in error_str for keyword in keywords)] *)
Definition any_keyword_in (keywords : list string) (error_str : string) : bool :=
  existsb (fun keyword => str_in keyword error_str) keywords.

(** [error_msg] of the daily-limit branch.  Adjacent string literals are
    joined before [*] applies, so in the source the second and third
    [* 70] repeat the whole literal block that ends in the equals sign. *)
Definition daily_limit_message (e_str : string) : string :=
  LF ++ repeat_str "=" 70
  ++ repeat_str (LF ++ "🛑 DAILY TOKEN LIMIT REACHED!" ++ LF ++ "=") 70
  ++ repeat_str
       (LF ++ "Groq daily token limit has been exceeded." ++ LF
        ++ "This limit resets daily (usually at midnight UTC)." ++ LF ++ LF
        ++ "Actions:" ++ LF
        ++ "1. Wait for limit reset (check Groq dashboard)" ++ LF
        ++ "2. Or switch to another provider (set llm_provider='gemini')" ++ LF
        ++ "3. Or use a different API key if available" ++ LF ++ LF
        ++ "Original error: " ++ e_str ++ LF ++ "=") 70.

Definition persistent_rate_limit_message (cfg : AgentConfig) : string :=
  "Rate limit persists after " ++ str_of_Z (max_retries cfg) ++ " retries".

Section Agent.

Variable json_loads : string -> Loaded.
Variable db : Database.

(** The provider behind [self.llm]: its answer to the [n]-th call made
    through the client (counted from 0) with the given conversation.  Both
    SDK branches ([groq], [gemini]) are calls of this oracle. *)
Variable provider : nat -> list Message -> Reply.

Variable config : AgentConfig.

(** [self.system_prompt], built once by the constructor. *)
Variable system_prompt : string.

(** The SDK call itself, started at the current clock time; what it raises
    is handed to the [except] clause as a value. *)
Definition provider_call (attempt : Z) (messages : list Message)
  : M (string + string) :=
  fun w =>
    let r := provider (llm_calls w) messages in
    (inr (outcome r),
     mkWorld (clock w + latency r) (last_api_call w) (S (llm_calls w))
             (events w ++ [EvLlmCall (clock w) attempt])).

(** [retry_delay * (2 ** (attempt - 1))] *)
Definition backoff_delay (attempt : Z) : Z :=
  retry_delay config * 2 ^ (attempt - 1).

(** The [for attempt in range(1, max_retries + 1)] loop of [_call_llm], on
    the attempts still to make, and the [raise] that follows it. *)
Fixpoint retry_loop (messages : list Message) (attempts : list Z) : M string :=
  match attempts with
  | [] => raise (RuntimeError "Failed to call LLM after max retries")
  | attempt :: rest =>
      now <- time_now ;;
      set_last_api_call now ;;;
      r <- provider_call attempt messages ;;
      match r with
      | inr text => ret text
      | inl e_str =>
          let error_str := lower e_str in
          if any_keyword_in fatal_keywords error_str then
            raise (RuntimeError (daily_limit_message e_str))
          else if any_keyword_in rate_limit_keywords error_str then
            if attempt <? max_retries config then
              time_sleep (backoff_delay attempt) ;;;
              retry_loop messages rest
            else raise (RuntimeError (persistent_rate_limit_message config))
          else if attempt <? max_retries config then
            time_sleep (backoff_delay attempt) ;;;
            retry_loop messages rest
          else raise (ProviderError e_str)
      end
  end.

Definition _call_llm (messages : list Message) : M string :=
  now <- time_now ;;
  last <- get_last_api_call ;;
  let time_since_last_call := now - last in
  (if time_since_last_call <? min_delay_between_calls config then
     time_sleep (min_delay_between_calls config - time_since_last_call)
   else ret tt) ;;;
  retry_loop messages (range_from_1 (max_retries config)).

(** Step 4 of [run]: the observation for a parsed action. *)
Definition execute_tool (action_name : string) (params : Params) : M string :=
  match tools_dict_get db action_name with
  | None =>
      let error_msg := "Unknown tool: " ++ action_name in
      ret ("Error: " ++ error_msg ++ ". Available tools: "
             ++ join ", " (tools_dict_keys db))
  | Some tool =>
      try_except (tool_func tool params)
                 (fun e => ret ("Tool execution error: " ++ exn_str e))
  end.

(** How one pass through the body of the main loop ends. *)
Inductive Step : Type :=
| Return (result : string)
| Continue (history : list Message) (response : string).

(** The body of the [for iteration] loop of [run]. *)
Definition react_iteration (history : list Message) : M Step :=
  r <- try_except (text <- _call_llm history ;; ret (inr text))
                  (fun e => ret (inl e)) ;;
  match r with
  | inl e =>
      let error_msg := "LLM call failed: " ++ exn_str e in
      ret (Return ("Error: " ++ error_msg))
  | inr response =>
      let history := (history ++ [mkMessage assistant response])%list in
      if has_final_answer response then
        ret (Return (extract_final_answer response))
      else
        (* the parser is called outside any [try] *)
        parsed <- lift (extract_action_from_response json_loads response) ;;
        match parsed with
        | None =>
            ret (Continue
                   (history ++ [mkMessage user
                      "Error: Expected ACTION or FINAL ANSWER. Please provide one."])%list
                   response)
        | Some (action_name, params) =>
            observation <- execute_tool action_name params ;;
            ret (Continue
                   (history
                      ++ [mkMessage user ("OBSERVATION: " ++ observation)])%list
                   response)
        end
  end.

(** The main loop on the iterations still to run; [response] is the last
    response received, unbound before the first one. *)
Fixpoint run_loop (iterations : list Z) (history : list Message)
    (response : option string) : M string :=
  match iterations with
  | [] =>
      match response with
      | Some r =>
          ret ("Agent stopped: Reached maximum iterations ("
                 ++ str_of_Z (max_iterations config) ++ "). Last response:"
                 ++ LF ++ LF ++ r)
      | None =>
          raise (UnboundLocalError
                   "cannot access local variable 'response' where it is not associated with a value")
      end
  | _ :: rest =>
      s <- react_iteration history ;;
      match s with
      | Return result => ret result
      | Continue history' response' => run_loop rest history' (Some response')
      end
  end.

Definition run (user_query : string) : M string :=
  let history := [ mkMessage system system_prompt;
                   mkMessage user user_query ] in
  run_loop (range_from_1 (max_iterations config)) history None.

End Agent.

(** ** api.py: run_query_with_full_logging *)

Inductive StepType : Type := REACT_CYCLE | FINAL_ANSWER | ERROR.

(** [step_data].  [timestamp] is the clock reading, not its rendering as
    hours, minutes and seconds; [step_final_answer] is the key
    ["final_answer"], present only on a final-answer step. *)
Record StepData : Type := mkStepData {
  iteration : Z;
  type : option StepType;
  timestamp : Z;
  thought : string;
  action : string;
  action_params : Params;
  observation : string;
  raw_llm_response : string;
  step_final_answer : option string
}.

(** The dictionary the function returns. *)
Record QueryResult : Type := mkQueryResult {
  final_answer : string;
  steps : list StepData;
  iterations : Z;
  status : string
}.

Section Api.

Variable json_loads : string -> Loaded.
Variable db : Database.
Variable provider : nat -> list Message -> Reply.
Variable config : AgentConfig.
Variable system_prompt : string.

(** The [if]/[elif] chain on [action_name], inside its own [try]. *)
Definition api_execute_tool (action_name : string) (params : Params)
  : M string :=
  try_except
    (if String.eqb action_name "list_tables" then list_tables db
     else if String.eqb action_name "describe_table" then
       table_name <- lift (bind_one_argument "describe_table" "table_name"
                                             params) ;;
       describe_table db table_name
     else if String.eqb action_name "query_database" then
       query <- lift (bind_one_argument "query_database" "query" params) ;;
       query_database db query
     else ret ("Unknown tool: " ++ action_name))
    (fun e => ret ("Tool error: " ++ exn_str e)).

(** How one pass through the body of the loop ends: a [return], a
    [continue] or fall-through with the new history and step list, or the
    [break] of the outer [except]. *)
Inductive ApiStep : Type :=
| ApiReturn (result : QueryResult)
| ApiNext (history : list Message) (steps : list StepData)
| ApiBreak (steps : list StepData).

Definition api_iteration (iteration : Z) (history : list Message)
    (steps : list StepData) : M ApiStep :=
  now <- time_now ;;
  let step_data :=
    mkStepData iteration None now EmptyString EmptyString [] EmptyString
               EmptyString None in
  r <- try_except (text <- _call_llm provider config history ;; ret (inr text))
                  (fun e => ret (inl e)) ;;
  match r with
  | inl e =>
      (* except Exception as e: ... break *)
      ret (ApiBreak
             (steps ++ [mkStepData iteration (Some ERROR) now EmptyString
                          EmptyString [] (exn_str e) EmptyString None])%list)
  | inr llm_response =>
      let history := (history ++ [mkMessage assistant llm_response])%list in
      if has_final_answer llm_response then
        let final_answer := extract_final_answer llm_response in
        ret (ApiReturn
               (mkQueryResult final_answer
                  (steps ++ [mkStepData iteration (Some FINAL_ANSWER) now
                               EmptyString EmptyString [] EmptyString
                               llm_response (Some final_answer)])%list
                  iteration "success"))
      else
        match extract_action_from_response json_loads llm_response with
        | inl e =>
            (* the parser raised, inside the outer [try]: the same
               [except Exception] clause, with the response already stored
               in the step *)
            ret (ApiBreak
                   (steps ++ [mkStepData iteration (Some ERROR) now
                                EmptyString EmptyString [] (exn_str e)
                                llm_response None])%list)
        | inr None =>
            ret (ApiNext history
                   (steps ++ [mkStepData iteration (Some ERROR) now
                                EmptyString EmptyString []
                                "No valid ACTION found in LLM response"
                                llm_response None])%list)
        | inr (Some (action_name, params)) =>
            let thought :=
              if str_in "THOUGHT:" llm_response then
                strip (remove_all "THOUGHT:"
                         (before_first "ACTION:" llm_response))
              else EmptyString in
            observation <- api_execute_tool action_name params ;;
            ret (ApiNext
                   (history
                      ++ [mkMessage user ("OBSERVATION: " ++ observation)])%list
                   (steps ++ [mkStepData iteration (Some REACT_CYCLE) now
                                thought action_name params observation
                                llm_response None])%list)
        end
  end.

(** The dictionary returned after the loop, whether it ran out of
    iterations or was left by [break]. *)
Definition after_loop (steps : list StepData) : QueryResult :=
  mkQueryResult "Max iterations reached without final answer" steps
                (max_iterations config) "max_iterations".

Fixpoint api_loop (iterations : list Z) (history : list Message)
    (steps : list StepData) : M QueryResult :=
  match iterations with
  | [] => ret (after_loop steps)
  | iteration :: rest =>
      s <- api_iteration iteration history steps ;;
      match s with
      | ApiReturn result => ret result
      | ApiNext history' steps' => api_loop rest history' steps'
      | ApiBreak steps' => ret (after_loop steps')
      end
  end.

Definition run_query_with_full_logging (query : string) : M QueryResult :=
  let history := [ mkMessage system system_prompt;
                   mkMessage user query ] in
  api_loop (range_from_1 (max_iterations config)) history [].

End Api.

(** ** Sample instances of the external parts

    A codec for a subset of JSON, a database and two providers.  They
    instantiate the Section variables in the examples below; no general
    theorem depends on them. *)

Module Sample.

Definition DQ : ascii := "034"%char.
Definition BS : ascii := "092"%char.

Definition quoted (s : string) : string :=
  String DQ (s ++ String DQ EmptyString).

(** The escapes [json.dumps] writes for the quotation mark, the backslash
    and the line feed. *)
Fixpoint escape (s : string) : string :=
  match s with
  | EmptyString => EmptyString
  | String c s' =>
      if Ascii.eqb c DQ then String BS (String DQ (escape s'))
      else if Ascii.eqb c BS then String BS (String BS (escape s'))
      else if Ascii.eqb c "010" then String BS (String "n" (escape s'))
      else String c (escape s')
  end.

(** [json.dumps(v)] with the default separators. *)
Fixpoint json_dumps (v : json) : string :=
  match v with
  | JNull => "null"
  | JBool true => "true"
  | JBool false => "false"
  | JInt z => str_of_Z z
  | JFloat lit => lit
  | JStr s => quoted (escape s)
  | JArr items => "[" ++ join ", " (map json_dumps items) ++ "]"
  | JObj fields =>
      "{" ++ join ", "
               (map (fun kv : string * json =>
                       let (k, x) := kv in
                       quoted (escape k) ++ ": " ++ json_dumps x)
                    fields)
          ++ "}"
  end.

Definition dumps (params : Params) : string := json_dumps (JObj params).

(** The body of a string literal, after its opening quotation mark. *)
Fixpoint read_string (s : string) : option (string * string) :=
  match s with
  | EmptyString => None
  | String c s' =>
      if Ascii.eqb c DQ then Some (EmptyString, s')
      else if Ascii.eqb c BS then
        match s' with
        | String e s'' =>
            let put d := option_map (fun r => (String d (fst r), snd r))
                                    (read_string s'') in
            if Ascii.eqb e DQ then put DQ
            else if Ascii.eqb e BS then put BS
            else if Ascii.eqb e "/" then put "/"%char
            else if Ascii.eqb e "n" then put "010"%char
            else if Ascii.eqb e "t" then put "009"%char
            else if Ascii.eqb e "r" then put "013"%char
            else None
        | EmptyString => None
        end
      else if (code c <? 32)%nat then None
      else option_map (fun r => (String c (fst r), snd r)) (read_string s')
  end.

Definition digits_value (ds : string) : Z :=
  fold_left (fun acc c => 10 * acc + Z.of_nat (code c - 48))
            (list_ascii_of_string ds) 0.

Definition skip (s : string) : string :=
  lstrip_by (fun c => Ascii.eqb c " " || Ascii.eqb c "010"
                      || Ascii.eqb c "013" || Ascii.eqb c "009") s.

(** Set [k] to [x], replacing an earlier item with that key. *)
Definition dict_set (k : string) (x : json) (d : Params) : Params :=
  (filter (fun kv => negb (String.eqb (fst kv) k)) d ++ [(k, x)])%list.

Fixpoint read_value (fuel : nat) (s : string) : option (json * string) :=
  match fuel with
  | O => None
  | S fuel' =>
      match skip s with
      | String "{" rest =>
          match skip rest with
          | String "}" rest' => Some (JObj [], rest')
          | _ => option_map (fun r => (JObj (fst r), snd r))
                            (read_members fuel' rest [])
          end
      | String "[" rest =>
          match skip rest with
          | String "]" rest' => Some (JArr [], rest')
          | _ => option_map (fun r => (JArr (fst r), snd r))
                            (read_items fuel' rest [])
          end
      | String "034" rest =>
          option_map (fun r => (JStr (fst r), snd r)) (read_string rest)
      | String "-" rest =>
          match span is_digit rest with
          | (EmptyString, _) => None
          | (ds, rest') => Some (JInt (- digits_value ds), rest')
          end
      | t =>
          if startswith t "null" then Some (JNull, drop 4 t)
          else if startswith t "true" then Some (JBool true, drop 4 t)
          else if startswith t "false" then Some (JBool false, drop 5 t)
          else match span is_digit t with
               | (EmptyString, _) => None
               | (ds, rest') => Some (JInt (digits_value ds), rest')
               end
      end
  end
with read_members (fuel : nat) (s : string) (acc : Params)
  : option (Params * string) :=
  match fuel with
  | O => None
  | S fuel' =>
      match skip s with
      | String "034" rest =>
          match read_string rest with
          | Some (k, rest1) =>
              match skip rest1 with
              | String ":" rest2 =>
                  match read_value fuel' rest2 with
                  | Some (x, rest3) =>
                      match skip rest3 with
                      | String "," rest4 =>
                          read_members fuel' rest4 (dict_set k x acc)
                      | String "}" rest4 => Some (dict_set k x acc, rest4)
                      | _ => None
                      end
                  | None => None
                  end
              | _ => None
              end
          | None => None
          end
      | _ => None
      end
  end
with read_items (fuel : nat) (s : string) (acc : list json)
  : option (list json * string) :=
  match fuel with
  | O => None
  | S fuel' =>
      match read_value fuel' s with
      | Some (x, rest) =>
          match skip rest with
          | String "," rest' => read_items fuel' rest' (acc ++ [x])%list
          | String "]" rest' => Some ((acc ++ [x])%list, rest')
          | _ => None
          end
      | None => None
      end
  end.

(** A decoder for that subset: the text must be one object, with nothing
    but blanks after it. *)
Definition decode (text : string) : option Params :=
  match read_value (S (String.length text)) text with
  | Some (JObj fields, rest) =>
      match skip rest with
      | EmptyString => Some fields
      | _ => None
      end
  | _ => None
  end.

(** [json.loads] on that subset: it decodes or raises
    [json.JSONDecodeError], nothing else. *)
Definition loads (text : string) : Loaded :=
  match decode text with
  | Some fields => Decoded fields
  | None => DecodeError
  end.

(** The longest run of digits in a text; [run] is the length of the run
    that ends at the current position. *)
Fixpoint longest_digit_run (run best : nat) (s : string) : nat :=
  match s with
  | EmptyString => Nat.max run best
  | String c s' =>
      if is_digit c then longest_digit_run (S run) best s'
      else longest_digit_run 0 (Nat.max run best) s'
  end.

(** [loads] with the digit limit of the interpreter: on a run of more than
    [limit] digits, an integer literal in the texts used here, it raises
    [ValueError], which is not a [json.JSONDecodeError]. *)
Definition loads_with_limit (limit : nat) (text : string) : Loaded :=
  if (limit <? longest_digit_run 0 0 text)%nat then
    LoadsRaises
      (ValueError ("Exceeds the limit (" ++ str_of_Z (Z.of_nat limit)
                     ++ " digits) for integer string conversion"))
  else loads text.

(** A database with two tables, on which every statement succeeds. *)
Definition db : Database :=
  mkDatabase
    (inr ["departments"; "employees"])
    (fun name => inr (existsb (String.eqb name) ["departments"; "employees"]))
    (fun _ => inr [mkColumn "id" "INTEGER" 0 1; mkColumn "name" "TEXT" 1 0])
    (fun _ => inr 8)
    (fun _ => inr tt)
    (fun _ => inr (["count"], [[SqlInt 8]])).

(** The default [AgentConfig]. *)
Definition config : AgentConfig :=
  mkAgentConfig 10 "meta-llama/llama-4-scout-17b-16e-instruct"
    ["OBSERVATION:"; LF ++ "OBSERVATION"; "Observation:"] 20 3 5.

(** A provider that answers at once, call [n] with the [n]-th reply of a
    script and with [last] once the script is over. *)
Definition scripted (script : list (string + string))
    (last : string + string)
  : nat -> list Message -> Reply :=
  fun n _ => mkReply 0 (nth n script last).

(** The message of a failure by requests-per-minute throttling, with the
    error code the provider attaches to it. *)
Definition throttled_message : string :=
  "Error code: 429 - Rate limit reached on requests per minute (RPM): "
  ++ "Limit 30, Used 30. code: rate_limit_exceeded".

(** A fresh agent at clock time [t]: no call made, [_last_api_call = 0]. *)
Definition fresh (t : Z) : World := mkWorld t 0 0 [].

End Sample.

(** ** Notions used in the statements *)

(** [p] occurs in [r] up to letter case. *)
Definition occurs_nocase (p r : string) : Prop :=
  exists pre m post, r = pre ++ m ++ post /\ upper m = upper p.

(** A tool name of the shape [[A-Za-z_]\w*]. *)
Definition tool_name_shape (name : string) : bool :=
  match name with
  | EmptyString => false
  | String c rest =>
      (is_letter c || Ascii.eqb c "_")
      && forallb is_word (list_ascii_of_string rest)
  end.

(** Reading [s] at brace depth [depth], every brace counted whether or not
    it stands inside a string literal: the depth stays positive up to the
    last character of [s], a closing brace that brings it to zero. *)
Fixpoint closes_at_end (depth : nat) (s : string) : bool :=
  match s with
  | EmptyString => false
  | String c s' =>
      if Ascii.eqb c "{" then closes_at_end (S depth) s'
      else if Ascii.eqb c "}" then
        match depth with
        | O => false
        | S O => String.eqb s' EmptyString
        | S d => closes_at_end d s'
        end
      else
        match depth with
        | O => false
        | _ => closes_at_end depth s'
        end
  end.

(** A text that opens with a brace whose match, by that count, is its last
    character. *)
Definition brace_delimited (j : string) : bool := closes_at_end 0 j.

(** A text without a brace. *)
Fixpoint brace_free (s : string) : bool :=
  match s with
  | EmptyString => true
  | String c s' =>
      negb (Ascii.eqb c "{") && negb (Ascii.eqb c "}") && brace_free s'
  end.

(** The message of a provider failure carries a daily-limit or quota
    keyword, respectively a requests-per-minute throttling keyword. *)
Definition signals_quota (msg : string) : bool :=
  any_keyword_in fatal_keywords (lower msg).

Definition signals_throttling (msg : string) : bool :=
  any_keyword_in rate_limit_keywords (lower msg).

(** The world once a provider call, started in [w] as attempt [attempt],
    has come back with reply [r]. *)
Definition after_call (attempt : Z) (r : Reply) (w : World) : World :=
  mkWorld (clock w + latency r) (clock w) (S (llm_calls w))
          (events w ++ [EvLlmCall (clock w) attempt]).

(** The world after a sleep of [d] ticks. *)
Definition after_sleep (d : Z) (w : World) : World :=
  mkWorld (clock w + d) (last_api_call w) (llm_calls w)
          (events w ++ [EvSleep d]).

(** The schedule of the specification: attempts [k], [k + 1], ... start at
    the times [ts], and the sleep before attempt [k'] (for [k' > 1]) lasts
    [retry_delay * 2 ^ (k' - 2)]. *)
Fixpoint backoff_schedule (retry_delay : Z) (k : Z) (ts : list Z)
  : list Event :=
  match ts with
  | [] => []
  | t :: later =>
      EvLlmCall t k
      :: match later with
         | [] => []
         | _ => EvSleep (retry_delay * 2 ^ ((k + 1) - 2))
                :: backoff_schedule retry_delay (k + 1) later
         end
  end.

(** The provider calls of a trace, as pairs (time, attempt number). *)
Fixpoint llm_call_stamps (evs : list Event) : list (Z * Z) :=
  match evs with
  | [] => []
  | EvLlmCall t attempt :: rest => (t, attempt) :: llm_call_stamps rest
  | _ :: rest => llm_call_stamps rest
  end.

(** The gap a call keeps from the call before it: [min_delay_between_calls]
    for a first attempt, the backoff delay for a retry attempt. *)
Definition required_gap (cfg : AgentConfig) (attempt : Z) : Z :=
  if attempt =? 1 then min_delay_between_calls cfg
  else retry_delay cfg * 2 ^ (attempt - 2).

Fixpoint spaced_after (cfg : AgentConfig) (prev : Z) (calls : list (Z * Z))
  : Prop :=
  match calls with
  | [] => True
  | (t, attempt) :: rest =>
      prev + required_gap cfg attempt <= t /\ spaced_after cfg t rest
  end.

Definition spaced (cfg : AgentConfig) (calls : list (Z * Z)) : Prop :=
  match calls with
  | [] => True
  | (t, _) :: rest => spaced_after cfg t rest
  end.

(** Every pair of successive calls at least [d] apart. *)
Fixpoint apart_after (d : Z) (prev : Z) (calls : list (Z * Z)) : Prop :=
  match calls with
  | [] => True
  | (t, _) :: rest => prev + d <= t /\ apart_after d t rest
  end.

Definition apart (d : Z) (calls : list (Z * Z)) : Prop :=
  match calls with
  | [] => True
  | (t, _) :: rest => apart_after d t rest
  end.

(** The SQL statements of a trace. *)
Fixpoint sql_statements (evs : list Event) : list string :=
  match evs with
  | [] => []
  | EvSql stmt _ :: rest => stmt :: sql_statements rest
  | _ :: rest => sql_statements rest
  end.

(** Calls of [_call_llm] made one after the other through one client, an
    exception of one call not preventing the next. *)
Fixpoint consecutive_calls (provider : nat -> list Message -> Reply)
    (cfg : AgentConfig) (conversations : list (list Message))
  : M (list (exn + string)) :=
  match conversations with
  | [] => ret []
  | messages :: rest =>
      r <- try_except (text <- _call_llm provider cfg messages ;;
                       ret (inr text))
                      (fun e => ret (inl e)) ;;
      rs <- consecutive_calls provider cfg rest ;;
      ret (r :: rs)
  end.

(** The first three layers of the validator, each on its own. *)
Definition passes_layer1 (query : string) : bool :=
  existsb (startswith (upper (strip query))) ["SELECT"; "WITH"].

Definition passes_layer2 (query : string) : bool :=
  negb (str_in ";" (rstrip (rstrip_semicolons (strip query)))).

Definition flagged_keyword (query : string) : option string :=
  first_dangerous dangerous_keywords (upper (strip query)).

(** The world after [cursor.execute(stmt, args)]. *)
Definition after_sql (stmt : string) (args : list string) (w : World) : World :=
  mkWorld (clock w) (last_api_call w) (llm_calls w)
          (events w ++ [EvSql stmt args]).

(** The world in which the retry loop of [_call_llm] starts: the one the
    call is made in, after the sleep that fills [min_delay_between_calls]
    when less time than that has passed since [_last_api_call]. *)
Definition rate_limit_wait (cfg : AgentConfig) (w : World) : World :=
  let time_since_last_call := clock w - last_api_call w in
  if time_since_last_call <? min_delay_between_calls cfg then
    after_sleep (min_delay_between_calls cfg - time_since_last_call) w
  else w.

(** The time of the last call of a list of calls, [prev] when there is
    none. *)
Fixpoint last_time (prev : Z) (calls : list (Z * Z)) : Z :=
  match calls with
  | [] => prev
  | (t, _) :: rest => last_time t rest
  end.

(** The client's record of its last call agrees with the trace, and the
    calls of the trace keep their gaps. *)
Definition consistent (cfg : AgentConfig) (w : World) : Prop :=
  spaced cfg (llm_call_stamps (events w))
  /\ (llm_call_stamps (events w) <> [] ->
      last_time 0 (llm_call_stamps (events w)) = last_api_call w).

(** [w'] is [w] after statements were sent to the engine and nothing else
    happened: the clock, the time of the last provider call and the number
    of provider calls are the same. *)
Definition only_sql (w w' : World) : Prop :=
  clock w' = clock w
  /\ last_api_call w' = last_api_call w
  /\ llm_calls w' = llm_calls w
  /\ exists stmts : list (string * list string),
       events w'
       = (events w ++ map (fun s => EvSql (fst s) (snd s)) stmts)%list.

(** A computation that, from any world, does nothing but send statements. *)
Definition quiet {A} (m : M A) : Prop :=
  forall w : World, only_sql w (snd (m w)).

(** A line of the template with the three placeholders filled in at once:
    a line that is a placeholder becomes its value, any other line stays. *)
Definition fill_slot (schema tools examples line : string) : string :=
  if String.eqb line "___SCHEMA___" then schema
  else if String.eqb line "___TOOLS___" then tools
  else if String.eqb line "___EXAMPLES___" then examples
  else line.

(** Text made of ASCII characters only.  On such text the case mappings,
    [\w], [\b], [\s], [str.strip] and [re.IGNORECASE] of Python are the
    ones of this file; on other text Python also maps, matches and folds
    characters beyond code 127, which [string] does not represent. *)
Definition ascii_text (s : string) : bool :=
  forallb (fun c => (code c <? 128)%nat) (list_ascii_of_string s).

(** [m] is spelled like the text whose capital form is [capitals] and whose
    small form is [smalls]: it has their length, and at every place the
    character of one of the two. *)
Fixpoint spelled (capitals smalls m : string) : bool :=
  match capitals, smalls, m with
  | EmptyString, EmptyString, EmptyString => true
  | String u capitals', String l smalls', String c m' =>
      (Ascii.eqb c u || Ascii.eqb c l) && spelled capitals' smalls' m'
  | _, _, _ => false
  end.

(** [capitals] and [smalls] are the two forms of one text: at every place,
    the characters whose upper-case form is the capital are the capital
    itself and the small one, and no other. *)
Fixpoint case_pairs (capitals smalls : string) : Prop :=
  match capitals, smalls with
  | EmptyString, EmptyString => True
  | String u capitals', String l smalls' =>
      (forall c, Ascii.eqb (upper_char c) u
                 = (Ascii.eqb c u || Ascii.eqb c l))
      /\ case_pairs capitals' smalls'
  | _, _ => False
  end.


(** [m] is the word [LIMIT] in some letter case. *)
Definition spells_limit (m : string) : bool := spelled "LIMIT" "limit" m.

(** ** Facts about the string primitives *)

Lemma app_nil_right (s : string) : s ++ EmptyString = s.
Proof. induction s as [|c s IH]; simpl; [reflexivity | now rewrite IH]. Qed.

Lemma app_assoc_str (a b c : string) : (a ++ b) ++ c = a ++ b ++ c.
Proof. induction a as [|x a IH]; simpl; [reflexivity | now rewrite IH]. Qed.

Lemma map_str_app (f : ascii -> ascii) (a b : string) :
  map_str f (a ++ b) = map_str f a ++ map_str f b.
Proof. induction a as [|x a IH]; simpl; [reflexivity | now rewrite IH]. Qed.

Lemma upper_app (a b : string) : upper (a ++ b) = upper a ++ upper b.
Proof. apply map_str_app. Qed.

(** A text whose image splits in two splits accordingly. *)
Lemma map_str_split (f : ascii -> ascii) (r a b : string) :
  map_str f r = a ++ b ->
  exists r1 r2, r = r1 ++ r2 /\ map_str f r1 = a /\ map_str f r2 = b.
Proof.
  revert r; induction a as [|x a IH]; intros r H.
  - exists EmptyString, r. auto.
  - destruct r as [|c r]; simpl in H; [discriminate|].
    injection H as Hc Hr.
    destruct (IH _ Hr) as (r1 & r2 & -> & H1 & H2).
    exists (String c r1), r2. simpl. now rewrite Hc, H1.
Qed.

Lemma startswith_iff (s p : string) :
  startswith s p = true <-> exists t, s = p ++ t.
Proof.
  revert s; induction p as [|a p IH]; intros s; simpl.
  - split; [intros _; now exists s | reflexivity].
  - destruct s as [|b s].
    + split; [discriminate | intros [t Ht]; discriminate].
    + rewrite andb_true_iff, Ascii.eqb_eq, IH. split.
      * intros [-> [t ->]]. now exists t.
      * intros [t Ht]. injection Ht as -> ->. split; [reflexivity | now exists t].
Qed.

Lemma startswith_app (p t : string) : startswith (p ++ t) p = true.
Proof. apply startswith_iff. now exists t. Qed.

Lemma str_in_iff (p s : string) :
  str_in p s = true <-> exists a b, s = a ++ p ++ b.
Proof.
  induction s as [|c s IH].
  - simpl. rewrite orb_false_r, startswith_iff. split.
    + intros [t Ht]. now exists EmptyString, t.
    + intros (a & b & H). destruct a; [now exists b | discriminate].
  - cbn [str_in]. rewrite orb_true_iff, startswith_iff, IH. split.
    + intros [[t Ht] | (a & b & ->)].
      * now exists EmptyString, t.
      * now exists (String c a), b.
    + intros (a & b & H). destruct a as [|x a].
      * left. now exists b.
      * right. injection H as -> ->. now exists a, b.
Qed.

Lemma str_in_app (a p b : string) : str_in p (a ++ p ++ b) = true.
Proof. apply str_in_iff. now exists a, b. Qed.

(** [str_in] on a case-normalised text finds exactly the occurrences up to
    letter case of an upper-case pattern. *)
Lemma str_in_upper_iff (p r : string) :
  upper p = p ->
  str_in p (upper r) = true <-> occurs_nocase p r.
Proof.
  intros Hp. rewrite str_in_iff. unfold occurs_nocase. split.
  - intros (a & b & H).
    destruct (map_str_split _ _ _ _ H) as (r1 & r2 & -> & H1 & H2).
    destruct (map_str_split _ _ _ _ H2) as (m & r3 & -> & H3 & H4).
    exists r1, m, r3. split; [reflexivity|]. now rewrite Hp.
  - intros (pre & m & post & -> & Hm).
    exists (upper pre), (upper post).
    now rewrite !upper_app, Hm, Hp.
Qed.

(** ** Final-answer detection *)

(** A text spelled with the capitals or the smalls is one whose upper-case
    form is the capitals. *)
Lemma spelled_upper (capitals : string) :
  forall smalls : string,
    case_pairs capitals smalls ->
    forall m, spelled capitals smalls m = true <-> upper m = capitals.
Proof.
  induction capitals as [|u capitals IH]; intros smalls Hpairs m.
  - destruct smalls; [| contradiction].
    destruct m; cbn; split; congruence.
  - destruct smalls as [|l smalls]; [contradiction|].
    destruct Hpairs as [Hc Hrest].
    destruct m as [|c m]; [cbn; split; discriminate|].
    change (upper (String c m)) with (String (upper_char c) (upper m)).
    cbn [spelled]. rewrite andb_true_iff, <- Hc, (IH _ Hrest m).
    split.
    + intros [H1 H2]. apply Ascii.eqb_eq in H1. now rewrite H1, H2.
    + intros H. injection H as H1 H2. split; [| assumption].
      now apply Ascii.eqb_eq.
Qed.

Ltac each_character :=
  let c := fresh "c" in
  intros c; destruct c as [[] [] [] [] [] [] [] []]; reflexivity.


Lemma limit_case_pairs : case_pairs "LIMIT" "limit".
Proof. cbn [case_pairs]. repeat split; each_character. Qed.

(** Occurrence up to letter case, said without the case mapping. *)
Lemma occurs_nocase_spelled (capitals smalls r : string) :
  case_pairs capitals smalls ->
  upper capitals = capitals ->
  str_in capitals (upper r) = true
  <-> exists pre m post,
        r = pre ++ m ++ post /\ spelled capitals smalls m = true.
Proof.
  intros Hpairs Hup. rewrite (str_in_upper_iff _ _ Hup).
  unfold occurs_nocase. rewrite Hup.
  split; intros (pre & m & post & Hr & Hm); exists pre, m, post;
    (split; [assumption|]); now apply (spelled_upper _ _ Hpairs).
Qed.



(** ** The row cap *)

Lemma add_limit_present (q : string) (n : Z) :
  str_in "LIMIT" (upper q) = true -> add_limit_if_missing q n = q.
Proof. intros H. unfold add_limit_if_missing. now rewrite H. Qed.

Lemma add_limit_absent (q : string) (n : Z) :
  str_in "LIMIT" (upper q) = false ->
  add_limit_if_missing q n
  = rstrip (rstrip_semicolons q) ++ " LIMIT " ++ str_of_Z n.
Proof. intros H. unfold add_limit_if_missing. now rewrite H. Qed.

(** Whatever the query, the result carries the word [LIMIT]. *)
Lemma add_limit_has_limit (q : string) (n : Z) :
  str_in "LIMIT" (upper (add_limit_if_missing q n)) = true.
Proof.
  destruct (str_in "LIMIT" (upper q)) eqn:E.
  - now rewrite add_limit_present.
  - rewrite add_limit_absent by assumption.
    rewrite !upper_app.
    change (upper " LIMIT ") with (" " ++ "LIMIT" ++ " ").
    rewrite !app_assoc_str, <- (app_assoc_str _ " " _).
    apply str_in_app.
Qed.

(** X27. What [add_limit_if_missing] does to a query of ASCII text: it
    returns it unchanged when the letters of [LIMIT] stand in it, capital
    or small in any mix, wherever that is; otherwise it strips the trailing
    semicolons, then the trailing blanks, and appends [ LIMIT 100].
    Applying it twice gives what applying it once gives. *)
Theorem add_limit_idempotent (q : string) :
  ascii_text q = true ->
  (((exists pre m post, q = pre ++ m ++ post /\ spells_limit m = true)
    /\ add_limit_if_missing q 100 = q)
   \/ (~ (exists pre m post, q = pre ++ m ++ post /\ spells_limit m = true)
       /\ add_limit_if_missing q 100
          = rstrip (rstrip_semicolons q) ++ " LIMIT 100"))
  /\ add_limit_if_missing (add_limit_if_missing q 100) 100
     = add_limit_if_missing q 100.
Proof.
  intros _.
  assert (Hiff := occurs_nocase_spelled "LIMIT" "limit" q
                    limit_case_pairs eq_refl).
  fold spells_limit in Hiff.
  split.
  - destruct (str_in "LIMIT" (upper q)) eqn:E.
    + left. split; [now apply Hiff | now apply add_limit_present].
    + right. split.
      * intros H. apply Hiff in H. discriminate.
      * now apply add_limit_absent.
  - apply add_limit_present, add_limit_has_limit.
Qed.

Lemma add_limit_idempotent_witness :
  (((exists pre m post,
       "SELECT 1;; " = pre ++ m ++ post /\ spells_limit m = true)
    /\ add_limit_if_missing "SELECT 1;; " 100 = "SELECT 1;; ")
   \/ (~ (exists pre m post,
            "SELECT 1;; " = pre ++ m ++ post /\ spells_limit m = true)
       /\ add_limit_if_missing "SELECT 1;; " 100
          = rstrip (rstrip_semicolons "SELECT 1;; ") ++ " LIMIT 100"))
  /\ add_limit_if_missing (add_limit_if_missing "SELECT 1;; " 100) 100
     = add_limit_if_missing "SELECT 1;; " 100.
Proof.
  apply (add_limit_idempotent "SELECT 1;; "). reflexivity.
Defined.

(** C8, on the failing input. The query holds the letters of [LIMIT] only
    inside the column name [speed_limit]: it has no [LIMIT] keyword, hence
    no limit clause.  [add_limit_if_missing] returns it as it is, and
    [query_database], which accepts it, sends it to the engine without a
    row cap. *)
Theorem column_name_passes_for_a_limit_clause :
  word_search "LIMIT" (upper "SELECT speed_limit FROM cars") = false
  /\ add_limit_if_missing "SELECT speed_limit FROM cars" 100
     = "SELECT speed_limit FROM cars"
  /\ sql_statements
       (events (snd (query_database Sample.db
                       (JStr "SELECT speed_limit FROM cars")
                       (Sample.fresh 1000))))
     = [ "EXPLAIN SELECT speed_limit FROM cars";
         "SELECT speed_limit FROM cars" ].
Proof. split; [| split]; reflexivity. Qed.

(** ** The SQL validator *)

(** The validator is its four layers tried in order: the first that fails
    gives the reason, and the engine is asked only when the first three
    pass. *)
Lemma validate_layers (db : Database) (query : string) (w : World) :
  validate_sql_query db query w =
  if negb (passes_layer1 query) then
    (inr (false, "Only SELECT queries (including WITH/CTEs) are allowed."), w)
  else if negb (passes_layer2 query) then
    (inr (false, "Multiple statements not allowed."), w)
  else
    match flagged_keyword query with
    | Some keyword =>
        (inr (false, "Dangerous keyword '" ++ keyword ++ "' detected."), w)
    | None =>
        match db_explain db ("EXPLAIN " ++ query) with
        | inr _ => (inr (true, EmptyString),
                    after_sql ("EXPLAIN " ++ query) [] w)
        | inl msg => (inr (false, "Invalid SQL syntax: " ++ msg),
                      after_sql ("EXPLAIN " ++ query) [] w)
        end
    end.
Proof.
  unfold validate_sql_query, passes_layer1, passes_layer2, flagged_keyword.
  destruct (negb (existsb _ _)); [reflexivity|].
  rewrite negb_involutive.
  destruct (str_in ";" _); [reflexivity|].
  destruct (first_dangerous _ _); [reflexivity|].
  unfold try_except_class, try_except, db_execute, bind, emit, after_sql.
  destruct (db_explain db _); reflexivity.
Qed.

(** C4. The three queries of the specification are rejected, each for the
    reason of the first layer it fails and without a statement being sent
    to the engine; the two others are accepted when the engine accepts their
    [EXPLAIN], which is the one statement sent.  For every query the layers
    apply in order: a query that fails one of the first three is rejected
    for the first it fails, in an unchanged world, and only a query that
    passes all three reaches the engine. *)
Theorem validator_examples (db : Database) (w : World) :
  db_explain db "EXPLAIN SELECT 1" = inr tt ->
  db_explain db "EXPLAIN WITH t AS (SELECT 1) SELECT * FROM t" = inr tt ->
  validate_sql_query db "DROP TABLE x" w
  = (inr (false, "Only SELECT queries (including WITH/CTEs) are allowed."), w)
  /\ validate_sql_query db "SELECT * FROM x; DROP TABLE x" w
     = (inr (false, "Multiple statements not allowed."), w)
  /\ validate_sql_query db "select 1; select 2" w
     = (inr (false, "Multiple statements not allowed."), w)
  /\ validate_sql_query db "SELECT 1" w
     = (inr (true, EmptyString), after_sql "EXPLAIN SELECT 1" [] w)
  /\ validate_sql_query db "WITH t AS (SELECT 1) SELECT * FROM t" w
     = (inr (true, EmptyString),
        after_sql "EXPLAIN WITH t AS (SELECT 1) SELECT * FROM t" [] w)
  /\ (forall query,
        (passes_layer1 query = false ->
         validate_sql_query db query w
         = (inr (false,
                 "Only SELECT queries (including WITH/CTEs) are allowed."), w))
        /\ (passes_layer1 query = true -> passes_layer2 query = false ->
            validate_sql_query db query w
            = (inr (false, "Multiple statements not allowed."), w))
        /\ (forall keyword,
              passes_layer1 query = true -> passes_layer2 query = true ->
              flagged_keyword query = Some keyword ->
              validate_sql_query db query w
              = (inr (false, "Dangerous keyword '" ++ keyword
                               ++ "' detected."), w))
        /\ (passes_layer1 query = true -> passes_layer2 query = true ->
            flagged_keyword query = None ->
            snd (validate_sql_query db query w)
            = after_sql ("EXPLAIN " ++ query) [] w)).
Proof.
  intros H1 H2. rewrite !validate_layers.
  split; [reflexivity|]. split; [reflexivity|]. split; [reflexivity|].
  split; [| split].
  - change ("EXPLAIN " ++ "SELECT 1") with "EXPLAIN SELECT 1".
    now rewrite H1.
  - change ("EXPLAIN " ++ "WITH t AS (SELECT 1) SELECT * FROM t")
      with "EXPLAIN WITH t AS (SELECT 1) SELECT * FROM t".
    now rewrite H2.
  - intros query. rewrite !validate_layers. repeat split.
    + now intros ->.
    + now intros -> ->.
    + now intros keyword -> -> ->.
    + intros -> -> ->. cbn [negb].
      now destruct (db_explain db ("EXPLAIN " ++ query)).
Qed.

Lemma validator_examples_witness :
  validate_sql_query Sample.db "DROP TABLE x" (Sample.fresh 0)
  = (inr (false, "Only SELECT queries (including WITH/CTEs) are allowed."),
     Sample.fresh 0)
  /\ validate_sql_query Sample.db "SELECT * FROM x; DROP TABLE x" (Sample.fresh 0)
     = (inr (false, "Multiple statements not allowed."), Sample.fresh 0)
  /\ validate_sql_query Sample.db "select 1; select 2" (Sample.fresh 0)
     = (inr (false, "Multiple statements not allowed."), Sample.fresh 0)
  /\ validate_sql_query Sample.db "SELECT 1" (Sample.fresh 0)
     = (inr (true, EmptyString),
        after_sql "EXPLAIN SELECT 1" [] (Sample.fresh 0))
  /\ validate_sql_query Sample.db "WITH t AS (SELECT 1) SELECT * FROM t"
                        (Sample.fresh 0)
     = (inr (true, EmptyString),
        after_sql "EXPLAIN WITH t AS (SELECT 1) SELECT * FROM t" []
                  (Sample.fresh 0)).
Proof.
  destruct (validator_examples Sample.db (Sample.fresh 0) eq_refl eq_refl)
    as (H1 & H2 & H3 & H4 & H5 & _).
  repeat split; assumption.
Defined.

(** ** The action parser *)

(** The brace counter of the parser captures the whole of a text whose
    braces close at its end. *)
Lemma brace_span_closes (s : string) :
  forall depth : nat,
    closes_at_end depth s = true -> brace_span s (Z.of_nat depth) = Some s.
Proof.
  induction s as [|c s IH]; intros depth H; simpl in *; [discriminate|].
  destruct (Ascii.eqb c "{").
  - replace (Z.of_nat depth + 1) with (Z.of_nat (S depth)) by lia.
    now rewrite (IH _ H).
  - destruct (Ascii.eqb c "}").
    + destruct depth as [|[|d]]; [discriminate| |].
      * apply String.eqb_eq in H. subst s. reflexivity.
      * replace (Z.of_nat (S (S d)) - 1 =? 0) with false
          by (symmetry; apply Z.eqb_neq; lia).
        replace (Z.of_nat (S (S d)) - 1) with (Z.of_nat (S d)) by lia.
        now rewrite (IH _ H).
    + destruct depth as [|d]; [discriminate|].
      now rewrite (IH _ H).
Qed.

(** An object whose text holds no brace but the two around it is
    brace-delimited. *)
Lemma brace_free_delimited (body : string) :
  brace_free body = true ->
  brace_delimited (String "{" (body ++ "}")) = true.
Proof.
  unfold brace_delimited. cbn [closes_at_end Ascii.eqb Bool.eqb].
  induction body as [|c body IH]; [reflexivity|].
  cbn [brace_free append closes_at_end]. intros H.
  apply andb_true_iff in H as [H Hrest].
  apply andb_true_iff in H as [Ho Hc].
  apply negb_true_iff in Ho, Hc. rewrite Ho, Hc. now apply IH.
Qed.

Lemma brace_delimited_opens (j : string) :
  brace_delimited j = true -> exists body, j = String "{" body.
Proof.
  unfold brace_delimited. destruct j as [|c body]; simpl; [discriminate|].
  destruct (Ascii.eqb_spec c "{") as [->|_].
  - intros _. now exists body.
  - destruct (Ascii.eqb c "}"); discriminate.
Qed.

(** [\w+] stops where the word characters stop. *)
Lemma span_word_stop (name j : string) :
  forallb is_word (list_ascii_of_string name) = true ->
  span is_word (name ++ String "{" j) = (name, String "{" j).
Proof.
  induction name as [|c name IH]; simpl; intros H; [reflexivity|].
  apply andb_true_iff in H as [Hc H]. now rewrite Hc, (IH H).
Qed.

Lemma space_not_word (c : ascii) : is_word c = true -> is_space c = false.
Proof.
  destruct c as [[] [] [] [] [] [] [] []]; vm_compute; congruence.
Qed.

Lemma letter_is_word (c : ascii) :
  is_letter c || Ascii.eqb c "_" = true -> is_word c = true.
Proof.
  destruct c as [[] [] [] [] [] [] [] []]; vm_compute; congruence.
Qed.

Lemma search_action_plain (name j : string) :
  tool_name_shape name = true ->
  search_action ("ACTION: " ++ name ++ String "{" j)
  = Some (name, String "{" j).
Proof.
  intros H. destruct name as [|c name]; [discriminate|].
  simpl in H. apply andb_true_iff in H as [Hc Hrest].
  apply letter_is_word in Hc.
  cbn [append search_action]. unfold match_action_here.
  cbn [startswith Ascii.eqb Bool.eqb andb drop lstrip_by].
  change (is_space " ") with true. cbv iota.
  rewrite (space_not_word _ Hc).
  change (String c (name ++ String "{" j))
    with (String c name ++ String "{" j).
  rewrite span_word_stop; [reflexivity|].
  simpl. now rewrite Hc, Hrest.
Qed.

(** C3 as amended. For a tool name of the shape [[A-Za-z_]\w*] and a JSON
    text whose braces, all of them counted, close at its last character,
    parsing [ACTION: name{json}] gives the name and what [json.loads] makes
    of the text; so the pair (name, mapping) is recovered whenever the
    decoder inverts the encoder on that mapping.  The text may hold nested
    objects and line feeds. *)
Theorem parser_round_trip (json_loads : string -> Loaded)
    (name j : string) (params : Params) :
  tool_name_shape name = true ->
  brace_delimited j = true ->
  json_loads j = Decoded params ->
  extract_action_from_response json_loads ("ACTION: " ++ name ++ j)
  = inr (Some (name, params)).
Proof.
  intros Hname Hj Hloads.
  destruct (brace_delimited_opens _ Hj) as [body ->].
  unfold extract_action_from_response.
  rewrite (search_action_plain _ _ Hname).
  cbn [from_brace Ascii.eqb Bool.eqb].
  rewrite (brace_span_closes _ 0%nat Hj : brace_span _ 0 = _).
  now rewrite Hloads.
Qed.

Lemma parser_round_trip_witness :
  extract_action_from_response Sample.loads
    ("ACTION: " ++ "query_database"
       ++ Sample.dumps [ ("query", JStr ("SELECT 1" ++ LF ++ "FROM t"));
                         ("opts", JObj [("a", JInt 1)]) ])
  = inr (Some ("query_database",
               [ ("query", JStr ("SELECT 1" ++ LF ++ "FROM t"));
                 ("opts", JObj [("a", JInt 1)]) ])).
Proof. apply parser_round_trip; reflexivity. Defined.

(** A mapping with the one value [{], a string: its JSON text decodes back
    to it, but the brace counter takes the brace inside the literal for an
    opening one, never returns to zero, and the parser reports no action. *)
Lemma parser_round_trip_counterexample :
  tool_name_shape "t" = true
  /\ Sample.dumps [("q", JStr "{")]
     = "{" ++ Sample.quoted "q" ++ ": " ++ Sample.quoted "{" ++ "}"
  /\ Sample.loads (Sample.dumps [("q", JStr "{")])
     = Decoded [("q", JStr "{")]
  /\ extract_action_from_response Sample.loads
       ("ACTION: " ++ "t" ++ Sample.dumps [("q", JStr "{")])
     = inr None.
Proof. repeat split; reflexivity. Qed.

(** ** The resilient LLM client *)

Section Client.

Variable provider : nat -> list Message -> Reply.
Variable config : AgentConfig.
Variable messages : list Message.

Ltac run_monad :=
  unfold bind, ret, raise, time_now, set_last_api_call, get_last_api_call,
    provider_call, time_sleep, after_call, after_sleep; cbn [clock
    last_api_call llm_calls events].

(** A call that returns ends the loop. *)
Lemma retry_loop_success (attempt : Z) (rest : list Z) (w : World)
    (text : string) :
  outcome (provider (llm_calls w) messages) = inr text ->
  retry_loop provider config messages (attempt :: rest) w
  = (inr text, after_call attempt (provider (llm_calls w) messages) w).
Proof.
  intros H. cbn [retry_loop]. run_monad. now rewrite H.
Qed.

(** What the [except] clause does with a failure of message [msg]. *)
Lemma retry_loop_failure (attempt : Z) (rest : list Z) (w : World)
    (msg : string) :
  outcome (provider (llm_calls w) messages) = inl msg ->
  retry_loop provider config messages (attempt :: rest) w
  = let w1 := after_call attempt (provider (llm_calls w) messages) w in
    let retry :=
      if backoff_delay config attempt <? 0
      then (inl (ValueError "sleep length must be non-negative"), w1)
      else retry_loop provider config messages rest
             (after_sleep (backoff_delay config attempt) w1) in
    if signals_quota msg then
      (inl (RuntimeError (daily_limit_message msg)), w1)
    else if signals_throttling msg then
      if attempt <? max_retries config then retry
      else (inl (RuntimeError (persistent_rate_limit_message config)), w1)
    else if attempt <? max_retries config then retry
    else (inl (ProviderError msg), w1).
Proof.
  intros H. cbn [retry_loop]. run_monad. rewrite H.
  unfold signals_quota, signals_throttling. cbv zeta.
  destruct (any_keyword_in fatal_keywords (lower msg)); [reflexivity|].
  destruct (any_keyword_in rate_limit_keywords (lower msg));
    destruct (attempt <? max_retries config); try reflexivity;
    destruct (backoff_delay config attempt <? 0); reflexivity.
Qed.

Lemma call_llm_unfold (w : World) :
  _call_llm provider config messages w
  = retry_loop provider config messages (range_from_1 (max_retries config))
      (rate_limit_wait config w).
Proof.
  unfold _call_llm, rate_limit_wait. run_monad.
  destruct (clock w - last_api_call w <? min_delay_between_calls config)
    eqn:E; cbv zeta; rewrite ?E.
  - replace (min_delay_between_calls config - (clock w - last_api_call w) <? 0)
      with false by (symmetry; apply Z.ltb_ge; apply Z.ltb_lt in E; lia).
    destruct w; reflexivity.
  - destruct w; reflexivity.
Qed.

Lemma backoff_delay_nonneg (attempt : Z) :
  0 <= retry_delay config -> 0 <= backoff_delay config attempt.
Proof.
  intros H. unfold backoff_delay.
  destruct (Z.le_gt_cases 0 (attempt - 1)) as [Hp|Hn].
  - apply Z.mul_nonneg_nonneg; [assumption | now apply Z.pow_nonneg].
  - rewrite Z.pow_neg_r by lia. lia.
Qed.

(** The loop under failures that are never of the daily-limit kind, from
    attempt [a] up to the last one: one call per attempt, the sleeps of the
    schedule between them, and an exception at the end, which is the
    persistent-rate-limit error when the last failure signals throttling
    and the failure itself otherwise. *)
Lemma retry_loop_sustained :
  (forall n, exists msg,
      outcome (provider n messages) = inl msg /\ signals_quota msg = false) ->
  0 <= retry_delay config ->
  forall (len a : nat) (w : World),
    Z.of_nat (a + len) = max_retries config ->
    exists ts msg w',
      retry_loop provider config messages (map Z.of_nat (seq a (S len))) w
      = (inl (if signals_throttling msg
              then RuntimeError (persistent_rate_limit_message config)
              else ProviderError msg), w')
      /\ outcome (provider (llm_calls w + len) messages) = inl msg
      /\ List.length ts = S len
      /\ events w'
         = (events w
              ++ backoff_schedule (retry_delay config) (Z.of_nat a) ts)%list
      /\ llm_calls w' = (llm_calls w + S len)%nat.
Proof.
  intros Hfail Hdelay. induction len as [|len IH]; intros a w Hlast.
  - destruct (Hfail (llm_calls w)) as (msg & Hmsg & Hq).
    exists [clock w], msg,
      (after_call (Z.of_nat a) (provider (llm_calls w) messages) w).
    cbn [seq map]. rewrite (retry_loop_failure _ _ _ _ Hmsg). cbv zeta.
    rewrite Hq.
    replace (Z.of_nat a <? max_retries config) with false
      by (symmetry; apply Z.ltb_ge; lia).
    rewrite Nat.add_0_r.
    repeat split; try reflexivity; try assumption.
    + now destruct (signals_throttling msg).
    + cbn. lia.
  - destruct (Hfail (llm_calls w)) as (msg & Hmsg & Hq).
    set (w1 := after_call (Z.of_nat a) (provider (llm_calls w) messages) w).
    set (w2 := after_sleep (backoff_delay config (Z.of_nat a)) w1).
    destruct (IH (S a) w2) as (ts & msg' & w' & Hrun & Hout & Hlen & Hev & Hn).
    { rewrite <- Hlast. f_equal. lia. }
    exists (clock w :: ts), msg', w'.
    change (map Z.of_nat (seq a (S (S len))))
      with (Z.of_nat a :: map Z.of_nat (seq (S a) (S len))).
    rewrite (retry_loop_failure _ _ _ _ Hmsg). cbv zeta. rewrite Hq.
    replace (Z.of_nat a <? max_retries config) with true
      by (symmetry; apply Z.ltb_lt; lia).
    replace (backoff_delay config (Z.of_nat a) <? 0) with false
      by (symmetry; apply Z.ltb_ge; now apply backoff_delay_nonneg).
    fold w1. fold w2.
    assert (Hrun' :
      (if signals_throttling msg
       then retry_loop provider config messages
              (map Z.of_nat (seq (S a) (S len))) w2
       else retry_loop provider config messages
              (map Z.of_nat (seq (S a) (S len))) w2)
      = retry_loop provider config messages
          (map Z.of_nat (seq (S a) (S len))) w2)
      by now destruct (signals_throttling msg).
    rewrite Hrun', Hrun.
    repeat split.
    + rewrite <- Hout. unfold w2, w1. cbn [llm_calls after_sleep after_call].
      do 2 f_equal. lia.
    + cbn. now rewrite Hlen.
    + rewrite Hev. unfold w2, w1. cbn [events after_sleep after_call].
      rewrite <- !app_assoc. cbn [app]. f_equal.
      destruct ts as [|t ts]; [discriminate|].
      cbn [backoff_schedule]. unfold backoff_delay.
      replace (Z.of_nat a + 1 - 2) with (Z.of_nat a - 1) by lia.
      replace (Z.of_nat a + 1) with (Z.of_nat (S a)) by lia.
      reflexivity.
    + rewrite Hn. unfold w2, w1. cbn [llm_calls after_sleep after_call]. lia.
Qed.

(** Positions in the schedule: calls at the even places, and before the
    call of attempt [k0 + i], for [i > 0], the sleep of that attempt. *)
Lemma backoff_schedule_nth (rd : Z) (ts : list Z) :
  forall (k0 : Z) (i : nat),
    (i < List.length ts)%nat ->
    (exists t, nth_error (backoff_schedule rd k0 ts) (2 * i)
               = Some (EvLlmCall t (k0 + Z.of_nat i)))
    /\ ((0 < i)%nat ->
        nth_error (backoff_schedule rd k0 ts) (2 * i - 1)
        = Some (EvSleep (rd * 2 ^ (k0 + Z.of_nat i - 2)))).
Proof.
  induction ts as [|t ts IH]; intros k0 i Hi; [cbn in Hi; lia|].
  destruct i as [|i].
  - split; [| lia]. exists t. cbn. now rewrite Z.add_0_r.
  - cbn in Hi. destruct ts as [|t' ts]; [cbn in Hi; lia|].
    destruct (IH (k0 + 1) i) as [[u Hu] Hs]; [cbn in *; lia|].
    replace (2 * S i)%nat with (S (S (2 * i))) by lia.
    replace (2 * S i - 1)%nat with (S (2 * i)) by lia.
    cbn [backoff_schedule nth_error].
    replace (k0 + Z.of_nat (S i)) with (k0 + 1 + Z.of_nat i) by lia.
    split; [now exists u|]. intros _.
    destruct i as [|i].
    + cbn. do 4 f_equal. lia.
    + specialize (Hs ltac:(lia)).
      replace (2 * S i)%nat with (S (2 * S i - 1)) by lia.
      exact Hs.
Qed.

Lemma backoff_schedule_length (rd : Z) (ts : list Z) :
  forall k0 : Z,
    List.length (backoff_schedule rd k0 ts) = (2 * List.length ts - 1)%nat.
Proof.
  induction ts as [|t ts IH]; intros k0; [reflexivity|].
  destruct ts as [|t' ts]; [reflexivity|].
  change (backoff_schedule rd k0 (t :: t' :: ts))
    with (EvLlmCall t k0 :: EvSleep (rd * 2 ^ (k0 + 1 - 2))
            :: backoff_schedule rd (k0 + 1) (t' :: ts)).
  cbn [List.length] in *. rewrite (IH (k0 + 1)). lia.
Qed.

Lemma rate_limit_wait_llm_calls (w : World) :
  llm_calls (rate_limit_wait config w) = llm_calls w.
Proof. unfold rate_limit_wait. now destruct (_ <? _). Qed.

Lemma range_from_1_succ (n : Z) :
  1 <= n -> range_from_1 n = map Z.of_nat (seq 1 (S (Z.to_nat n - 1))).
Proof.
  intros H. unfold range_from_1. do 2 f_equal. lia.
Qed.

End Client.

(** C5. When every call of the provider fails and no failure is of the
    daily-limit kind, [_call_llm] makes exactly [max_retries] calls and then
    raises: after the rate-limit wait the trace is call 1, sleep, call 2,
    sleep, ..., call [max_retries], and the sleep before attempt [k], for
    [1 < k <= max_retries], lasts [retry_delay * 2 ^ (k - 2)]. *)
Theorem backoff_schedule_followed (provider : nat -> list Message -> Reply)
    (config : AgentConfig) (messages : list Message) (w : World) :
  (forall n, exists msg,
      outcome (provider n messages) = inl msg /\ signals_quota msg = false) ->
  0 <= retry_delay config ->
  1 <= max_retries config ->
  exists (trace : list Event) (e : exn) (w' : World),
    _call_llm provider config messages w = (inl e, w')
    /\ events w' = (events (rate_limit_wait config w) ++ trace)%list
    /\ Z.of_nat (llm_calls w') = Z.of_nat (llm_calls w) + max_retries config
    /\ Z.of_nat (List.length trace) = 2 * max_retries config - 1
    /\ forall k : nat,
         1 <= Z.of_nat k <= max_retries config ->
         (exists t, nth_error trace (2 * (k - 1))
                    = Some (EvLlmCall t (Z.of_nat k)))
         /\ (1 < Z.of_nat k ->
             nth_error trace (2 * (k - 1) - 1)
             = Some (EvSleep (retry_delay config * 2 ^ (Z.of_nat k - 2)))).
Proof.
  intros Hfail Hdelay Hmax.
  rewrite call_llm_unfold, (range_from_1_succ _ Hmax).
  destruct (retry_loop_sustained provider config messages Hfail Hdelay
              (Z.to_nat (max_retries config) - 1) 1
              (rate_limit_wait config w))
    as (ts & msg & w' & Hrun & _ & Hlen & Hev & Hn); [lia|].
  exists (backoff_schedule (retry_delay config) 1 ts),
    (if signals_throttling msg
     then RuntimeError (persistent_rate_limit_message config)
     else ProviderError msg), w'.
  repeat split; try assumption.
  - rewrite Hn, rate_limit_wait_llm_calls. lia.
  - rewrite backoff_schedule_length, Hlen. lia.
  - destruct (backoff_schedule_nth (retry_delay config) ts 1 (k - 1))
      as [[t Ht] _]; [lia|].
    exists t. rewrite Ht. do 2 f_equal. lia.
  - intros Hk.
    destruct (backoff_schedule_nth (retry_delay config) ts 1 (k - 1))
      as [_ Hs]; [lia|].
    rewrite Hs by lia. do 4 f_equal. lia.
Qed.

Lemma backoff_schedule_followed_witness :
  exists (trace : list Event) (e : exn) (w' : World),
    _call_llm (Sample.scripted [] (inl "boom")) Sample.config []
              (Sample.fresh 1000)
    = (inl e, w')
    /\ events w'
       = (events (rate_limit_wait Sample.config (Sample.fresh 1000))
            ++ trace)%list
    /\ Z.of_nat (llm_calls w')
       = Z.of_nat (llm_calls (Sample.fresh 1000)) + max_retries Sample.config
    /\ Z.of_nat (List.length trace) = 2 * max_retries Sample.config - 1
    /\ forall k : nat,
         1 <= Z.of_nat k <= max_retries Sample.config ->
         (exists t, nth_error trace (2 * (k - 1))
                    = Some (EvLlmCall t (Z.of_nat k)))
         /\ (1 < Z.of_nat k ->
             nth_error trace (2 * (k - 1) - 1)
             = Some (EvSleep
                       (retry_delay Sample.config * 2 ^ (Z.of_nat k - 2)))).
Proof.
  apply backoff_schedule_followed.
  - intros n. exists "boom". destruct n; split; reflexivity.
  - cbn. lia.
  - cbn. lia.
Defined.

(** *** Classification of failures *)

Section Classification.

Variable provider : nat -> list Message -> Reply.
Variable config : AgentConfig.
Variable messages : list Message.

(** The trace only grows. *)
Lemma retry_loop_events_grow (attempts : list Z) :
  forall w : World,
    (List.length (events w)
     <= List.length
          (events (snd (retry_loop provider config messages attempts w))))%nat.
Proof.
  induction attempts as [|attempt rest IH]; intros w; [cbn; lia|].
  assert (Hcall : forall r,
    (List.length (events w)
     < List.length (events (after_call attempt r w)))%nat).
  { intros r. cbn. rewrite length_app. cbn. lia. }
  destruct (outcome (provider (llm_calls w) messages)) as [msg|text] eqn:E.
  - rewrite (retry_loop_failure _ _ _ _ _ _ _ E). cbv zeta.
    specialize (Hcall (provider (llm_calls w) messages)).
    specialize (IH (after_sleep (backoff_delay config attempt)
                      (after_call attempt (provider (llm_calls w) messages) w))).
    assert (Hsleep :
      (List.length
         (events (after_call attempt (provider (llm_calls w) messages) w))
       < List.length
           (events (after_sleep (backoff_delay config attempt)
              (after_call attempt (provider (llm_calls w) messages) w))))%nat).
    { unfold after_sleep. cbn [events]. rewrite (length_app _ [_]). cbn. lia. }
    repeat match goal with
           | |- context [if ?b then _ else _] => destruct b
           end; cbn [snd]; lia.
  - rewrite (retry_loop_success _ _ _ _ _ _ _ E). cbn [snd].
    specialize (Hcall (provider (llm_calls w) messages)). lia.
Qed.

Lemma daily_limit_message_head (s : string) :
  exists tail, daily_limit_message s = String "010" tail.
Proof. eexists. reflexivity. Qed.

Lemma persistent_message_head :
  exists tail, persistent_rate_limit_message config = String "R" tail.
Proof. eexists. reflexivity. Qed.

(** The two errors of the client are told apart by their messages. *)
Lemma fatal_not_persistent (s : string) :
  daily_limit_message s <> persistent_rate_limit_message config.
Proof.
  destruct (daily_limit_message_head s) as [t1 ->].
  destruct persistent_message_head as [t2 ->].
  discriminate.
Qed.

(** A first attempt that fails with a quota signal ends the call. *)
Lemma call_llm_fatal_at_once (w : World) (msg : string) :
  1 <= max_retries config ->
  outcome (provider (llm_calls w) messages) = inl msg ->
  signals_quota msg = true ->
  _call_llm provider config messages w
  = (inl (RuntimeError (daily_limit_message msg)),
     after_call 1 (provider (llm_calls w) messages)
                (rate_limit_wait config w)).
Proof.
  intros Hmax Hmsg Hq.
  rewrite call_llm_unfold, (range_from_1_succ _ Hmax). cbn [seq map].
  rewrite <- (rate_limit_wait_llm_calls config w) in Hmsg.
  rewrite (retry_loop_failure _ _ _ _ _ _ _ Hmsg). cbv zeta.
  rewrite Hq, rate_limit_wait_llm_calls. reflexivity.
Qed.

End Classification.

(** C1 as amended. Take a provider call that fails with message [msg], and
    say that the message signals quota exhaustion when it contains, in any
    letter case, one of the daily-limit keywords of the client, and
    throttling when it contains one of its requests-per-minute keywords.
    - If [msg] signals quota exhaustion, the client raises the fatal-quota
      error at once: no sleep and no further call, whatever the attempt
      number and whether or not [msg] signals throttling as well.
    - If it does not, the client never ends that way.
    - If it does not and signals throttling, the client sleeps
      [retry_delay * 2 ^ (attempt - 1)] and goes on to the next attempt while
      [attempt < max_retries], and raises the persistent-rate-limit error,
      a different one, once [attempt] has reached [max_retries].
    - So when every call fails with throttling and never with a quota
      signal, [_call_llm] makes exactly [max_retries] calls and raises the
      persistent-rate-limit error. *)
Theorem failure_classification (provider : nat -> list Message -> Reply)
    (config : AgentConfig) (messages : list Message) (attempt : Z)
    (rest : list Z) (w : World) (msg : string) :
  outcome (provider (llm_calls w) messages) = inl msg ->
  let w1 := after_call attempt (provider (llm_calls w) messages) w in
  let result := retry_loop provider config messages (attempt :: rest) w in
  (signals_quota msg = true ->
   result = (inl (RuntimeError (daily_limit_message msg)), w1))
  /\ (signals_quota msg = false ->
      forall s, result <> (inl (RuntimeError (daily_limit_message s)), w1))
  /\ (signals_quota msg = false -> signals_throttling msg = true ->
      attempt < max_retries config -> 0 <= retry_delay config ->
      result = retry_loop provider config messages rest
                 (after_sleep (retry_delay config * 2 ^ (attempt - 1)) w1))
  /\ (signals_quota msg = false -> signals_throttling msg = true ->
      max_retries config <= attempt ->
      result = (inl (RuntimeError (persistent_rate_limit_message config)), w1))
  /\ ((forall n, exists m,
          outcome (provider n messages) = inl m
          /\ signals_quota m = false /\ signals_throttling m = true) ->
      0 <= retry_delay config -> 1 <= max_retries config ->
      exists w',
        _call_llm provider config messages w
        = (inl (RuntimeError (persistent_rate_limit_message config)), w')
        /\ Z.of_nat (llm_calls w')
           = Z.of_nat (llm_calls w) + max_retries config).
Proof.
  intros Hmsg w1 result.
  assert (Hstep := retry_loop_failure provider config messages attempt rest
                     w msg Hmsg).
  cbv zeta in Hstep. fold w1 in Hstep. fold result in Hstep.
  split; [| split; [| split; [| split]]].
  - intros Hq. now rewrite Hstep, Hq.
  - intros Hq s Heq. rewrite Hstep, Hq in Heq.
    assert (Hgrow := retry_loop_events_grow provider config messages rest
                       (after_sleep (backoff_delay config attempt) w1)).
    assert (Hretry :
      (if backoff_delay config attempt <? 0
       then (inl (ValueError "sleep length must be non-negative"), w1)
       else retry_loop provider config messages rest
              (after_sleep (backoff_delay config attempt) w1))
      <> (inl (RuntimeError (daily_limit_message s)), w1)).
    { destruct (backoff_delay config attempt <? 0); [discriminate|].
      intros H. rewrite H in Hgrow. cbn [snd events after_sleep] in Hgrow.
      rewrite length_app in Hgrow. cbn in Hgrow. lia. }
    destruct (signals_throttling msg), (attempt <? max_retries config);
      [ now apply Hretry | | now apply Hretry | discriminate ].
    apply (fatal_not_persistent config s). congruence.
  - intros Hq Ht Hlt Hdelay. rewrite Hstep, Hq, Ht.
    replace (attempt <? max_retries config) with true
      by (symmetry; now apply Z.ltb_lt).
    replace (backoff_delay config attempt <? 0) with false
      by (symmetry; apply Z.ltb_ge; now apply backoff_delay_nonneg).
    reflexivity.
  - intros Hq Ht Hge. rewrite Hstep, Hq, Ht.
    replace (attempt <? max_retries config) with false
      by (symmetry; now apply Z.ltb_ge).
    reflexivity.
  - intros Hall Hdelay Hmax.
    rewrite call_llm_unfold, (range_from_1_succ _ Hmax).
    destruct (retry_loop_sustained provider config messages) with
      (len := (Z.to_nat (max_retries config) - 1)%nat) (a := 1%nat)
      (w := rate_limit_wait config w)
      as (ts & m & w' & Hrun & Hout & _ & _ & Hn);
      [intros n; destruct (Hall n) as (m & Hm & Hq & _); now exists m
      | assumption | lia |].
    destruct (Hall (llm_calls (rate_limit_wait config w)
                    + (Z.to_nat (max_retries config) - 1))%nat)
      as (m' & Hm' & _ & Ht').
    rewrite Hm' in Hout. injection Hout as <-.
    rewrite Ht' in Hrun.
    exists w'. split; [exact Hrun|].
    rewrite Hn, rate_limit_wait_llm_calls. lia.
Qed.

Lemma failure_classification_witness :
  retry_loop (Sample.scripted [] (inl "Daily limit reached")) Sample.config
             [] [1; 2; 3] (Sample.fresh 1000)
  = (inl (RuntimeError (daily_limit_message "Daily limit reached")),
     mkWorld 1000 1000 1 [EvLlmCall 1000 1])
  /\ retry_loop (Sample.scripted [] (inl "Too Many Requests")) Sample.config
               [] [1; 2; 3] (Sample.fresh 1000)
     = retry_loop (Sample.scripted [] (inl "Too Many Requests")) Sample.config
                  [] [2; 3]
                  (mkWorld 1005 1000 1 [EvLlmCall 1000 1; EvSleep 5])
  /\ retry_loop (Sample.scripted [] (inl "Too Many Requests")) Sample.config
               [] [3] (Sample.fresh 1000)
     = (inl (RuntimeError "Rate limit persists after 3 retries"),
        mkWorld 1000 1000 1 [EvLlmCall 1000 3])
  /\ exists w',
       _call_llm (Sample.scripted [] (inl "Too Many Requests")) Sample.config
                 [] (Sample.fresh 1000)
       = (inl (RuntimeError "Rate limit persists after 3 retries"), w')
       /\ Z.of_nat (llm_calls w') = 0 + 3.
Proof.
  pose proof (failure_classification
                (Sample.scripted [] (inl "Daily limit reached")) Sample.config
                [] 1 [2; 3] (Sample.fresh 1000) "Daily limit reached" eq_refl)
    as Hq.
  pose proof (failure_classification
                (Sample.scripted [] (inl "Too Many Requests")) Sample.config
                [] 1 [2; 3] (Sample.fresh 1000) "Too Many Requests" eq_refl)
    as Ht.
  pose proof (failure_classification
                (Sample.scripted [] (inl "Too Many Requests")) Sample.config
                [] 3 [] (Sample.fresh 1000) "Too Many Requests" eq_refl)
    as Hl.
  cbv zeta in Hq, Ht, Hl.
  destruct Hq as (Hq & _).
  destruct Ht as (_ & _ & Ht & _ & Hall).
  destruct Hl as (_ & _ & _ & Hl & _).
  split; [| split; [| split]].
  - apply Hq. reflexivity.
  - apply Ht; [reflexivity | reflexivity | reflexivity | cbn; lia].
  - apply Hl; [reflexivity | reflexivity | cbn; lia].
  - apply Hall; [| cbn; lia | cbn; lia].
    intros n. exists "Too Many Requests". destruct n; repeat split.
Defined.

(** A failure that signals requests-per-minute throttling, with three
    attempts allowed; but its message also holds
    [rate_limit_exceeded], which the client lists with the daily-limit
    keywords and tests first: one call, no sleep, no retry, and the
    fatal-quota error. *)
Lemma throttling_counterexample :
  signals_throttling Sample.throttled_message = true
  /\ max_retries Sample.config = 3
  /\ _call_llm (Sample.scripted [] (inl Sample.throttled_message))
               Sample.config [] (Sample.fresh 1000)
     = (inl (RuntimeError (daily_limit_message Sample.throttled_message)),
        mkWorld 1000 1000 1 [EvLlmCall 1000 1]).
Proof.
  split; [reflexivity | split; [reflexivity|]].
  rewrite (call_llm_fatal_at_once _ _ _ _ Sample.throttled_message);
    [reflexivity | cbn; lia | reflexivity | reflexivity].
Qed.

(** *** Spacing of the calls *)

Lemma llm_call_stamps_app (a b : list Event) :
  llm_call_stamps (a ++ b) = (llm_call_stamps a ++ llm_call_stamps b)%list.
Proof.
  induction a as [|e a IH]; [reflexivity|].
  destruct e; cbn; now rewrite IH.
Qed.

Lemma last_time_snoc (calls : list (Z * Z)) (t a : Z) :
  forall prev, last_time prev (calls ++ [(t, a)]) = t.
Proof.
  induction calls as [|[t0 a0] calls IH]; intros prev; [reflexivity|].
  cbn. apply IH.
Qed.

Lemma spaced_after_snoc (cfg : AgentConfig) (calls : list (Z * Z)) (t a : Z) :
  forall prev,
    spaced_after cfg prev (calls ++ [(t, a)])
    <-> spaced_after cfg prev calls
        /\ last_time prev calls + required_gap cfg a <= t.
Proof.
  induction calls as [|[t0 a0] calls IH]; intros prev; cbn.
  - tauto.
  - rewrite IH. tauto.
Qed.

Lemma spaced_snoc (cfg : AgentConfig) (calls : list (Z * Z)) (t a : Z) :
  spaced cfg calls ->
  (calls <> [] -> last_time 0 calls + required_gap cfg a <= t) ->
  spaced cfg (calls ++ [(t, a)]).
Proof.
  destruct calls as [|[t0 a0] calls]; cbn; [trivial|].
  intros Hs Hlast. apply spaced_after_snoc. split; [assumption|].
  apply Hlast. discriminate.
Qed.

(** In a spaced list every call keeps its gap from the one before it. *)
Lemma spaced_after_adjacent (cfg : AgentConfig) (calls : list (Z * Z)) :
  forall prev aprev (i : nat) t a t' a',
    spaced_after cfg prev calls ->
    nth_error ((prev, aprev) :: calls) i = Some (t, a) ->
    nth_error calls i = Some (t', a') ->
    t + required_gap cfg a' <= t'.
Proof.
  induction calls as [|[t0 a0] calls IH];
    intros prev aprev i t a t' a' Hs Hi Hi'.
  - destruct i; discriminate.
  - destruct Hs as [Hgap Hs]. destruct i as [|i].
    + cbn in Hi, Hi'. injection Hi as <- _. injection Hi' as <- <-. exact Hgap.
    + cbn [nth_error] in Hi, Hi'.
      exact (IH t0 a0 i t a t' a' Hs Hi Hi').
Qed.

Lemma spaced_adjacent (cfg : AgentConfig) (calls : list (Z * Z))
    (i : nat) (t a t' a' : Z) :
  spaced cfg calls ->
  nth_error calls i = Some (t, a) ->
  nth_error calls (S i) = Some (t', a') ->
  t + required_gap cfg a' <= t'.
Proof.
  destruct calls as [|[t0 a0] calls]; [destruct i; discriminate|].
  cbn [spaced]. intros Hs Hi Hi'.
  exact (spaced_after_adjacent cfg calls t0 a0 i t a t' a' Hs Hi Hi').
Qed.

Section Spacing.

Variable provider : nat -> list Message -> Reply.
Variable config : AgentConfig.

Hypothesis latency_nonneg : forall n messages, 0 <= latency (provider n messages).

Lemma consistent_after_call (attempt : Z) (r : Reply) (w : World) :
  consistent config w ->
  (llm_call_stamps (events w) <> [] ->
   last_api_call w + required_gap config attempt <= clock w) ->
  consistent config (after_call attempt r w).
Proof.
  intros [Hs Hlast] Hgap. unfold consistent, after_call. cbn [events last_api_call].
  rewrite llm_call_stamps_app. cbn [llm_call_stamps]. split.
  - apply spaced_snoc; [assumption|]. intros Hne.
    rewrite (Hlast Hne). now apply Hgap.
  - intros _. apply last_time_snoc.
Qed.

Lemma consistent_after_sleep (d : Z) (w : World) :
  consistent config w -> consistent config (after_sleep d w).
Proof.
  unfold consistent, after_sleep. cbn [events last_api_call].
  rewrite llm_call_stamps_app. cbn [llm_call_stamps]. now rewrite app_nil_r.
Qed.

(** The loop keeps the client consistent when it starts late enough after
    the last call for its first attempt. *)
Lemma retry_loop_consistent (messages : list Message) :
  forall (len a : nat) (w : World),
    (1 <= a)%nat ->
    consistent config w ->
    (llm_call_stamps (events w) <> [] ->
     last_api_call w + required_gap config (Z.of_nat a) <= clock w) ->
    consistent config
      (snd (retry_loop provider config messages (map Z.of_nat (seq a len)) w)).
Proof.
  induction len as [|len IH]; intros a w Ha Hc Hgap; [exact Hc|].
  cbn [seq map].
  set (r := provider (llm_calls w) messages).
  assert (Hc1 := consistent_after_call (Z.of_nat a) r w Hc Hgap).
  assert (Hretry :
    consistent config
      (snd (if backoff_delay config (Z.of_nat a) <? 0
            then (inl (ValueError "sleep length must be non-negative"),
                  after_call (Z.of_nat a) r w)
            else retry_loop provider config messages
                   (map Z.of_nat (seq (S a) len))
                   (after_sleep (backoff_delay config (Z.of_nat a))
                      (after_call (Z.of_nat a) r w))))).
  { destruct (backoff_delay config (Z.of_nat a) <? 0) eqn:E; [exact Hc1|].
    apply Z.ltb_ge in E.
    apply IH; [lia | now apply consistent_after_sleep |].
    intros _. cbn [after_sleep after_call last_api_call clock].
    unfold required_gap.
    replace (Z.of_nat (S a) =? 1) with false
      by (symmetry; apply Z.eqb_neq; lia).
    unfold backoff_delay in *.
    replace (Z.of_nat (S a) - 2) with (Z.of_nat a - 1) by lia.
    specialize (latency_nonneg (llm_calls w) messages). fold r in latency_nonneg.
    lia. }
  destruct (outcome r) as [msg|text] eqn:E.
  - rewrite (retry_loop_failure provider config messages _ _ _ _ E).
    cbv zeta. fold r.
    repeat match goal with
           | |- context [if signals_quota ?m then _ else _] =>
               destruct (signals_quota m)
           | |- context [if signals_throttling ?m then _ else _] =>
               destruct (signals_throttling m)
           | |- context [if Z.of_nat a <? ?n then _ else _] =>
               destruct (Z.of_nat a <? n)
           end; try exact Hc1; exact Hretry.
  - rewrite (retry_loop_success provider config messages _ _ _ _ E).
    exact Hc1.
Qed.

Lemma call_llm_consistent (messages : list Message) (w : World) :
  consistent config w ->
  consistent config (snd (_call_llm provider config messages w)).
Proof.
  intros Hc. rewrite call_llm_unfold. unfold range_from_1.
  apply retry_loop_consistent; [lia | |].
  - unfold rate_limit_wait.
    destruct (_ <? _); [now apply consistent_after_sleep | assumption].
  - intros _. unfold rate_limit_wait, required_gap.
    change (Z.of_nat 1 =? 1) with true. cbv iota.
    destruct (clock w - last_api_call w <? min_delay_between_calls config) eqn:E.
    + cbn [after_sleep last_api_call clock]. lia.
    + apply Z.ltb_ge in E. lia.
Qed.

Lemma consecutive_calls_consistent (conversations : list (list Message)) :
  forall w : World,
    consistent config w ->
    consistent config
      (snd (consecutive_calls provider config conversations w)).
Proof.
  induction conversations as [|messages rest IH]; intros w Hc; [exact Hc|].
  cbn [consecutive_calls]. unfold bind, try_except, ret.
  assert (H1 := call_llm_consistent messages w Hc).
  destruct (_call_llm provider config messages w) as [[e|text] w1];
    cbn [snd] in H1;
    specialize (IH w1 H1);
    destruct (consecutive_calls provider config rest w1) as [[e'|rs] w2];
    exact IH.
Qed.

End Spacing.

(** X26. The gaps the client does keep.  Through any number of
    consecutive calls of [_call_llm] on one client, successful or not,
    every provider call that is a first attempt starts at least
    [min_delay_between_calls] after the provider call before it, and every
    retry attempt [k] starts at least the backoff delay
    [retry_delay * 2 ^ (k - 2)] after the attempt before it. *)
Theorem calls_keep_their_gaps (provider : nat -> list Message -> Reply)
    (config : AgentConfig) (conversations : list (list Message)) (w : World)
    (i : nat) (t attempt t' attempt' : Z) :
  (forall n messages, 0 <= latency (provider n messages)) ->
  events w = [] ->
  let calls :=
    llm_call_stamps
      (events (snd (consecutive_calls provider config conversations w))) in
  nth_error calls i = Some (t, attempt) ->
  nth_error calls (S i) = Some (t', attempt') ->
  (attempt' = 1 -> t + min_delay_between_calls config <= t')
  /\ (attempt' <> 1 -> t + retry_delay config * 2 ^ (attempt' - 2) <= t').
Proof.
  intros Hlat Hfresh calls Hi Hi'.
  assert (Hc : consistent config
                 (snd (consecutive_calls provider config conversations w))).
  { apply consecutive_calls_consistent; [assumption|].
    unfold consistent. rewrite Hfresh. cbn. split; [trivial | congruence]. }
  destruct Hc as [Hs _].
  assert (Hgap := spaced_adjacent config _ i t attempt t' attempt' Hs Hi Hi').
  unfold required_gap in Hgap. split; intros Ha.
  - subst attempt'. exact Hgap.
  - apply Z.eqb_neq in Ha. now rewrite Ha in Hgap.
Qed.

Lemma calls_keep_their_gaps_witness :
  llm_call_stamps
    (events (snd (consecutive_calls
                    (Sample.scripted [inl "boom"; inr "ok"] (inr "again"))
                    Sample.config [[]; []] (Sample.fresh 1000))))
  = [(1000, 1); (1005, 2); (1025, 1)]
  /\ 1005 + min_delay_between_calls Sample.config <= 1025
  /\ 1000 + retry_delay Sample.config * 2 ^ (2 - 2) <= 1005.
Proof.
  assert (Hlat : forall n messages,
             0 <= latency (Sample.scripted [inl "boom"; inr "ok"]
                                           (inr "again") n messages))
    by (intros n messages; cbn; lia).
  split; [reflexivity | split].
  - destruct (calls_keep_their_gaps
                (Sample.scripted [inl "boom"; inr "ok"] (inr "again"))
                Sample.config [[]; []] (Sample.fresh 1000)
                1 1005 2 1025 1 Hlat eq_refl eq_refl eq_refl) as [H _].
    apply H. reflexivity.
  - destruct (calls_keep_their_gaps
                (Sample.scripted [inl "boom"; inr "ok"] (inr "again"))
                Sample.config [[]; []] (Sample.fresh 1000)
                0 1000 1 1005 2 Hlat eq_refl eq_refl eq_refl) as [_ H].
    apply H. discriminate.
Defined.

(** C2, on the failing input. The client has the default configuration,
    with 20 ticks between calls and a retry delay of 5; the first attempt
    fails at once with an unclassified error and the second succeeds.  The
    wait for [min_delay_between_calls] is made once, before the retry loop,
    and the time of the last call, though stamped at every attempt, is not
    read again inside it: the two provider calls are 5 ticks apart. *)
Theorem retry_comes_before_the_minimum_delay :
  llm_call_stamps
    (events (snd (_call_llm (Sample.scripted [inl "boom"] (inr "ok"))
                            Sample.config [] (Sample.fresh 1000))))
  = [(1000, 1); (1005, 2)]
  /\ last_api_call
       (snd (_call_llm (Sample.scripted [inl "boom"] (inr "ok"))
                       Sample.config [] (Sample.fresh 1000)))
     = 1005
  /\ min_delay_between_calls Sample.config = 20
  /\ ~ apart (min_delay_between_calls Sample.config) [(1000, 1); (1005, 2)].
Proof.
  split; [reflexivity | split; [reflexivity | split; [reflexivity|]]].
  cbn. lia.
Qed.

(** ** The text of the final answer *)

Lemma span_snd_lstrip (f : ascii -> bool) (s : string) :
  snd (span f s) = lstrip_by f s.
Proof.
  induction s as [|c s IH]; [reflexivity|]. cbn.
  destruct (f c); [| reflexivity].
  destruct (span f s). exact IH.
Qed.

Lemma lstrip_span_fst (f : ascii -> bool) (s : string) :
  lstrip_by f (fst (span f s)) = EmptyString.
Proof.
  induction s as [|c s IH]; [reflexivity|]. cbn.
  destruct (f c) eqn:E; [| reflexivity].
  destruct (span f s). cbn. now rewrite E.
Qed.

Lemma lstrip_head (f : ascii -> bool) (s : string) (c : ascii) (r : string) :
  lstrip_by f s = String c r -> f c = false.
Proof.
  induction s as [|d s IH]; cbn; [discriminate|].
  destruct (f d) eqn:E; [exact IH|].
  intros H. injection H as <- _. exact E.
Qed.

Lemma lstrip_drop (f : ascii -> bool) (n : nat) :
  forall s, lstrip_by f s = EmptyString ->
            lstrip_by f (drop n s) = EmptyString.
Proof.
  induction n as [|n IH]; intros s H; [exact H|].
  destruct s as [|c s]; [reflexivity|]. cbn in *.
  destruct (f c); [now apply IH | discriminate].
Qed.

(** Group 1 of the pattern, stripped, is what follows the marker, stripped. *)
Lemma final_answer_group_strip (post : string) :
  match final_answer_group post with
  | Some g => strip g
  | None => EmptyString
  end = strip post.
Proof.
  unfold final_answer_group, strip.
  assert (Hs := span_snd_lstrip is_space post).
  assert (Hf := lstrip_span_fst is_space post).
  destruct (span is_space post) as [spaces tail]. cbn [fst snd] in Hs, Hf.
  rewrite <- Hs. destruct tail as [|c rest].
  - destruct spaces as [|d spaces]; [reflexivity|].
    now rewrite (lstrip_drop _ _ _ Hf).
  - symmetry in Hs. apply lstrip_head in Hs.
    destruct spaces; cbn [lstrip_by]; now rewrite Hs.
Qed.

(** The pattern fails after the marker only at the end of the text. *)
Lemma final_answer_group_none (post : string) :
  final_answer_group post = None -> post = EmptyString.
Proof.
  destruct post as [|x post]; [reflexivity|].
  unfold final_answer_group. cbn [span].
  destruct (is_space x); [| discriminate].
  destruct (span is_space post) as [spaces [|c tail]]; discriminate.
Qed.

Lemma startswith_nocase_short (p : string) :
  forall s, (String.length s < String.length p)%nat ->
            startswith_nocase s p = false.
Proof.
  induction p as [|a p IH]; intros s H; [cbn in H; lia|].
  destruct s as [|b s]; [reflexivity|]. cbn in *.
  rewrite IH by lia. apply andb_false_r.
Qed.

Lemma search_final_answer_short (s : string) :
  (String.length s < 13)%nat -> search_final_answer s = None.
Proof.
  induction s as [|c s IH]; intros H.
  - reflexivity.
  - cbn [search_final_answer].
    rewrite (startswith_nocase_short "FINAL ANSWER:") by exact H.
    apply IH. cbn in H. lia.
Qed.

(** A literal matches up to letter case exactly the texts that begin with
    a variant of it. *)
Lemma startswith_nocase_iff (p s : string) :
  startswith_nocase s p = true
  <-> exists m t, s = m ++ t /\ upper m = upper p.
Proof.
  revert s; induction p as [|a p IH]; intros s; cbn.
  - split; [intros _; now exists EmptyString, s | reflexivity].
  - destruct s as [|b s].
    + split; [discriminate|]. intros (m & t & H & Hm).
      destruct m; discriminate.
    + rewrite andb_true_iff, Ascii.eqb_eq, IH. split.
      * intros (Hc & m & t & -> & Hm). exists (String b m), t.
        split; [reflexivity|].
        change (upper (String b m)) with (String (upper_char b) (upper m)).
        change (upper (String a p)) with (String (upper_char a) (upper p)).
        now rewrite Hm, Hc.
      * intros (m & t & H & Hm). destruct m as [|c m]; [discriminate|].
        change (upper (String c m)) with (String (upper_char c) (upper m)) in Hm.
        change (upper (String a p)) with (String (upper_char a) (upper p)) in Hm.
        cbn in H. injection H as -> ->. injection Hm as Hc Hm.
        split; [now symmetry|]. now exists m, t.
Qed.

Lemma upper_length (s : string) : String.length (upper s) = String.length s.
Proof. induction s as [|c s IH]; cbn; [reflexivity | now rewrite IH]. Qed.

Lemma drop_app_length (m t : string) : drop (String.length m) (m ++ t) = t.
Proof. induction m as [|c m IH]; [reflexivity | exact IH]. Qed.

Lemma app_length_str (a b : string) :
  String.length (a ++ b) = (String.length a + String.length b)%nat.
Proof. induction a as [|c a IH]; cbn; [reflexivity | now rewrite IH]. Qed.

(** The answer is what follows the first occurrence of the marker, in any
    letter case, stripped of surrounding blanks. *)
Lemma extract_final_answer_after_marker (pre m post : string) :
  upper m = "FINAL ANSWER:" ->
  (forall a b c, pre ++ m ++ post = a ++ b ++ c ->
                 upper b = "FINAL ANSWER:" ->
                 (String.length pre <= String.length a)%nat) ->
  extract_final_answer (pre ++ m ++ post) = strip post.
Proof.
  intros Hm Hfirst. unfold extract_final_answer.
  assert (Hlen : String.length m = 13%nat)
    by (rewrite <- upper_length, Hm; reflexivity).
  assert (Hhere : search_final_answer (m ++ post)
                  = final_answer_group post).
  { destruct m as [|c m]; [discriminate|].
    cbn [append search_final_answer].
    change (String c (m ++ post)) with (String c m ++ post).
    replace (startswith_nocase (String c m ++ post) "FINAL ANSWER:")
      with true
      by (symmetry; apply startswith_nocase_iff; now exists (String c m), post).
    rewrite <- Hlen at 1. rewrite drop_app_length.
    destruct (final_answer_group post) as [g|] eqn:Eg; [reflexivity|].
    apply final_answer_group_none in Eg. subst post.
    apply search_final_answer_short.
    rewrite app_length_str. cbn in Hlen |- *. lia. }
  assert (Hskip : forall pre',
    (forall a b, pre' = a ++ b -> b <> EmptyString ->
                 startswith_nocase (b ++ m ++ post) "FINAL ANSWER:" = false) ->
    search_final_answer (pre' ++ m ++ post) = search_final_answer (m ++ post)).
  { induction pre' as [|c pre' IH]; intros Hno; [reflexivity|].
    cbn [append search_final_answer].
    change (String c (pre' ++ m ++ post)) with (String c pre' ++ m ++ post).
    rewrite (Hno EmptyString (String c pre') eq_refl) by discriminate.
    apply IH. intros a b -> Hb. apply (Hno (String c a) b); [reflexivity | exact Hb]. }
  rewrite Hskip, Hhere; [apply final_answer_group_strip|].
  intros a b -> Hb.
  destruct (startswith_nocase (b ++ m ++ post) "FINAL ANSWER:") eqn:E;
    [| reflexivity].
  apply startswith_nocase_iff in E as (m' & t & Ht & Hm').
  specialize (Hfirst a m' t). rewrite app_assoc_str, Ht in Hfirst.
  specialize (Hfirst eq_refl Hm').
  rewrite app_length_str in Hfirst.
  destruct b; [congruence | cbn in Hfirst; lia].
Qed.

(** ** The controller *)

Lemma sql_statements_app (a b : list Event) :
  sql_statements (a ++ b) = (sql_statements a ++ sql_statements b)%list.
Proof.
  induction a as [|e a IH]; [reflexivity|].
  destruct e; cbn; now rewrite IH.
Qed.

Section Controller.

Variable json_loads : string -> Loaded.
Variable db : Database.
Variable provider : nat -> list Message -> Reply.
Variable config : AgentConfig.

Lemma after_call_no_sql (attempt : Z) (r : Reply) (w : World) :
  sql_statements (events (after_call attempt r w)) = sql_statements (events w).
Proof.
  unfold after_call. cbn [events]. rewrite sql_statements_app. cbn.
  apply app_nil_r.
Qed.

Lemma after_sleep_no_sql (d : Z) (w : World) :
  sql_statements (events (after_sleep d w)) = sql_statements (events w).
Proof.
  unfold after_sleep. cbn [events]. rewrite sql_statements_app. cbn.
  apply app_nil_r.
Qed.

(** The client sends nothing to the database. *)
Lemma retry_loop_no_sql (messages : list Message) (attempts : list Z) :
  forall w : World,
    sql_statements
      (events (snd (retry_loop provider config messages attempts w)))
    = sql_statements (events w).
Proof.
  induction attempts as [|attempt rest IH]; intros w; [reflexivity|].
  destruct (outcome (provider (llm_calls w) messages)) as [msg|text] eqn:E.
  - rewrite (retry_loop_failure _ _ _ _ _ _ _ E). cbv zeta.
    specialize (IH (after_sleep (backoff_delay config attempt)
                      (after_call attempt (provider (llm_calls w) messages) w))).
    rewrite after_sleep_no_sql, after_call_no_sql in IH.
    repeat match goal with
           | |- context [if ?b then _ else _] => destruct b
           end; cbn [snd]; try apply after_call_no_sql; exact IH.
  - rewrite (retry_loop_success _ _ _ _ _ _ _ E). apply after_call_no_sql.
Qed.

Lemma call_llm_no_sql (messages : list Message) (w : World) :
  sql_statements (events (snd (_call_llm provider config messages w)))
  = sql_statements (events w).
Proof.
  rewrite call_llm_unfold, retry_loop_no_sql. unfold rate_limit_wait.
  destruct (_ <? _); [apply after_sleep_no_sql | reflexivity].
Qed.

(** Whatever the tool does, step 4 ends with an observation. *)
Lemma execute_tool_returns (action_name : string) (params : Params)
    (w : World) :
  exists observation w',
    execute_tool db action_name params w = (inr observation, w').
Proof.
  unfold execute_tool. destruct (tools_dict_get db action_name) as [tool|].
  - unfold try_except, ret.
    destruct (tool_func tool params w) as [[e|text] w'];
      do 2 eexists; reflexivity.
  - do 2 eexists. reflexivity.
Qed.

Lemma tools_dict_get_unknown (action_name : string) :
  action_name <> "list_tables" ->
  action_name <> "describe_table" ->
  action_name <> "query_database" ->
  tools_dict_get db action_name = None.
Proof.
  intros H1 H2 H3. unfold tools_dict_get. cbn [create_tool_registry find tool_name].
  rewrite (String.eqb_sym "list_tables"), (String.eqb_sym "describe_table"),
    (String.eqb_sym "query_database").
  apply String.eqb_neq in H1, H2, H3. now rewrite H1, H2, H3.
Qed.

(** An iteration whose response holds no final answer but an action. *)
Lemma react_iteration_action (history : list Message) (w w1 : World)
    (text action_name : string) (params : Params) :
  _call_llm provider config history w = (inr text, w1) ->
  has_final_answer text = false ->
  extract_action_from_response json_loads text
  = inr (Some (action_name, params)) ->
  react_iteration json_loads db provider config history w
  = match execute_tool db action_name params w1 with
    | (inr observation, w2) =>
        (inr (Continue
                (history
                   ++ [ mkMessage assistant text;
                        mkMessage user ("OBSERVATION: " ++ observation) ])%list
                text), w2)
    | (inl e, w2) => (inl e, w2)
    end.
Proof.
  intros Hcall Hfinal Hparse.
  unfold react_iteration, bind, try_except, ret. rewrite Hcall, Hfinal, Hparse.
  unfold lift, ret.
  destruct (execute_tool db action_name params w1) as [[e|observation] w2];
    [reflexivity|].
  now rewrite <- app_assoc.
Qed.

(** A failed LLM call ends [run] with a text that says so. *)
Lemma run_loop_llm_failure (iteration : Z) (rest : list Z)
    (history : list Message) (response : option string) (w w1 : World)
    (e : exn) :
  _call_llm provider config history w = (inl e, w1) ->
  run_loop json_loads db provider config (iteration :: rest) history
           response w
  = (inr ("Error: LLM call failed: " ++ exn_str e), w1).
Proof.
  intros Hcall. cbn [run_loop].
  unfold bind, react_iteration, bind, try_except, ret. now rewrite Hcall.
Qed.

(** An iteration whose response holds the final-answer marker. *)
Lemma react_iteration_final (history : list Message) (w w1 : World)
    (text : string) :
  _call_llm provider config history w = (inr text, w1) ->
  has_final_answer text = true ->
  react_iteration json_loads db provider config history w
  = (inr (Return (extract_final_answer text)), w1).
Proof.
  intros Hcall Hfinal.
  unfold react_iteration, bind, try_except, ret. now rewrite Hcall, Hfinal.
Qed.

End Controller.

(** C10. When the response of an iteration holds the final-answer marker,
    in any letter case, the run ends there with the answer extracted from
    that response: whatever [json.loads] would make of an ACTION block in
    the same response, whatever iterations remain, and without a statement
    being sent to the database.  The answer is the text after the first
    occurrence of the marker, stripped. *)
Theorem final_answer_takes_precedence
    (json_loads : string -> Loaded) (db : Database)
    (provider : nat -> list Message -> Reply) (config : AgentConfig)
    (iteration : Z) (rest : list Z) (history : list Message)
    (response : option string) (w w1 : World) (text : string) :
  _call_llm provider config history w = (inr text, w1) ->
  occurs_nocase "FINAL ANSWER:" text ->
  run_loop json_loads db provider config (iteration :: rest) history
           response w
  = (inr (extract_final_answer text), w1)
  /\ sql_statements (events w1) = sql_statements (events w)
  /\ (forall pre m post,
        text = pre ++ m ++ post ->
        upper m = "FINAL ANSWER:" ->
        (forall a b c, text = a ++ b ++ c -> upper b = "FINAL ANSWER:" ->
                       (String.length pre <= String.length a)%nat) ->
        extract_final_answer text = strip post).
Proof.
  intros Hcall Hmarker.
  assert (Hfinal : has_final_answer text = true)
    by (apply (str_in_upper_iff "FINAL ANSWER:" text eq_refl), Hmarker).
  split; [| split].
  - cbn [run_loop]. unfold bind.
    now rewrite (react_iteration_final json_loads db _ _ _ _ _ _ Hcall Hfinal).
  - rewrite <- (call_llm_no_sql provider config history w). now rewrite Hcall.
  - intros pre m post -> Hm Hfirst.
    now apply extract_final_answer_after_marker.
Qed.

(** C9. When the response of an iteration holds an action and no final
    answer, step 4 yields an observation, a text, and the loop goes on to
    the next iteration with that observation appended to the history:
    nothing is raised.  For a name outside the registry the observation
    says so and lists the tools; when the tool raises, the observation
    carries the message of the exception; and [describe_table] on a
    well-formed name that the database does not know observes that the
    table does not exist. *)
Theorem dispatch_never_raises
    (json_loads : string -> Loaded) (db : Database)
    (provider : nat -> list Message -> Reply) (config : AgentConfig)
    (history : list Message) (w w1 : World) (text action_name : string)
    (params : Params) :
  _call_llm provider config history w = (inr text, w1) ->
  has_final_answer text = false ->
  extract_action_from_response json_loads text
  = inr (Some (action_name, params)) ->
  exists (observation : string) (w2 : World),
    execute_tool db action_name params w1 = (inr observation, w2)
    /\ (forall iteration rest response,
          run_loop json_loads db provider config (iteration :: rest) history
                   response w
          = run_loop json_loads db provider config rest
              (history
                 ++ [ mkMessage assistant text;
                      mkMessage user ("OBSERVATION: " ++ observation) ])%list
              (Some text) w2)
    /\ (action_name <> "list_tables" ->
        action_name <> "describe_table" ->
        action_name <> "query_database" ->
        observation
        = "Error: Unknown tool: " ++ action_name
            ++ ". Available tools: list_tables, describe_table, query_database"
        /\ w2 = w1)
    /\ (forall tool e w',
          tools_dict_get db action_name = Some tool ->
          tool_func tool params w1 = (inl e, w') ->
          observation = "Tool execution error: " ++ exn_str e /\ w2 = w')
    /\ (forall table,
          action_name = "describe_table" ->
          params = [("table_name", JStr table)] ->
          identifier_match table = true ->
          db_table_lookup db table = inr false ->
          observation = "Error: Table '" ++ table ++ "' does not exist.").
Proof.
  intros Hcall Hfinal Hparse.
  destruct (execute_tool_returns db action_name params w1)
    as (observation & w2 & Hexec).
  exists observation, w2. split; [exact Hexec|].
  split; [| split; [| split]].
  - intros iteration rest response. cbn [run_loop]. unfold bind.
    rewrite (react_iteration_action json_loads db _ _ _ _ _ _ _ _
               Hcall Hfinal Hparse), Hexec.
    reflexivity.
  - intros H1 H2 H3. unfold execute_tool in Hexec.
    rewrite (tools_dict_get_unknown db _ H1 H2 H3) in Hexec.
    unfold ret in Hexec. injection Hexec as <- <-. split; reflexivity.
  - intros tool e w' Htool Hraise. unfold execute_tool in Hexec.
    rewrite Htool in Hexec. unfold try_except in Hexec.
    rewrite Hraise in Hexec. unfold ret in Hexec.
    injection Hexec as <- <-. split; reflexivity.
  - intros table -> -> Hid Hlookup. unfold execute_tool in Hexec.
    cbn [tools_dict_get create_tool_registry find tool_name String.eqb
         Ascii.eqb Bool.eqb tool_func] in Hexec.
    unfold try_except, bind, lift, bind_one_argument in Hexec.
    cbn [find fst negb String.eqb Ascii.eqb Bool.eqb ret] in Hexec.
    unfold describe_table, try_except_class, try_except, sanitize_identifier,
      db_execute, bind, emit, ret, raise in Hexec.
    rewrite Hid, Hlookup in Hexec. cbn [negb] in Hexec.
    now injection Hexec as <- _.
Qed.

Lemma final_answer_takes_precedence_witness :
  extract_action_from_response Sample.loads
    ("FINAL ANSWER: 8" ++ LF ++ "ACTION: list_tables{}")
  = inr (Some ("list_tables", []))
  /\ run_loop Sample.loads Sample.db
       (Sample.scripted [] (inr ("FINAL ANSWER: 8" ++ LF
                                   ++ "ACTION: list_tables{}")))
       Sample.config [1; 2] [] None (Sample.fresh 1000)
     = (inr ("8" ++ LF ++ "ACTION: list_tables{}"),
        mkWorld 1000 1000 1 [EvLlmCall 1000 1])
  /\ sql_statements [EvLlmCall 1000 1] = [].
Proof.
  split; [reflexivity|].
  refine ((fun H => conj (proj1 H) (proj1 (proj2 H))) _).
  apply (final_answer_takes_precedence Sample.loads Sample.db
           (Sample.scripted [] (inr ("FINAL ANSWER: 8" ++ LF
                                       ++ "ACTION: list_tables{}")))
           Sample.config 1 [2] [] None (Sample.fresh 1000)
           (mkWorld 1000 1000 1 [EvLlmCall 1000 1])
           ("FINAL ANSWER: 8" ++ LF ++ "ACTION: list_tables{}")).
  - reflexivity.
  - exists EmptyString, "FINAL ANSWER:", (" 8" ++ LF ++ "ACTION: list_tables{}").
    split; reflexivity.
Defined.

Lemma dispatch_never_raises_witness :
  exists w2,
    run_loop Sample.loads Sample.db
      (Sample.scripted []
         (inr ("ACTION: describe_table"
                 ++ Sample.dumps [("table_name", JStr "ghosts")])))
      Sample.config [1; 2] [] None (Sample.fresh 1000)
    = run_loop Sample.loads Sample.db
        (Sample.scripted []
           (inr ("ACTION: describe_table"
                   ++ Sample.dumps [("table_name", JStr "ghosts")])))
        Sample.config [2]
        [ mkMessage assistant
            ("ACTION: describe_table"
               ++ Sample.dumps [("table_name", JStr "ghosts")]);
          mkMessage user
            "OBSERVATION: Error: Table 'ghosts' does not exist." ]
        (Some ("ACTION: describe_table"
                 ++ Sample.dumps [("table_name", JStr "ghosts")]))
        w2.
Proof.
  destruct (dispatch_never_raises Sample.loads Sample.db
              (Sample.scripted []
                 (inr ("ACTION: describe_table"
                         ++ Sample.dumps [("table_name", JStr "ghosts")])))
              Sample.config [] (Sample.fresh 1000)
              (mkWorld 1000 1000 1 [EvLlmCall 1000 1])
              ("ACTION: describe_table"
                 ++ Sample.dumps [("table_name", JStr "ghosts")])
              "describe_table" [("table_name", JStr "ghosts")]
              eq_refl eq_refl eq_refl)
    as (observation & w2 & _ & Hloop & _ & _ & Htable).
  exists w2. rewrite (Hloop 1 [2] None).
  rewrite (Htable "ghosts" eq_refl eq_refl eq_refl eq_refl).
  reflexivity.
Defined.

(** ** The logging run of api.py *)

Section ApiRun.

Variable json_loads : string -> Loaded.
Variable db : Database.
Variable provider : nat -> list Message -> Reply.
Variable config : AgentConfig.

Lemma api_execute_tool_returns (action_name : string) (params : Params)
    (w : World) :
  exists observation w',
    api_execute_tool db action_name params w = (inr observation, w').
Proof.
  unfold api_execute_tool, try_except, ret.
  match goal with
  | |- context [match ?body w with _ => _ end] =>
      destruct (body w) as [[e|text] w']
  end; do 2 eexists; reflexivity.
Qed.

(** An iteration of the logging loop raises nothing, and when it returns a
    result its status is [success]. *)
Lemma api_iteration_returns (iteration : Z) (history : list Message)
    (steps : list StepData) (w : World) :
  exists s w',
    api_iteration json_loads db provider config iteration history steps w
    = (inr s, w')
    /\ match s with
       | ApiReturn result => status result = "success"
       | _ => True
       end.
Proof.
  unfold api_iteration, bind, try_except, ret, time_now.
  destruct (_call_llm provider config history w) as [[e|text] w1].
  - do 2 eexists. split; [reflexivity | exact I].
  - destruct (has_final_answer text).
    + do 2 eexists. split; reflexivity.
    + destruct (extract_action_from_response json_loads text)
        as [e|[[action_name params]|]].
      * do 2 eexists. split; [reflexivity | exact I].
      * destruct (api_execute_tool_returns action_name params w1)
          as (observation & w2 & ->).
        do 2 eexists. split; [reflexivity | exact I].
      * do 2 eexists. split; [reflexivity | exact I].
Qed.

(** The logging run never raises, and the status of its result is never
    anything but [success] or [max_iterations]. *)
Lemma api_loop_status (iterations : list Z) :
  forall (history : list Message) (steps : list StepData) (w : World),
    exists result w',
      api_loop json_loads db provider config iterations history steps w
      = (inr result, w')
      /\ (status result = "success" \/ status result = "max_iterations").
Proof.
  induction iterations as [|iteration rest IH]; intros history steps w.
  - do 2 eexists. split; [reflexivity | now right].
  - cbn [api_loop]. unfold bind.
    destruct (api_iteration_returns iteration history steps w)
      as (s & w1 & -> & Hs).
    destruct s as [result | history' steps' | steps'].
    + do 2 eexists. split; [reflexivity | now left].
    + apply IH.
    + do 2 eexists. split; [reflexivity | now right].
Qed.

(** A failed LLM call leaves the loop by [break], and what follows the
    loop reports the iteration budget as exhausted. *)
Lemma api_loop_llm_failure (iteration : Z) (rest : list Z)
    (history : list Message) (steps : list StepData) (w w1 : World)
    (e : exn) :
  _call_llm provider config history w = (inl e, w1) ->
  api_loop json_loads db provider config (iteration :: rest) history steps w
  = (inr (mkQueryResult
            "Max iterations reached without final answer"
            (steps ++ [mkStepData iteration (Some ERROR) (clock w)
                         EmptyString EmptyString [] (exn_str e) EmptyString
                         None])%list
            (max_iterations config) "max_iterations"),
     w1).
Proof.
  intros Hcall. cbn [api_loop].
  unfold bind, api_iteration, bind, try_except, ret, time_now.
  now rewrite Hcall.
Qed.

End ApiRun.

(** C6, on the failing input. The default configuration allows 10
    iterations; the first provider call fails with a daily-limit message.
    The run stops after that one call, with one step of type [ERROR], and
    yet its result says [max_iterations], with the text and the iteration
    count of an exhausted budget. *)
Theorem llm_failure_reported_as_max_iterations :
  run_query_with_full_logging Sample.loads Sample.db
    (Sample.scripted [] (inl "daily limit reached")) Sample.config
    "You are a SQL Database Agent" "How many employees are in the database?"
    (Sample.fresh 1000)
  = (inr (mkQueryResult
            "Max iterations reached without final answer"
            [ mkStepData 1 (Some ERROR) 1000 EmptyString EmptyString []
                (daily_limit_message "daily limit reached") EmptyString None ]
            10 "max_iterations"),
     mkWorld 1000 1000 1 [EvLlmCall 1000 1]).
Proof.
  unfold run_query_with_full_logging.
  change (range_from_1 (max_iterations Sample.config))
    with (1 :: map Z.of_nat (seq 2 9)).
  rewrite (api_loop_llm_failure Sample.loads Sample.db _ Sample.config
             1 _ _ [] _ (mkWorld 1000 1000 1 [EvLlmCall 1000 1])
             (RuntimeError (daily_limit_message "daily limit reached"))).
  - reflexivity.
  - rewrite (call_llm_fatal_at_once _ _ _ _ "daily limit reached");
      [reflexivity | cbn; lia | reflexivity | reflexivity].
Qed.

(** * Further properties of the code *)

(** ** The action parser in context *)

Lemma span_split (f : ascii -> bool) (s : string) :
  s = fst (span f s) ++ snd (span f s)
  /\ forallb f (list_ascii_of_string (fst (span f s))) = true.
Proof.
  induction s as [|c s [IH1 IH2]]; [split; reflexivity|].
  cbn [span]. destruct (f c) eqn:E; [| split; reflexivity].
  destruct (span f s) as [a b]. cbn [fst snd] in *. split.
  - cbn. now rewrite <- IH1.
  - cbn. now rewrite E, IH2.
Qed.

Lemma lstrip_split (f : ascii -> bool) (s : string) :
  exists ws, s = ws ++ lstrip_by f s /\ lstrip_by f ws = EmptyString.
Proof.
  induction s as [|c s (ws & IH1 & IH2)].
  - now exists EmptyString.
  - cbn [lstrip_by]. destruct (f c) eqn:E.
    + exists (String c ws). split; [cbn; now rewrite <- IH1|].
      cbn. now rewrite E.
    + now exists EmptyString.
Qed.

Lemma lstrip_spaces_then (f : ascii -> bool) (ws s : string) :
  lstrip_by f ws = EmptyString -> lstrip_by f (ws ++ s) = lstrip_by f s.
Proof.
  induction ws as [|c ws IH]; [reflexivity|]. cbn.
  destruct (f c); [exact IH | discriminate].
Qed.

Lemma str_in_false_suffix (p a b : string) :
  str_in p (a ++ b) = false -> str_in p b = false.
Proof.
  induction a as [|c a IH]; [trivial|].
  cbn [append str_in]. intros H. apply orb_false_iff in H as [_ H]. now apply IH.
Qed.

Lemma str_in_false_here (p s : string) :
  str_in p s = false -> startswith s p = false.
Proof.
  destruct s; cbn [str_in]; intros H; now apply orb_false_iff in H as [H _].
Qed.

(** Without the marker the search finds nothing. *)
Lemma search_action_absent (s : string) :
  str_in "ACTION:" s = false -> search_action s = None.
Proof.
  induction s as [|c s IH]; intros H.
  - reflexivity.
  - cbn [search_action]. unfold match_action_here.
    rewrite (str_in_false_here _ _ H).
    apply IH. cbn [str_in] in H. now apply orb_false_iff in H as [_ H].
Qed.

(** What the search returns lies in the text, after the marker. *)
Lemma search_action_found (s name after : string) :
  search_action s = Some (name, after) ->
  exists pre ws,
    s = pre ++ "ACTION:" ++ ws ++ name ++ after
    /\ lstrip_by is_space ws = EmptyString
    /\ name <> EmptyString
    /\ forallb is_word (list_ascii_of_string name) = true.
Proof.
  induction s as [|c s IH]; intros H.
  - discriminate.
  - cbn [search_action] in H.
    destruct (match_action_here (String c s)) as [[n a]|] eqn:E.
    + injection H as -> ->. unfold match_action_here in E.
      destruct (startswith (String c s) "ACTION:") eqn:Es; [| discriminate].
      apply startswith_iff in Es as [t Ht]. rewrite Ht in E |- *.
      change (drop 7 ("ACTION:" ++ t)) with t in E.
      destruct (lstrip_split is_space t) as (ws & Hws & Hsp).
      destruct (span_split is_word (lstrip_by is_space t)) as [Hs Hw].
      destruct (span is_word (lstrip_by is_space t)) as [[|x n'] a'];
        [discriminate|].
      injection E as <- <-. cbn [fst snd] in Hs, Hw.
      exists EmptyString, ws. repeat split; try assumption; try discriminate.
      cbn [append]. do 7 f_equal. rewrite Hws at 1. now rewrite Hs.
    + destruct (IH H) as (pre & ws & -> & Hrest).
      now exists (String c pre), ws.
Qed.

Lemma from_brace_absent (s : string) :
  str_in "{" s = false -> from_brace s = None.
Proof.
  induction s as [|c s IH]; [reflexivity|].
  cbn [str_in startswith from_brace]. intros H.
  apply orb_false_iff in H as [Hc H].
  rewrite andb_true_r, eqb_sym in Hc. rewrite Hc. now apply IH.
Qed.

Lemma from_brace_suffix (s t : string) :
  from_brace s = Some t -> exists pre, s = pre ++ t.
Proof.
  induction s as [|c s IH]; [discriminate|]. cbn [from_brace].
  destruct (Ascii.eqb c "{").
  - intros H. injection H as <-. now exists EmptyString.
  - intros H. destruct (IH H) as [pre ->]. now exists (String c pre).
Qed.

Lemma brace_span_no_close (s : string) :
  forall k, str_in "}" s = false -> brace_span s k = None.
Proof.
  induction s as [|c s IH]; intros k H; [reflexivity|].
  cbn [str_in startswith] in H. apply orb_false_iff in H as [Hc H].
  rewrite andb_true_r, eqb_sym in Hc. cbn [brace_span]. rewrite Hc.
  destruct (Ascii.eqb c "{"); now rewrite IH.
Qed.

(** X1. The parser reports no action when the response lacks the
    [ACTION:] marker, or has no opening brace, or has no closing brace. *)
Theorem no_action_without_marker_or_braces
    (json_loads : string -> Loaded) (response : string) :
  str_in "ACTION:" response = false
  \/ str_in "{" response = false
  \/ str_in "}" response = false ->
  extract_action_from_response json_loads response = inr None.
Proof.
  intros H. unfold extract_action_from_response.
  destruct (search_action response) as [[name after]|] eqn:Es;
    [| reflexivity].
  destruct H as [H | [H | H]].
  - now rewrite (search_action_absent _ H) in Es.
  - destruct (search_action_found _ _ _ Es) as (pre & ws & -> & _).
    rewrite <- !app_assoc_str in H. apply str_in_false_suffix in H.
    now rewrite from_brace_absent.
  - destruct (search_action_found _ _ _ Es) as (pre & ws & -> & _).
    rewrite <- !app_assoc_str in H. apply str_in_false_suffix in H.
    destruct (from_brace after) as [t|] eqn:Eb; [| reflexivity].
    destruct (from_brace_suffix _ _ Eb) as [p ->].
    apply str_in_false_suffix in H. now rewrite brace_span_no_close.
Qed.

Lemma no_action_without_marker_or_braces_witness :
  extract_action_from_response Sample.loads "THOUGHT: Let me list tables"
  = inr None
  /\ extract_action_from_response Sample.loads "ACTION: list_tables"
     = inr None
  /\ extract_action_from_response Sample.loads "ACTION: list_tables{"
     = inr None.
Proof.
  split; [| split]; apply no_action_without_marker_or_braces.
  - left. reflexivity.
  - right. left. reflexivity.
  - right. right. reflexivity.
Defined.

(** The brace counter stops at the matching brace, whatever follows. *)
Lemma brace_span_closes_before (s trailing : string) :
  forall depth : nat,
    closes_at_end depth s = true ->
    brace_span (s ++ trailing) (Z.of_nat depth) = Some s.
Proof.
  induction s as [|c s IH]; intros depth H; cbn [closes_at_end] in H;
    [discriminate|].
  cbn [append brace_span].
  destruct (Ascii.eqb c "{").
  - replace (Z.of_nat depth + 1) with (Z.of_nat (S depth)) by lia.
    now rewrite (IH _ H).
  - destruct (Ascii.eqb c "}").
    + destruct depth as [|[|d]]; [discriminate| |].
      * apply String.eqb_eq in H. subst s. reflexivity.
      * replace (Z.of_nat (S (S d)) - 1 =? 0) with false
          by (symmetry; apply Z.eqb_neq; lia).
        replace (Z.of_nat (S (S d)) - 1) with (Z.of_nat (S d)) by lia.
        now rewrite (IH _ H).
    + destruct depth as [|d]; [discriminate|].
      now rewrite (IH _ H).
Qed.

Lemma startswith_within (u v p : string) :
  (String.length p <= String.length u)%nat ->
  startswith (u ++ v) p = startswith u p.
Proof.
  revert u; induction p as [|a p IH]; intros u H; [reflexivity|].
  destruct u as [|b u]; [cbn in H; lia|].
  cbn [append startswith]. rewrite IH; [reflexivity | cbn in H; lia].
Qed.

(** Text in which no occurrence of the marker starts is passed over. *)
Lemma search_action_skip (pre rest : string) :
  str_in "ACTION:" (pre ++ "ACTION") = false ->
  search_action (pre ++ "ACTION:" ++ rest)
  = search_action ("ACTION:" ++ rest).
Proof.
  induction pre as [|c pre IH]; intros H; [reflexivity|].
  cbn [append search_action]. unfold match_action_here at 1.
  assert (Heq : String c pre ++ "ACTION:" ++ rest
                = (String c pre ++ "ACTION") ++ (":" ++ rest))
    by (rewrite app_assoc_str; reflexivity).
  assert (Hhere : startswith (String c pre ++ "ACTION:" ++ rest) "ACTION:"
                  = false).
  { rewrite Heq, startswith_within; [now apply str_in_false_here|].
    rewrite app_length_str. cbn. lia. }
  cbn [append] in Hhere. rewrite Hhere.
  apply IH. cbn [append str_in] in H. now apply orb_false_iff in H as [_ H].
Qed.

Lemma span_word_then_brace (name gap j : string) :
  forallb is_word (list_ascii_of_string name) = true ->
  lstrip_by is_space gap = EmptyString ->
  exists after,
    span is_word (name ++ gap ++ String "{" j) = (name, after)
    /\ from_brace after = Some (String "{" j).
Proof.
  intros Hname Hgap.
  induction name as [|c name IH].
  - exists (gap ++ String "{" j). cbn [append]. split.
    + destruct gap as [|g gap]; [reflexivity|].
      cbn in Hgap. destruct (is_space g) eqn:E; [| discriminate].
      cbn [append span].
      destruct (is_word g) eqn:Ew; [| reflexivity].
      apply space_not_word in Ew. congruence.
    + clear -Hgap. induction gap as [|g gap IH]; [reflexivity|].
      cbn in Hgap. destruct (is_space g) eqn:E; [| discriminate].
      cbn [append from_brace].
      destruct (Ascii.eqb_spec g "{") as [->|_]; [discriminate E|].
      now apply IH.
  - cbn in Hname. apply andb_true_iff in Hname as [Hc Hname].
    destruct (IH Hname) as (after & Hs & Hb).
    exists after. cbn [append span]. now rewrite Hc, Hs.
Qed.

(** X2. The parser finds an action inside a longer response: after any
    text in which no [ACTION:] starts, the marker, blanks, a tool name made
    of word characters, blanks again and a brace-delimited JSON text, the
    outcome is decided by [json.loads] on that text alone: the name with
    the decoded parameters; no action when [json.JSONDecodeError] is
    raised; and any other exception of the decoder leaves the parser
    uncaught.  Whatever follows the closing brace is ignored. *)
Theorem action_found_in_context (json_loads : string -> Loaded)
    (pre ws name gap j trailing : string) :
  str_in "ACTION:" (pre ++ "ACTION") = false ->
  lstrip_by is_space ws = EmptyString ->
  name <> EmptyString ->
  forallb is_word (list_ascii_of_string name) = true ->
  lstrip_by is_space gap = EmptyString ->
  brace_delimited j = true ->
  extract_action_from_response json_loads
    (pre ++ "ACTION:" ++ ws ++ name ++ gap ++ j ++ trailing)
  = match json_loads j with
    | Decoded params => inr (Some (name, params))
    | DecodeError => inr None
    | LoadsRaises e => inl e
    end.
Proof.
  intros Hpre Hws Hne Hname Hgap Hj.
  destruct (brace_delimited_opens _ Hj) as [body ->].
  unfold extract_action_from_response.
  rewrite (search_action_skip _ _ Hpre).
  destruct (span_word_then_brace name gap (body ++ trailing) Hname Hgap)
    as (after & Hs & Hb).
  assert (Hfound :
    search_action ("ACTION:" ++ ws ++ name ++ gap ++ String "{" body ++ trailing)
    = Some (name, after)).
  { cbn [append search_action]. unfold match_action_here.
    cbn [startswith Ascii.eqb Bool.eqb andb drop].
    rewrite (lstrip_spaces_then _ _ _ Hws).
    destruct name as [|c name]; [congruence|].
    cbn in Hname. apply andb_true_iff in Hname as [Hc Hname'].
    cbn [append lstrip_by]. rewrite (space_not_word _ Hc).
    change (String c (name ++ gap ++ String "{" (body ++ trailing)))
      with (String c name ++ gap ++ String "{" (body ++ trailing)).
    now rewrite Hs. }
  rewrite Hfound, Hb.
  rewrite (brace_span_closes_before (String "{" body) trailing 0%nat Hj
           : brace_span (String "{" (body ++ trailing)) 0 = _).
  now destruct (json_loads (String "{" body)).
Qed.

Lemma action_found_in_context_witness :
  extract_action_from_response Sample.loads
    (("THOUGHT: I need to count." ++ LF) ++ "ACTION:" ++ "  "
       ++ "query_database" ++ " "
       ++ Sample.dumps [("query", JStr "SELECT COUNT(*) FROM employees")]
       ++ (LF ++ "OBSERVATION: }"))
  = match Sample.loads
            (Sample.dumps [("query", JStr "SELECT COUNT(*) FROM employees")])
    with
    | Decoded params => inr (Some ("query_database", params))
    | DecodeError => inr None
    | LoadsRaises e => inl e
    end.
Proof.
  apply (action_found_in_context Sample.loads
           ("THOUGHT: I need to count." ++ LF) "  " "query_database" " "
           (Sample.dumps [("query", JStr "SELECT COUNT(*) FROM employees")])
           (LF ++ "OBSERVATION: }"));
    solve [reflexivity | discriminate].
Defined.

(** X3. In a response of ASCII text, a tool name returned by the parser is
    never empty and holds only letters, digits and underscores; it stands
    in the response after an [ACTION:] marker and blanks. *)
Theorem parsed_tool_name_is_a_word (json_loads : string -> Loaded)
    (response name : string) (params : Params) :
  ascii_text response = true ->
  extract_action_from_response json_loads response
  = inr (Some (name, params)) ->
  name <> EmptyString
  /\ forallb is_word (list_ascii_of_string name) = true
  /\ exists pre ws after,
       response = pre ++ "ACTION:" ++ ws ++ name ++ after
       /\ lstrip_by is_space ws = EmptyString.
Proof.
  unfold extract_action_from_response. intros _ H.
  destruct (search_action response) as [[n after]|] eqn:Es; [| discriminate].
  destruct (from_brace after); [| discriminate].
  destruct (brace_span s 0); [| discriminate].
  destruct (json_loads s0); try discriminate.
  injection H as -> ->.
  destruct (search_action_found _ _ _ Es) as (pre & ws & -> & Hws & Hne & Hw).
  repeat split; try assumption. now exists pre, ws, after.
Qed.

Lemma parsed_tool_name_is_a_word_witness :
  "list_tables" <> EmptyString
  /\ forallb is_word (list_ascii_of_string "list_tables") = true
  /\ exists pre ws after,
       "ACTION: list_tables{}" = pre ++ "ACTION:" ++ ws ++ "list_tables" ++ after
       /\ lstrip_by is_space ws = EmptyString.
Proof.
  apply (parsed_tool_name_is_a_word Sample.loads "ACTION: list_tables{}"
           "list_tables" []); reflexivity.
Defined.

(** ** The final answer, further *)

Lemma startswith_nocase_upper (p s : string) :
  startswith_nocase s p = startswith (upper s) (upper p).
Proof.
  revert s; induction p as [|a p IH]; intros s; [reflexivity|].
  destruct s as [|b s]; [reflexivity|].
  cbn [startswith_nocase].
  change (upper (String b s)) with (String (upper_char b) (upper s)).
  change (upper (String a p)) with (String (upper_char a) (upper p)).
  cbn [startswith]. now rewrite IH.
Qed.

(** Where detection fails, the pattern of the extraction matches nowhere. *)
Lemma search_final_answer_undetected (r : string) :
  has_final_answer r = false -> search_final_answer r = None.
Proof.
  unfold has_final_answer. induction r as [|c r IH]; intros H.
  - reflexivity.
  - cbn [search_final_answer].
    rewrite startswith_nocase_upper.
    change (upper "FINAL ANSWER:") with "FINAL ANSWER:".
    rewrite (str_in_false_here _ _ H).
    apply IH.
    change (upper (String c r)) with (String (upper_char c) (upper r)) in H.
    cbn [str_in] in H. now apply orb_false_iff in H as [_ H].
Qed.

Lemma rstrip_by_idempotent (f : ascii -> bool) (s : string) :
  rstrip_by f (rstrip_by f s) = rstrip_by f s.
Proof.
  induction s as [|c s IH]; [reflexivity|].
  cbn [rstrip_by]. destruct (rstrip_by f s) as [|d t] eqn:E.
  - destruct (f c) eqn:Ec; [reflexivity|]. cbn. now rewrite Ec.
  - cbn [rstrip_by]. cbn [rstrip_by] in IH.
    destruct (match rstrip_by f t with
              | EmptyString => if f d then EmptyString else String d EmptyString
              | String a s0 => String d (String a s0)
              end) eqn:E2; [discriminate IH|].
    now rewrite IH.
Qed.

Lemma rstrip_by_head (f : ascii -> bool) (c : ascii) (s : string) :
  f c = false -> exists t, rstrip_by f (String c s) = String c t.
Proof.
  intros H. cbn [rstrip_by]. destruct (rstrip_by f s).
  - rewrite H. now exists EmptyString.
  - eexists. reflexivity.
Qed.

(** Stripping twice is stripping once. *)
Lemma strip_idempotent (s : string) : strip (strip s) = strip s.
Proof.
  unfold strip, rstrip.
  destruct (lstrip_by is_space s) as [|c t] eqn:E; [reflexivity|].
  apply lstrip_head in E.
  destruct (rstrip_by_head is_space c t E) as [u Hu]. rewrite Hu.
  cbn [lstrip_by]. rewrite E. rewrite <- Hu. apply rstrip_by_idempotent.
Qed.

(** X4. On a response of ASCII text, extraction agrees with detection and
    returns trimmed text: when no final answer is detected the extracted
    answer is empty, and the extracted answer has no blanks left to strip
    at either end. *)
Theorem extracted_answer_is_trimmed (response : string) :
  ascii_text response = true ->
  (has_final_answer response = false ->
   extract_final_answer response = EmptyString)
  /\ strip (extract_final_answer response) = extract_final_answer response.
Proof.
  intros _. unfold extract_final_answer. split.
  - intros H. now rewrite (search_final_answer_undetected _ H).
  - destruct (search_final_answer response); [apply strip_idempotent|].
    reflexivity.
Qed.

Lemma extracted_answer_is_trimmed_witness :
  extract_final_answer "THOUGHT: I should query the database."
  = EmptyString
  /\ strip (extract_final_answer ("Final Answer:   8 employees. " ++ LF))
     = extract_final_answer ("Final Answer:   8 employees. " ++ LF).
Proof.
  split.
  - apply (extracted_answer_is_trimmed
             "THOUGHT: I should query the database."); reflexivity.
  - apply (extracted_answer_is_trimmed
             ("Final Answer:   8 employees. " ++ LF)). reflexivity.
Defined.

(** ** Identifiers *)

Lemma span_all (f : ascii -> bool) (a rest : string) :
  forallb f (list_ascii_of_string a) = true ->
  (rest = EmptyString \/ exists c r, rest = String c r /\ f c = false) ->
  span f (a ++ rest) = (a, rest).
Proof.
  intros Ha Hrest. induction a as [|c a IH].
  - cbn [append]. destruct Hrest as [-> | (d & r & -> & Hd)]; [reflexivity|].
    cbn. now rewrite Hd.
  - cbn in Ha. apply andb_true_iff in Ha as [Hc Ha].
    cbn [append span]. now rewrite Hc, (IH Ha).
Qed.

Lemma identifier_match_iff (s : string) :
  identifier_match s = true
  <-> exists id, tool_name_shape id = true /\ (s = id \/ s = id ++ LF).
Proof.
  split.
  - destruct s as [|c s]; [discriminate|]. cbn [identifier_match].
    intros H. apply andb_true_iff in H as [Hc H].
    destruct (span_split is_word s) as [Hs Hw].
    destruct (span is_word s) as [a rest]. cbn [fst snd] in Hs, Hw.
    exists (String c a). split; [cbn; now rewrite Hc, Hw|].
    apply orb_true_iff in H as [H | H]; apply String.eqb_eq in H;
      subst rest s.
    + left. now rewrite app_nil_right.
    + right. reflexivity.
  - intros (id & Hid & Hs). destruct id as [|c a]; [discriminate|].
    cbn in Hid. apply andb_true_iff in Hid as [Hc Ha].
    destruct Hs as [-> | ->]; cbn [append identifier_match]; rewrite Hc.
    + rewrite <- (app_nil_right a) at 1.
      rewrite (span_all is_word a EmptyString Ha) by now left.
      reflexivity.
    + rewrite (span_all is_word a LF Ha); [reflexivity|].
      right. now exists "010"%char, EmptyString.
Qed.

(** X5. [sanitize_identifier] returns its argument unchanged, and it does
    so exactly for a string that is a letter or underscore followed by word
    characters, or such a name followed by one line feed; anything else
    raises. *)
Theorem sanitize_identifier_accepts (v : json) (s : string) :
  sanitize_identifier v = inr s
  <-> v = JStr s
      /\ exists id, tool_name_shape id = true /\ (s = id \/ s = id ++ LF).
Proof.
  rewrite <- identifier_match_iff. split.
  - destruct v; cbn; try discriminate.
    destruct (identifier_match s0) eqn:E; [| discriminate].
    intros H. injection H as <-. now split.
  - intros [-> H]. cbn. now rewrite H.
Qed.

(** ** The validator, soundness *)

(** A keyword that stands in the text with no word character around it is
    found by the word search. *)
Lemma word_search_from_finds (kw post : string) (pre : string) :
  kw <> EmptyString ->
  (post = EmptyString \/ exists c r, post = String c r /\ is_word c = false) ->
  forall prev,
    (pre = EmptyString /\ prev = false
     \/ exists p c, pre = p ++ String c EmptyString /\ is_word c = false) ->
    word_search_from prev kw (pre ++ kw ++ post) = true.
Proof.
  intros Hkw Hpost. induction pre as [|c pre IH]; intros prev Hpre.
  - destruct Hpre as [[_ ->] | (p & c & H & _)];
      [| destruct p; discriminate].
    destruct kw as [|k kw]; [congruence|].
    cbn [append word_search_from negb andb].
    change (String k (kw ++ post)) with (String k kw ++ post).
    rewrite startswith_app. unfold word_end_after. rewrite drop_app_length.
    destruct Hpost as [-> | (d & r & -> & Hd)]; [reflexivity|].
    now rewrite Hd.
  - cbn [append word_search_from].
    rewrite IH; [apply orb_true_r|].
    destruct Hpre as [[H _] | (p & d & H & Hd)]; [discriminate|].
    destruct p as [|x p]; cbn in H; injection H as -> ->.
    + now left.
    + right. now exists p, d.
Qed.

Lemma first_dangerous_none (keywords : list string) (text : string) :
  first_dangerous keywords text = None ->
  forall kw, In kw keywords -> word_search kw text = false.
Proof.
  induction keywords as [|k keywords IH]; intros H kw Hin; [contradiction|].
  cbn in H. destruct (word_search k text) eqn:E; [discriminate|].
  destruct Hin as [<- | Hin]; [exact E | now apply IH].
Qed.

(** X6. A query of ASCII text that the validator accepts has passed every
    layer: the engine accepted its [EXPLAIN], the one statement sent;
    stripped and in upper case it begins with [SELECT] or [WITH]; once its
    trailing semicolons and blanks are removed no semicolon is left; and
    none of the dangerous keywords stands in it as a whole word, that is
    with no letter, digit or underscore directly before or after it. *)
Theorem accepted_query_is_read_only (db : Database) (query reason : string)
    (w w' : World) :
  ascii_text query = true ->
  validate_sql_query db query w = (inr (true, reason), w') ->
  reason = EmptyString
  /\ w' = after_sql ("EXPLAIN " ++ query) [] w
  /\ db_explain db ("EXPLAIN " ++ query) = inr tt
  /\ (exists rest, upper (strip query) = "SELECT" ++ rest
                   \/ upper (strip query) = "WITH" ++ rest)
  /\ str_in ";" (rstrip (rstrip_semicolons (strip query))) = false
  /\ (forall kw pre post,
        In kw dangerous_keywords ->
        upper (strip query) = pre ++ kw ++ post ->
        (exists p c, pre = p ++ String c EmptyString /\ is_word c = true)
        \/ (exists c r, post = String c r /\ is_word c = true)).
Proof.
  intros _.
  rewrite validate_layers. unfold passes_layer1, passes_layer2, flagged_keyword.
  destruct (existsb _ _) eqn:E1; cbn [negb]; [| discriminate].
  destruct (str_in ";" _) eqn:E2; cbn [negb]; [discriminate|].
  destruct (first_dangerous _ _) eqn:E3; [discriminate|].
  destruct (db_explain db _) as [msg|[]] eqn:E4; [discriminate|].
  intros H. injection H as <- <-.
  repeat split.
  - cbn [existsb] in E1. rewrite orb_false_r in E1.
    apply orb_true_iff in E1 as [E | E]; apply startswith_iff in E as [t E];
      exists t; [now left | now right].
  - intros kw pre post Hin Heq.
    assert (Hno := first_dangerous_none _ _ E3 kw Hin).
    assert (Hkw : kw <> EmptyString).
    { intros ->. cbn in Hin. repeat destruct Hin as [Hin | Hin];
        try discriminate; contradiction. }
    destruct pre as [|x pre'] eqn:Epre.
    + destruct post as [|d r] eqn:Epost.
      * exfalso. unfold word_search in Hno. rewrite Heq in Hno.
        rewrite (word_search_from_finds kw EmptyString EmptyString Hkw)
          in Hno; [discriminate | now left | now left].
      * destruct (is_word d) eqn:Ed; [right; now exists d, r|].
        exfalso. unfold word_search in Hno. rewrite Heq in Hno.
        rewrite (word_search_from_finds kw (String d r) EmptyString Hkw)
          in Hno; [discriminate | right; now exists d, r | now left].
    + assert (Hlast : exists p c, String x pre' = p ++ String c EmptyString).
      { clear. revert x. induction pre' as [|y pre' IH]; intros x.
        - now exists EmptyString, x.
        - destruct (IH y) as (p & c & ->). now exists (String x p), c. }
      destruct Hlast as (p & c & Hlast).
      destruct (is_word c) eqn:Ec; [left; now exists p, c|].
      destruct post as [|d r] eqn:Epost.
      * exfalso. unfold word_search in Hno. rewrite Heq in Hno.
        rewrite (word_search_from_finds kw EmptyString (String x pre') Hkw)
          in Hno; [discriminate | now left | right; now exists p, c].
      * destruct (is_word d) eqn:Ed; [right; now exists d, r|].
        exfalso. unfold word_search in Hno. rewrite Heq in Hno.
        rewrite (word_search_from_finds kw (String d r) (String x pre') Hkw)
          in Hno;
          [discriminate | right; now exists d, r | right; now exists p, c].
Qed.

Lemma accepted_query_is_read_only_witness :
  EmptyString = EmptyString
  /\ after_sql "EXPLAIN SELECT name FROM employees;" [] (Sample.fresh 0)
     = after_sql ("EXPLAIN " ++ "SELECT name FROM employees;") []
                 (Sample.fresh 0)
  /\ db_explain Sample.db ("EXPLAIN " ++ "SELECT name FROM employees;")
     = inr tt
  /\ (exists rest,
        upper (strip "SELECT name FROM employees;") = "SELECT" ++ rest
        \/ upper (strip "SELECT name FROM employees;") = "WITH" ++ rest)
  /\ str_in ";" (rstrip (rstrip_semicolons
                           (strip "SELECT name FROM employees;"))) = false
  /\ (forall kw pre post,
        In kw dangerous_keywords ->
        upper (strip "SELECT name FROM employees;") = pre ++ kw ++ post ->
        (exists p c, pre = p ++ String c EmptyString /\ is_word c = true)
        \/ (exists c r, post = String c r /\ is_word c = true)).
Proof.
  apply (accepted_query_is_read_only Sample.db "SELECT name FROM employees;"
           EmptyString (Sample.fresh 0)
           (after_sql "EXPLAIN SELECT name FROM employees;" []
                      (Sample.fresh 0))); reflexivity.
Defined.

(** ** The tools *)

Section ToolFacts.

Variable db : Database.

Ltac run_tool :=
  unfold try_except_class, try_except, db_execute, bind, emit, ret, raise,
    lift, after_sql; cbn [is_sqlite_error exn_str].

(** X7. [query_database] never raises, whatever value it is given, a text
    being ASCII text.  It sends nothing, or the [EXPLAIN] of the query
    alone when the engine refuses it, or the [EXPLAIN] followed by the
    query with its row cap; the last only for a query that passed the first
    three layers of the validator and whose [EXPLAIN] the engine accepted,
    and the statement executed then holds the letters of [LIMIT], capital
    or small. *)
Theorem query_database_runs_only_accepted (query : json) (w : World) :
  (forall q, query = JStr q -> ascii_text q = true) ->
  exists text sent w',
    query_database db query w = (inr text, w')
    /\ events w' = (events w ++ sent)%list
    /\ (sent = []
        \/ (exists q msg,
              query = JStr q
              /\ sent = [EvSql ("EXPLAIN " ++ q) []]
              /\ db_explain db ("EXPLAIN " ++ q) = inl msg)
        \/ (exists q,
              query = JStr q
              /\ sent = [ EvSql ("EXPLAIN " ++ q) [];
                          EvSql (add_limit_if_missing q 100) [] ]
              /\ passes_layer1 q = true /\ passes_layer2 q = true
              /\ flagged_keyword q = None
              /\ db_explain db ("EXPLAIN " ++ q) = inr tt
              /\ exists pre m post,
                   add_limit_if_missing q 100 = pre ++ m ++ post
                   /\ spells_limit m = true)).
Proof.
  intros _.
  assert (Hnil : forall (text : string),
    exists text' sent w',
      (inr text : exn + string, w) = (inr text', w')
      /\ events w' = (events w ++ sent)%list /\ sent = []).
  { intros text. exists text, [], w. now rewrite app_nil_r. }
  destruct query as [| b | z | lit | q | items | fields];
    try (unfold query_database, try_except, raise, ret;
         cbn [is_sqlite_error];
         match goal with
         | |- context [(inr ?t, w)] =>
             destruct (Hnil t) as (t' & sent & w' & H1 & H2 & H3);
             exists t', sent, w'; rewrite H1; tauto
         end).
  unfold query_database, try_except, bind.
  rewrite validate_layers.
  destruct (passes_layer1 q) eqn:E1; cbn [negb];
    [| unfold ret; cbn [negb];
       match goal with
       | |- context [(inr ?t, w)] =>
           destruct (Hnil t) as (t' & sent & w' & H1 & H2 & H3);
           exists t', sent, w'; rewrite H1; tauto
       end].
  destruct (passes_layer2 q) eqn:E2; cbn [negb];
    [| unfold ret; cbn [negb];
       match goal with
       | |- context [(inr ?t, w)] =>
           destruct (Hnil t) as (t' & sent & w' & H1 & H2 & H3);
           exists t', sent, w'; rewrite H1; tauto
       end].
  destruct (flagged_keyword q) eqn:E3;
    [ unfold ret; cbn [negb];
      match goal with
      | |- context [(inr ?t, w)] =>
          destruct (Hnil t) as (t' & sent & w' & H1 & H2 & H3);
          exists t', sent, w'; rewrite H1; tauto
      end |].
  destruct (db_explain db ("EXPLAIN " ++ q)) as [msg|[]] eqn:E4.
  - unfold ret. cbn [negb].
    eexists _, [EvSql ("EXPLAIN " ++ q) []], _.
    split; [reflexivity|]. split; [reflexivity|].
    right. left. now exists q, msg.
  - cbn [negb]. run_tool. cbn [clock last_api_call llm_calls events].
    assert (Hsent :
      exists q', q' = q /\
      passes_layer1 q' = true /\ passes_layer2 q' = true
      /\ flagged_keyword q' = None
      /\ db_explain db ("EXPLAIN " ++ q') = inr tt
      /\ exists pre m post,
           add_limit_if_missing q' 100 = pre ++ m ++ post
           /\ spells_limit m = true).
    { exists q. split; [reflexivity|]. do 4 (split; [assumption|]).
      apply (occurs_nocase_spelled "LIMIT" "limit" _ limit_case_pairs
               eq_refl).
      apply add_limit_has_limit. }
    destruct Hsent as (q' & -> & Hs).
    destruct (db_select db (add_limit_if_missing q 100))
      as [msg | [column_names [|row rows]]];
      cbn [is_sqlite_error exn_str];
      eexists _, [ EvSql ("EXPLAIN " ++ q) [];
                   EvSql (add_limit_if_missing q 100) [] ], _;
      (split; [reflexivity|]);
      (split; [cbn [events]; now rewrite <- app_assoc|]);
      right; right; exists q; tauto.
Qed.

Lemma list_tables_returns (w : World) :
  exists text w', list_tables db w = (inr text, w').
Proof.
  unfold list_tables. run_tool.
  destruct (db_table_names db) as [msg | [|t ts]]; cbn [is_sqlite_error];
    do 2 eexists; reflexivity.
Qed.

(** What [describe_table] raises, it raises before sending anything. *)
Lemma describe_table_raises (table_name : json) (w w' : World) (e : exn) :
  describe_table db table_name w = (inl e, w') ->
  (exists m, e = TypeError m) /\ w' = w.
Proof.
  unfold describe_table. run_tool.
  destruct table_name as [| b | z | lit | t | items | fields];
    cbn [sanitize_identifier is_sqlite_error];
    try (intros H; injection H as <- <-; split; [eexists|]; reflexivity).
  destruct (identifier_match t); [| discriminate].
  destruct (db_table_lookup db t) as [msg | []]; cbn [is_sqlite_error negb];
    try discriminate.
  destruct (db_table_info db t) as [msg | columns]; cbn [is_sqlite_error];
    try discriminate.
  destruct (db_row_count db t) as [msg | n]; cbn [is_sqlite_error];
    discriminate.
Qed.

Lemma query_database_returns (query : json) (w : World) :
  exists text w', query_database db query w = (inr text, w').
Proof.
  unfold query_database, try_except.
  match goal with
  | |- context [?body w] =>
      match type of body with
      | M string => destruct (body w) as [[e|text] w1]
      end
  end.
  - unfold ret. destruct (is_sqlite_error e); do 2 eexists; reflexivity.
  - do 2 eexists; reflexivity.
Qed.

Lemma lift_raises {A} (r : exn + A) (w w' : World) (e : exn) :
  lift r w = (inl e, w') -> r = inl e /\ w' = w.
Proof.
  destruct r as [e0|a]; unfold lift, raise, ret; intros H.
  - injection H as <- <-. now split.
  - discriminate.
Qed.

Lemma bind_one_argument_raises (fname p : string) (kwargs : Params) (e : exn) :
  bind_one_argument fname p kwargs = inl e -> exists m, e = TypeError m.
Proof.
  unfold bind_one_argument, unexpected_keyword, missing_argument.
  destruct (find _ kwargs) as [[k v]|].
  - destruct (String.eqb k "db_conn"); intros H; injection H as <-; eexists;
      reflexivity.
  - destruct kwargs as [|[k v] rest]; [| discriminate].
    intros H; injection H as <-; eexists; reflexivity.
Qed.

(** X8. A tool of the registry raises nothing but [TypeError], and raises
    it before any statement is sent or any other effect: the failures of
    the engine never leave a tool as an exception. *)
Theorem registry_tools_raise_only_type_errors (tool : Tool) (params : Params)
    (w : World) :
  In tool (create_tool_registry db) ->
  forall e w',
    tool_func tool params w = (inl e, w') ->
    (exists m, e = TypeError m) /\ w' = w.
Proof.
  intros Hin e w' Hrun.
  cbn [create_tool_registry In] in Hin.
  destruct Hin as [<- | [<- | [<- | []]]]; cbn [tool_func] in Hrun;
    unfold bind in Hrun.
  - destruct (lift (bind_no_argument "list_tables" params) w)
      as [[e0|[]] w0] eqn:E.
    + injection Hrun as <- <-. apply lift_raises in E as [E ->].
      split; [| reflexivity].
      destruct params as [|[k v] rest]; cbn in E; [discriminate|].
      unfold unexpected_keyword in E.
      destruct (String.eqb k "db_conn"); injection E as <-; eexists;
        reflexivity.
    + destruct (list_tables_returns w0) as (t & w1 & H). congruence.
  - destruct (lift (bind_one_argument "describe_table" "table_name" params) w)
      as [[e0|table_name] w0] eqn:E.
    + injection Hrun as <- <-. apply lift_raises in E as [E ->].
      split; [| reflexivity]. eapply bind_one_argument_raises; eassumption.
    + assert (w0 = w) as ->.
      { destruct (bind_one_argument _ _ params); unfold lift, raise, ret in E;
          congruence. }
      eapply describe_table_raises; eassumption.
  - destruct (lift (bind_one_argument "query_database" "query" params) w)
      as [[e0|query] w0] eqn:E.
    + injection Hrun as <- <-. apply lift_raises in E as [E ->].
      split; [| reflexivity]. eapply bind_one_argument_raises; eassumption.
    + destruct (query_database_returns query w0) as (t & w1 & H). congruence.
Qed.

End ToolFacts.

Lemma query_database_runs_only_accepted_witness :
  exists text sent w',
    query_database Sample.db (JStr "SELECT name FROM employees;")
                   (Sample.fresh 1000)
    = (inr text, w')
    /\ events w' = (events (Sample.fresh 1000) ++ sent)%list
    /\ (sent = []
        \/ (exists q msg,
              JStr "SELECT name FROM employees;" = JStr q
              /\ sent = [EvSql ("EXPLAIN " ++ q) []]
              /\ db_explain Sample.db ("EXPLAIN " ++ q) = inl msg)
        \/ (exists q,
              JStr "SELECT name FROM employees;" = JStr q
              /\ sent = [ EvSql ("EXPLAIN " ++ q) [];
                          EvSql (add_limit_if_missing q 100) [] ]
              /\ passes_layer1 q = true /\ passes_layer2 q = true
              /\ flagged_keyword q = None
              /\ db_explain Sample.db ("EXPLAIN " ++ q) = inr tt
              /\ exists pre m post,
                   add_limit_if_missing q 100 = pre ++ m ++ post
                   /\ spells_limit m = true)).
Proof.
  apply query_database_runs_only_accepted.
  intros q H. injection H as <-. reflexivity.
Defined.

Lemma registry_tools_raise_only_type_errors_witness :
  exists tool,
    In tool (create_tool_registry Sample.db)
    /\ tool_func tool [("table_name", JInt 3)] (Sample.fresh 0)
       = (inl (TypeError "expected string or bytes-like object, got 'int'"),
          Sample.fresh 0)
    /\ ((exists m,
           TypeError "expected string or bytes-like object, got 'int'"
           = TypeError m)
        /\ Sample.fresh 0 = Sample.fresh 0).
Proof.
  eexists. split; [right; left; reflexivity|]. split; [reflexivity|].
  eapply (registry_tools_raise_only_type_errors Sample.db _
            [("table_name", JInt 3)] (Sample.fresh 0));
    [right; left; reflexivity | reflexivity].
Defined.

(** ** What the tools send to the engine *)

Section ToolStatements.

Variable db : Database.

Ltac run_tool :=
  unfold try_except_class, try_except, db_execute, bind, emit, ret, raise,
    lift, after_sql; cbn [is_sqlite_error exn_str].




End ToolStatements.

(** ** The table of results *)

(** X11. The table [query_database] returns shows the first twenty rows
    and no more: below the four heading lines come the rows, all of them
    when there are at most twenty and then nothing else, the first twenty
    otherwise, followed by one line that counts the rows left out.  The
    first line gives the number of all rows in both cases. *)
Theorem format_rows_shows_twenty (column_names : list string)
    (results : list (list SqlValue)) :
  let n := List.length results in
  let heading :=
    [ "Query returned " ++ str_of_Z (Z.of_nat n) ++ " row(s):";
      EmptyString;
      join " | " column_names;
      repeat_str "-" (String.length (join " | " column_names)) ] in
  let line := fun row => join " | " (map sql_str row) in
  exists shown note,
    format_rows column_names results
    = join LF (heading ++ shown ++ note)%list
    /\ shown = map line (firstn 20 results)
    /\ ((n <= 20)%nat /\ shown = map line results /\ note = []
        \/ (20 < n)%nat /\ List.length shown = 20%nat
           /\ note = [ "... (" ++ str_of_Z (Z.of_nat n - 20)
                         ++ " more rows not shown)" ]).
Proof.
  intros n heading line. unfold format_rows. fold n.
  destruct (Nat.le_gt_cases n 20) as [Hle | Hgt].
  - rewrite (Nat.min_r 20 n) by assumption.
    rewrite Nat.ltb_irrefl.
    exists (map line results), []. split.
    + subst n. now rewrite firstn_all.
    + split.
      * subst n. now rewrite firstn_all2 by assumption.
      * left. auto.
  - rewrite (Nat.min_l 20 n) by lia.
    destruct (Nat.ltb_spec 20 n) as [_ | Hc]; [| lia].
    eexists _, _. split; [reflexivity|]. split; [reflexivity|].
    right. split; [assumption|]. split.
    + rewrite length_map, length_firstn. subst n. apply Nat.min_l.
      now apply Nat.lt_le_incl.
    + replace (Z.of_nat n - 20) with (Z.of_nat (n - 20)) by lia. reflexivity.
Qed.

(** ** The client, further *)

Section ClientFurther.

Variable provider : nat -> list Message -> Reply.
Variable config : AgentConfig.
Variable messages : list Message.

Lemma retry_loop_calls_bounded (attempts : list Z) :
  forall w : World,
    let w' := snd (retry_loop provider config messages attempts w) in
    (llm_calls w <= llm_calls w'
     /\ llm_calls w' <= llm_calls w + List.length attempts)%nat.
Proof.
  induction attempts as [|attempt rest IH]; intros w; cbv zeta.
  - cbn. lia.
  - destruct (outcome (provider (llm_calls w) messages)) as [msg|text] eqn:E.
    + rewrite (retry_loop_failure _ _ _ _ _ _ _ E). cbv zeta.
      set (w1 := after_call attempt (provider (llm_calls w) messages) w).
      assert (H1 : llm_calls w1 = S (llm_calls w)) by reflexivity.
      specialize (IH (after_sleep (backoff_delay config attempt) w1)).
      cbv zeta in IH. cbn [after_sleep llm_calls] in IH. fold w1 in IH.
      destruct (signals_quota msg), (signals_throttling msg),
        (attempt <? max_retries config),
        (backoff_delay config attempt <? 0);
        cbn [snd List.length]; lia.
    + rewrite (retry_loop_success _ _ _ _ _ _ _ E).
      cbn [snd after_call llm_calls List.length]. lia.
Qed.

(** X12. Whatever the provider answers, one call of [_call_llm] calls it
    at most [max_retries] times. *)
Theorem call_llm_attempts_bounded (w : World) :
  let w' := snd (_call_llm provider config messages w) in
  (llm_calls w <= llm_calls w'
   /\ llm_calls w' <= llm_calls w + Z.to_nat (max_retries config))%nat.
Proof.
  cbv zeta. rewrite call_llm_unfold.
  pose proof (retry_loop_calls_bounded (range_from_1 (max_retries config))
                (rate_limit_wait config w)) as H.
  cbv zeta in H. rewrite rate_limit_wait_llm_calls in H.
  unfold range_from_1 in H at 3. rewrite length_map, length_seq in H.
  exact H.
Qed.

(** X13. With [max_retries] at zero or below the loop has no attempt to
    make: after the wait that fills [min_delay_between_calls], [_call_llm]
    raises its closing [RuntimeError] and the provider is not called. *)
Theorem call_llm_without_attempts (w : World) :
  max_retries config <= 0 ->
  _call_llm provider config messages w
  = (inl (RuntimeError "Failed to call LLM after max retries"),
     rate_limit_wait config w).
Proof.
  intros H. rewrite call_llm_unfold. unfold range_from_1.
  replace (Z.to_nat (max_retries config)) with 0%nat by lia.
  reflexivity.
Qed.

Lemma retry_loop_recovers (text : string) :
  0 <= retry_delay config ->
  forall (k a n : nat) (w : World),
    (k < n)%nat ->
    Z.of_nat (a + k) <= max_retries config ->
    (forall i, (i < k)%nat ->
       exists msg,
         outcome (provider (llm_calls w + i) messages) = inl msg
         /\ signals_quota msg = false) ->
    outcome (provider (llm_calls w + k) messages) = inr text ->
    exists ts w',
      retry_loop provider config messages (map Z.of_nat (seq a n)) w
      = (inr text, w')
      /\ llm_calls w' = (llm_calls w + S k)%nat
      /\ List.length ts = S k
      /\ events w'
         = (events w
              ++ backoff_schedule (retry_delay config) (Z.of_nat a) ts)%list.
Proof.
  intros Hdelay. induction k as [|k IH]; intros a n w Hn Hmax Hfail Hok.
  - destruct n as [|n]; [lia|]. cbn [seq map].
    rewrite Nat.add_0_r in Hok.
    rewrite (retry_loop_success _ _ _ _ _ _ _ Hok).
    exists [clock w], (after_call (Z.of_nat a)
                         (provider (llm_calls w) messages) w).
    repeat split. cbn [after_call llm_calls]. lia.
  - destruct n as [|n]; [lia|]. cbn [seq map].
    destruct (Hfail 0%nat) as (msg & Hmsg & Hq); [lia|].
    rewrite Nat.add_0_r in Hmsg.
    rewrite (retry_loop_failure _ _ _ _ _ _ _ Hmsg). cbv zeta. rewrite Hq.
    set (w1 := after_call (Z.of_nat a) (provider (llm_calls w) messages) w).
    set (w2 := after_sleep (backoff_delay config (Z.of_nat a)) w1).
    replace (Z.of_nat a <? max_retries config) with true
      by (symmetry; apply Z.ltb_lt; lia).
    replace (backoff_delay config (Z.of_nat a) <? 0) with false
      by (symmetry; apply Z.ltb_ge; now apply backoff_delay_nonneg).
    destruct (IH (S a) n w2) as (ts & w' & Hrun & Hcalls & Hlen & Hev).
    { lia. }
    { lia. }
    { intros i Hi. destruct (Hfail (S i)) as (m & Hm & Hmq); [lia|].
      exists m. split; [| assumption]. rewrite <- Hm.
      unfold w2, w1. cbn [after_sleep after_call llm_calls].
      do 2 f_equal. lia. }
    { rewrite <- Hok. unfold w2, w1. cbn [after_sleep after_call llm_calls].
      do 2 f_equal. lia. }
    exists (clock w :: ts), w'.
    assert (Hrun' :
      (if signals_throttling msg
       then retry_loop provider config messages
              (map Z.of_nat (seq (S a) n)) w2
       else retry_loop provider config messages
              (map Z.of_nat (seq (S a) n)) w2)
      = (inr text, w'))
      by now destruct (signals_throttling msg).
    rewrite Hrun'. split; [reflexivity|]. split; [| split].
    + rewrite Hcalls. unfold w2, w1. cbn [llm_calls after_sleep after_call].
      lia.
    + cbn. now rewrite Hlen.
    + rewrite Hev. unfold w2, w1. cbn [events after_sleep after_call].
      rewrite <- !app_assoc. cbn [app]. f_equal.
      destruct ts as [|t ts]; [discriminate|].
      cbn [backoff_schedule]. unfold backoff_delay.
      replace (Z.of_nat a + 1 - 2) with (Z.of_nat a - 1) by lia.
      replace (Z.of_nat a + 1) with (Z.of_nat (S a)) by lia.
      reflexivity.
Qed.

(** X14. Recovery.  When the first [k] calls fail, none of them with a
    daily-limit message, and call [k + 1] succeeds within the budget of
    [max_retries], [_call_llm] returns the text of that call: it has called
    the provider [k + 1] times and slept between the calls as the backoff
    schedule says. *)
Theorem call_llm_recovers (w : World) (k : nat) (text : string) :
  0 <= retry_delay config ->
  Z.of_nat k < max_retries config ->
  (forall i, (i < k)%nat ->
     exists msg,
       outcome (provider (llm_calls w + i) messages) = inl msg
       /\ signals_quota msg = false) ->
  outcome (provider (llm_calls w + k) messages) = inr text ->
  exists ts w',
    _call_llm provider config messages w = (inr text, w')
    /\ llm_calls w' = (llm_calls w + S k)%nat
    /\ List.length ts = S k
    /\ events w'
       = (events (rate_limit_wait config w)
            ++ backoff_schedule (retry_delay config) 1 ts)%list.
Proof.
  intros Hdelay Hk Hfail Hok. rewrite call_llm_unfold. unfold range_from_1.
  destruct (retry_loop_recovers text Hdelay k 1
              (Z.to_nat (max_retries config)) (rate_limit_wait config w))
    as (ts & w' & Hrun & Hcalls & Hlen & Hev).
  - lia.
  - lia.
  - intros i Hi. rewrite rate_limit_wait_llm_calls. now apply Hfail.
  - now rewrite rate_limit_wait_llm_calls.
  - exists ts, w'. rewrite rate_limit_wait_llm_calls in Hcalls. auto.
Qed.

(** X15. When every call fails and none with a daily-limit message, the
    exception that leaves [_call_llm] is decided by the last failure alone:
    the persistent-rate-limit error when its message signals throttling,
    and otherwise the failure itself, raised again with its message. *)
Theorem call_llm_last_failure_decides (w : World) :
  (forall n, exists msg,
      outcome (provider n messages) = inl msg /\ signals_quota msg = false) ->
  0 <= retry_delay config ->
  1 <= max_retries config ->
  exists msg w',
    outcome (provider (llm_calls w + (Z.to_nat (max_retries config) - 1))
                      messages)
    = inl msg
    /\ _call_llm provider config messages w
       = (inl (if signals_throttling msg
               then RuntimeError (persistent_rate_limit_message config)
               else ProviderError msg), w').
Proof.
  intros Hfail Hdelay Hmax.
  rewrite call_llm_unfold, (range_from_1_succ _ Hmax).
  destruct (retry_loop_sustained provider config messages Hfail Hdelay
              (Z.to_nat (max_retries config) - 1) 1
              (rate_limit_wait config w))
    as (ts & msg & w' & Hrun & Hout & _); [lia|].
  rewrite rate_limit_wait_llm_calls in Hout.
  exists msg, w'. split; assumption.
Qed.

End ClientFurther.

Lemma call_llm_without_attempts_witness :
  _call_llm (Sample.scripted [] (inr "FINAL ANSWER: 8"))
            (mkAgentConfig 10 "model" [] 20 0 5) [] (Sample.fresh 1000)
  = (inl (RuntimeError "Failed to call LLM after max retries"),
     rate_limit_wait (mkAgentConfig 10 "model" [] 20 0 5)
                     (Sample.fresh 1000)).
Proof.
  apply call_llm_without_attempts. cbn. lia.
Defined.

Lemma call_llm_recovers_witness :
  exists ts w',
    _call_llm (Sample.scripted [inl "connection reset";
                                inl "429 too many requests"]
                               (inr "FINAL ANSWER: 8"))
              Sample.config [] (Sample.fresh 1000)
    = (inr "FINAL ANSWER: 8", w')
    /\ llm_calls w' = (llm_calls (Sample.fresh 1000) + 3)%nat
    /\ List.length ts = 3%nat
    /\ events w'
       = (events (rate_limit_wait Sample.config (Sample.fresh 1000))
            ++ backoff_schedule (retry_delay Sample.config) 1 ts)%list.
Proof.
  apply (call_llm_recovers
           (Sample.scripted [inl "connection reset";
                             inl "429 too many requests"]
                            (inr "FINAL ANSWER: 8"))
           Sample.config [] (Sample.fresh 1000) 2 "FINAL ANSWER: 8").
  - cbn. lia.
  - cbn. lia.
  - intros i Hi. destruct i as [|[|i]]; [| | lia].
    + exists "connection reset". split; reflexivity.
    + exists "429 too many requests". split; reflexivity.
  - reflexivity.
Defined.

Lemma call_llm_last_failure_decides_witness :
  exists msg w',
    outcome (Sample.scripted [inl "429 too many requests";
                              inl "429 too many requests"]
                             (inl "connection reset")
               (llm_calls (Sample.fresh 1000)
                + (Z.to_nat (max_retries Sample.config) - 1)) [])
    = inl msg
    /\ _call_llm (Sample.scripted [inl "429 too many requests";
                                   inl "429 too many requests"]
                                  (inl "connection reset"))
                 Sample.config [] (Sample.fresh 1000)
       = (inl (if signals_throttling msg
               then RuntimeError (persistent_rate_limit_message Sample.config)
               else ProviderError msg), w').
Proof.
  apply call_llm_last_failure_decides.
  - intros n. destruct n as [|[|n]].
    + exists "429 too many requests". split; reflexivity.
    + exists "429 too many requests". split; reflexivity.
    + exists "connection reset". destruct n; split; reflexivity.
  - cbn. lia.
  - cbn. lia.
Defined.

(** ** The tools only send statements *)

Lemma only_sql_refl (w : World) : only_sql w w.
Proof.
  repeat split. exists []. cbn. now rewrite app_nil_r.
Qed.

Lemma only_sql_trans (w1 w2 w3 : World) :
  only_sql w1 w2 -> only_sql w2 w3 -> only_sql w1 w3.
Proof.
  intros (Hc & Hl & Hn & s1 & He) (Hc' & Hl' & Hn' & s2 & He').
  repeat split; try congruence.
  exists (s1 ++ s2)%list. rewrite He', He, map_app. now rewrite app_assoc.
Qed.

Lemma quiet_ret {A} (a : A) : quiet (ret a).
Proof. intros w. apply only_sql_refl. Qed.

Lemma quiet_raise {A} (e : exn) : quiet (raise e : M A).
Proof. intros w. apply only_sql_refl. Qed.

Lemma quiet_lift {A} (r : exn + A) : quiet (lift r).
Proof. destruct r; [apply quiet_raise | apply quiet_ret]. Qed.

Lemma quiet_bind {A B} (m : M A) (k : A -> M B) :
  quiet m -> (forall a, quiet (k a)) -> quiet (bind m k).
Proof.
  intros Hm Hk w. unfold bind. specialize (Hm w).
  destruct (m w) as [[e|a] w1]; cbn [snd] in *; [assumption|].
  eapply only_sql_trans; [eassumption | apply Hk].
Qed.

Lemma quiet_try_except {A} (body : M A) (handler : exn -> M A) :
  quiet body -> (forall e, quiet (handler e)) ->
  quiet (try_except body handler).
Proof.
  intros Hm Hk w. unfold try_except. specialize (Hm w).
  destruct (body w) as [[e|a] w1]; cbn [snd] in *; [| assumption].
  eapply only_sql_trans; [eassumption | apply Hk].
Qed.

Lemma quiet_try_except_class {A} (is_c : exn -> bool) (body : M A)
    (handler : exn -> M A) :
  quiet body -> (forall e, quiet (handler e)) ->
  quiet (try_except_class is_c body handler).
Proof.
  intros Hm Hk. apply quiet_try_except; [assumption|].
  intros e. destruct (is_c e); [apply Hk | apply quiet_raise].
Qed.

Lemma quiet_db_execute {A} (stmt : string) (args : list string)
    (answer : DbResult A) :
  quiet (db_execute stmt args answer).
Proof.
  intros w. unfold db_execute, bind, emit, raise, ret.
  destruct answer; cbn [snd]; repeat split; exists [(stmt, args)];
    reflexivity.
Qed.

Ltac quiet_step :=
  first [ apply quiet_ret | apply quiet_raise | apply quiet_lift
        | apply quiet_db_execute
        | apply quiet_bind; [| intros ?]
        | apply quiet_try_except_class; [| intros ?]
        | apply quiet_try_except; [| intros ?] ].

Section QuietTools.

Variable db : Database.

Lemma quiet_validate_sql_query (query : string) :
  quiet (validate_sql_query db query).
Proof.
  unfold validate_sql_query.
  destruct (negb _); [apply quiet_ret|].
  destruct (str_in _ _); [apply quiet_ret|].
  destruct (first_dangerous _ _); [apply quiet_ret|].
  repeat quiet_step.
Qed.

Lemma quiet_list_tables : quiet (list_tables db).
Proof.
  unfold list_tables. repeat quiet_step.
  match goal with |- quiet (match ?l with _ => _ end) => destruct l end;
    apply quiet_ret.
Qed.

Lemma quiet_describe_table (table_name : json) :
  quiet (describe_table db table_name).
Proof.
  unfold describe_table. quiet_step; [| apply quiet_ret].
  destruct (sanitize_identifier table_name) as [e|safe_table_name].
  - destruct e; first [apply quiet_ret | apply quiet_raise].
  - quiet_step; [apply quiet_db_execute|].
    destruct (negb _); repeat quiet_step.
Qed.

Lemma quiet_query_database (query : json) :
  quiet (query_database db query).
Proof.
  unfold query_database. quiet_step.
  - destruct query; try apply quiet_raise.
    quiet_step; [apply quiet_validate_sql_query|].
    match goal with a : (bool * string)%type |- _ => destruct a as [[] ?] end;
      cbn [negb]; [| apply quiet_ret].
    quiet_step; [apply quiet_db_execute|].
    match goal with
    | a : (list string * list (list SqlValue))%type |- _ =>
        destruct a as [? [|]]
    end; apply quiet_ret.
  - destruct (is_sqlite_error _); apply quiet_ret.
Qed.

Lemma quiet_registry (tool : Tool) (params : Params) :
  In tool (create_tool_registry db) -> quiet (tool_func tool params).
Proof.
  cbn [create_tool_registry In].
  intros [<- | [<- | [<- | []]]]; cbn [tool_func];
    (apply quiet_bind; [apply quiet_lift | intros ?]).
  - apply quiet_list_tables.
  - apply quiet_describe_table.
  - apply quiet_query_database.
Qed.

Lemma tools_dict_get_in (name : string) (tool : Tool) :
  tools_dict_get db name = Some tool -> In tool (create_tool_registry db).
Proof.
  unfold tools_dict_get. intros H. now apply find_some in H.
Qed.

Lemma quiet_execute_tool (action_name : string) (params : Params) :
  quiet (execute_tool db action_name params).
Proof.
  unfold execute_tool.
  destruct (tools_dict_get db action_name) as [tool|] eqn:E;
    [| apply quiet_ret].
  apply quiet_try_except; [| intros e; apply quiet_ret].
  apply quiet_registry. eapply tools_dict_get_in; eassumption.
Qed.

Lemma quiet_api_execute_tool (action_name : string) (params : Params) :
  quiet (api_execute_tool db action_name params).
Proof.
  unfold api_execute_tool.
  apply quiet_try_except; [| intros e; apply quiet_ret].
  destruct (String.eqb action_name "list_tables");
    [apply quiet_list_tables|].
  destruct (String.eqb action_name "describe_table");
    [apply quiet_bind; [apply quiet_lift | intros ?];
     apply quiet_describe_table|].
  destruct (String.eqb action_name "query_database");
    [apply quiet_bind; [apply quiet_lift | intros ?];
     apply quiet_query_database|].
  apply quiet_ret.
Qed.

(** X16. A tool does nothing but send statements to the engine.  Run
    through the dispatch of the agent or through the one of the logging
    run, for any name and any parameters, it leaves the clock, the time of
    the last provider call and the number of provider calls as they were,
    and adds statements, and nothing else, to the trace. *)
Theorem tools_only_send_statements (action_name : string) (params : Params)
    (w : World) :
  only_sql w (snd (execute_tool db action_name params w))
  /\ only_sql w (snd (api_execute_tool db action_name params w)).
Proof.
  split; [apply quiet_execute_tool | apply quiet_api_execute_tool].
Qed.

End QuietTools.

(** ** The controller, further *)

Section ControllerFurther.

Variable json_loads : string -> Loaded.
Variable db : Database.
Variable provider : nat -> list Message -> Reply.
Variable config : AgentConfig.

Lemma call_llm_calls (messages : list Message) (w w' : World)
    (r : exn + string) :
  _call_llm provider config messages w = (r, w') ->
  (llm_calls w <= llm_calls w'
   /\ llm_calls w' <= llm_calls w + Z.to_nat (max_retries config))%nat.
Proof.
  intros H.
  pose proof (retry_loop_calls_bounded provider config messages
                (range_from_1 (max_retries config))
                (rate_limit_wait config w)) as Hb.
  cbv zeta in Hb. rewrite <- call_llm_unfold, H in Hb. cbn [snd] in Hb.
  rewrite rate_limit_wait_llm_calls in Hb.
  unfold range_from_1 in Hb. rewrite length_map, length_seq in Hb.
  exact Hb.
Qed.

(** The text a retry loop returns is the provider's reply to the last call
    it made. *)
Lemma retry_loop_reply (messages : list Message) (attempts : list Z) :
  forall (w w' : World) (text : string),
    retry_loop provider config messages attempts w = (inr text, w') ->
    (llm_calls w < llm_calls w')%nat
    /\ outcome (provider (llm_calls w' - 1) messages) = inr text.
Proof.
  induction attempts as [|attempt rest IH]; intros w w' text H.
  - discriminate.
  - destruct (outcome (provider (llm_calls w) messages)) as [msg|reply] eqn:E.
    + rewrite (retry_loop_failure _ _ _ _ _ _ _ E) in H. cbv zeta in H.
      set (w1 := after_call attempt (provider (llm_calls w) messages) w) in H.
      assert (Hgo :
        retry_loop provider config messages rest
          (after_sleep (backoff_delay config attempt) w1) = (inr text, w')).
      { destruct (signals_quota msg); [discriminate|].
        destruct (signals_throttling msg);
          (destruct (attempt <? max_retries config); [| discriminate]);
          (destruct (backoff_delay config attempt <? 0); [discriminate|]);
          exact H. }
      apply IH in Hgo as [Hlt Hout].
      cbn [after_sleep llm_calls] in Hlt. unfold w1 in Hlt.
      cbn [after_call llm_calls] in Hlt.
      split; [lia | exact Hout].
    + rewrite (retry_loop_success _ _ _ _ _ _ _ E) in H.
      injection H as <- <-. cbn [after_call llm_calls].
      split; [lia|]. rewrite Nat.sub_succ, Nat.sub_0_r. exact E.
Qed.

Lemma call_llm_reply (messages : list Message) (w w' : World)
    (text : string) :
  _call_llm provider config messages w = (inr text, w') ->
  (llm_calls w < llm_calls w')%nat
  /\ outcome (provider (llm_calls w' - 1) messages) = inr text.
Proof.
  rewrite call_llm_unfold. intros H. apply retry_loop_reply in H.
  now rewrite rate_limit_wait_llm_calls in H.
Qed.

(** What an iteration does, in full.  It calls the provider at most
    [max_retries] times.  It returns for a failed call or a final answer;
    it raises what the parser raised; and otherwise it goes on with two
    messages added to the history. *)
Lemma react_iteration_outcome (history : list Message) (w : World) :
  exists r w',
    react_iteration json_loads db provider config history w = (r, w')
    /\ (llm_calls w <= llm_calls w'
        /\ llm_calls w' <= llm_calls w + Z.to_nat (max_retries config))%nat
    /\ match r with
       | inr (Return result) =>
           (exists e,
              _call_llm provider config history w = (inl e, w')
              /\ result = "Error: LLM call failed: " ++ exn_str e)
           \/ (exists response,
                 (llm_calls w < llm_calls w')%nat
                 /\ outcome (provider (llm_calls w' - 1) history)
                    = inr response
                 /\ has_final_answer response = true
                 /\ result = extract_final_answer response)
       | inr (Continue history' response) =>
           (llm_calls w < llm_calls w')%nat
           /\ outcome (provider (llm_calls w' - 1) history) = inr response
           /\ has_final_answer response = false
           /\ exists said,
                history'
                = (history ++ [ mkMessage assistant response;
                                mkMessage user said ])%list
                /\ match extract_action_from_response json_loads response with
                   | inr None =>
                       said
                       = "Error: Expected ACTION or FINAL ANSWER. Please provide one."
                       /\ sql_statements (events w')
                          = sql_statements (events w)
                   | inr (Some _) =>
                       exists observation,
                         said = "OBSERVATION: " ++ observation
                   | inl _ => False
                   end
       | inl e =>
           exists response,
             (llm_calls w < llm_calls w')%nat
             /\ outcome (provider (llm_calls w' - 1) history) = inr response
             /\ has_final_answer response = false
             /\ extract_action_from_response json_loads response = inl e
       end.
Proof.
  unfold react_iteration, bind, try_except, ret.
  destruct (_call_llm provider config history w) as [[e|text] w1] eqn:Hcall.
  - do 2 eexists. split; [reflexivity|].
    split; [eapply call_llm_calls; eassumption|].
    left. now exists e.
  - pose proof (call_llm_reply _ _ _ _ Hcall) as [Hlt Hout].
    destruct (has_final_answer text) eqn:Hfinal.
    + do 2 eexists. split; [reflexivity|].
      split; [eapply call_llm_calls; eassumption|].
      right. now exists text.
    + destruct (extract_action_from_response json_loads text)
        as [e|[[action_name params]|]] eqn:Hact; unfold lift, raise, ret.
      * do 2 eexists. split; [reflexivity|].
        split; [eapply call_llm_calls; eassumption|].
        now exists text.
      * destruct (execute_tool_returns db action_name params w1)
          as (observation & w2 & Hexec).
        rewrite Hexec. do 2 eexists. split; [reflexivity|].
        pose proof (quiet_execute_tool db action_name params w1)
          as (_ & _ & Hn & _).
        rewrite Hexec in Hn. cbn [snd] in Hn. rewrite Hn.
        split; [eapply call_llm_calls; eassumption|].
        split; [assumption|]. split; [assumption|]. split; [assumption|].
        eexists. split; [now rewrite <- app_assoc|].
        rewrite Hact. now exists observation.
      * do 2 eexists. split; [reflexivity|].
        split; [eapply call_llm_calls; eassumption|].
        split; [assumption|]. split; [assumption|]. split; [assumption|].
        eexists. split; [now rewrite <- app_assoc|].
        rewrite Hact. split; [reflexivity|].
        pose proof (call_llm_no_sql provider config history w) as Hsql.
        now rewrite Hcall in Hsql.
Qed.

(** X17. The history only grows, by two messages for each iteration that
    goes on: the response of the model, which holds no final-answer
    marker, and then one message of the user role.  When no action could be
    read from the response that message is the fixed reminder and no
    statement was sent to the engine; when one could, it is an observation;
    and an iteration in which the parser raised does not go on. *)
Theorem iteration_extends_history (history history' : list Message)
    (response : string) (w w' : World) :
  react_iteration json_loads db provider config history w
  = (inr (Continue history' response), w') ->
  has_final_answer response = false
  /\ exists said,
       history'
       = (history ++ [ mkMessage assistant response;
                       mkMessage user said ])%list
       /\ match extract_action_from_response json_loads response with
          | inr None =>
              said
              = "Error: Expected ACTION or FINAL ANSWER. Please provide one."
              /\ sql_statements (events w') = sql_statements (events w)
          | inr (Some _) =>
              exists observation, said = "OBSERVATION: " ++ observation
          | inl _ => False
          end.
Proof.
  intros H.
  destruct (react_iteration_outcome history w)
    as (r & w1 & Hrun & _ & Hs).
  rewrite H in Hrun. injection Hrun as <- <-.
  destruct Hs as (_ & _ & Hfinal & Hsaid). now split.
Qed.

Lemma run_loop_calls_bounded (iterations : list Z) :
  forall (history : list Message) (response : option string) (w : World),
    (llm_calls
       (snd (run_loop json_loads db provider config iterations history
                      response w))
     <= llm_calls w
        + List.length iterations * Z.to_nat (max_retries config))%nat.
Proof.
  induction iterations as [|iteration rest IH]; intros history response w.
  - cbn [run_loop]. destruct response; cbn; lia.
  - cbn [run_loop]. unfold bind.
    destruct (react_iteration_outcome history w)
      as (r & w1 & -> & [_ Hn] & _).
    destruct r as [e | [result | history' response']].
    + cbn [snd List.length]. lia.
    + unfold ret. cbn [snd List.length]. lia.
    + specialize (IH history' (Some response') w1).
      cbn [List.length]. lia.
Qed.

(** How the loop ends, with where each text comes from.  The loop was
    entered with the conversation [h0], which the history extends: the
    failure is the one of a call of [_call_llm] on a conversation that
    extends [h0], and the response is the provider's reply to the last call
    made, on such a conversation. *)
Lemma run_loop_outcome (h0 : list Message) (iterations : list Z) :
  forall (history : list Message) (response : option string) (w : World),
    (exists grown, history = (h0 ++ grown)%list) ->
    (iterations <> [] \/ response <> None) ->
    (forall r, response = Some r ->
               has_final_answer r = false
               /\ (0 < llm_calls w)%nat
               /\ exists more,
                    outcome (provider (llm_calls w - 1) (h0 ++ more)%list)
                    = inr r) ->
    exists result w',
      run_loop json_loads db provider config iterations history response w
      = (result, w')
      /\ (llm_calls w <= llm_calls w')%nat
      /\ ((exists e more w0,
             _call_llm provider config (h0 ++ more)%list w0 = (inl e, w')
             /\ result = inr ("Error: LLM call failed: " ++ exn_str e))
          \/ (exists r more,
                (0 < llm_calls w')%nat
                /\ (response = None -> (llm_calls w < llm_calls w')%nat)
                /\ outcome (provider (llm_calls w' - 1) (h0 ++ more)%list)
                   = inr r
                /\ (has_final_answer r = true
                    /\ result = inr (extract_final_answer r)
                    \/ has_final_answer r = false
                       /\ result
                          = inr ("Agent stopped: Reached maximum iterations ("
                                   ++ str_of_Z (max_iterations config)
                                   ++ "). Last response:" ++ LF ++ LF ++ r)
                    \/ has_final_answer r = false
                       /\ exists e,
                            extract_action_from_response json_loads r = inl e
                            /\ result = inl e))).
Proof.
  induction iterations as [|iteration rest IH];
    intros history response w [grown ->] Hsome Hresp.
  - destruct response as [r|]; [| destruct Hsome; congruence].
    destruct (Hresp r eq_refl) as (Hfinal & Hpos & more & Hout).
    cbn [run_loop]. do 2 eexists. split; [reflexivity|].
    split; [lia|]. right. exists r, more.
    split; [assumption|]. split; [discriminate|]. split; [assumption|].
    right. left. now split.
  - cbn [run_loop]. unfold bind.
    destruct (react_iteration_outcome (h0 ++ grown)%list w)
      as (r & w1 & -> & [Hle _] & Hs).
    destruct r as [e | [result | history' response']].
    + destruct Hs as (r & Hlt & Hout & Hfinal & Hraise).
      do 2 eexists. split; [reflexivity|]. split; [assumption|].
      right. exists r, grown.
      split; [lia|]. split; [intros _; assumption|]. split; [assumption|].
      right. right. split; [assumption|]. now exists e.
    + do 2 eexists. split; [reflexivity|]. split; [assumption|].
      destruct Hs as [(e & Hcall & ->) | (r & Hlt & Hout & Hfinal & ->)].
      * left. exists e, grown, w. now split.
      * right. exists r, grown.
        split; [lia|]. split; [intros _; assumption|]. split; [assumption|].
        left. now split.
    + destruct Hs as (Hlt & Hout & Hfinal & said & -> & _).
      destruct (IH ((h0 ++ grown) ++ [ mkMessage assistant response';
                                       mkMessage user said ])%list
                   (Some response') w1)
        as (result & w' & Hrun & Hle' & Hres).
      { eexists. now rewrite <- app_assoc. }
      { right. discriminate. }
      { intros r Hr. injection Hr as <-.
        split; [assumption|]. split; [lia|]. now exists grown. }
      rewrite Hrun. exists result, w'. split; [reflexivity|].
      split; [lia|].
      destruct Hres as [Hfail | (r & more & Hpos & _ & Hout' & Hcases)].
      * left. exact Hfail.
      * right. exists r, more.
        split; [assumption|]. split; [intros _; lia|].
        split; assumption.
Qed.

(** A response whose action block makes [json.loads] raise anything but
    [json.JSONDecodeError] ends [run] with that exception. *)
Lemma run_loop_parser_raises (iteration : Z) (rest : list Z)
    (history : list Message) (response : option string) (w w1 : World)
    (text : string) (e : exn) :
  _call_llm provider config history w = (inr text, w1) ->
  has_final_answer text = false ->
  extract_action_from_response json_loads text = inl e ->
  run_loop json_loads db provider config (iteration :: rest) history
           response w
  = (inl e, w1).
Proof.
  intros Hcall Hfinal Hraise. cbn [run_loop].
  unfold bind, react_iteration, bind, try_except, ret.
  now rewrite Hcall, Hfinal, Hraise.
Qed.

Variable system_prompt : string.

(** X18. With a budget of at least one iteration, [run] ends in one of
    four ways.  It returns the report of a failed LLM call, the failure
    being the one of a call of [_call_llm] on a conversation that starts
    with the system prompt and the query.  Or the provider was called
    during the run and, [r] being its reply to the last call, made on such
    a conversation: [r] holds the marker and [run] returns the answer
    extracted from it; or [r] does not and [run] returns the notice that
    the budget is used up, which carries [r]; or [r] does not and [run]
    raises the exception that left the parser on [r], one that [json.loads]
    raised and the parser did not catch.  [run] raises in no other case. *)
Theorem run_ends_in_one_of_four (user_query : string) (w : World) :
  1 <= max_iterations config ->
  exists result w',
    run json_loads db provider config system_prompt user_query w
    = (result, w')
    /\ ((exists e more w0,
           _call_llm provider config
             ([ mkMessage system system_prompt;
                mkMessage user user_query ] ++ more)%list w0
           = (inl e, w')
           /\ result = inr ("Error: LLM call failed: " ++ exn_str e))
        \/ (exists r more,
              (llm_calls w < llm_calls w')%nat
              /\ outcome
                   (provider (llm_calls w' - 1)
                      ([ mkMessage system system_prompt;
                         mkMessage user user_query ] ++ more)%list)
                 = inr r
              /\ (has_final_answer r = true
                  /\ result = inr (extract_final_answer r)
                  \/ has_final_answer r = false
                     /\ result
                        = inr ("Agent stopped: Reached maximum iterations ("
                                 ++ str_of_Z (max_iterations config)
                                 ++ "). Last response:" ++ LF ++ LF ++ r)
                  \/ has_final_answer r = false
                     /\ exists e,
                          extract_action_from_response json_loads r = inl e
                          /\ result = inl e))).
Proof.
  intros Hmax. unfold run.
  destruct (run_loop_outcome
              [ mkMessage system system_prompt; mkMessage user user_query ]
              (range_from_1 (max_iterations config))
              [ mkMessage system system_prompt; mkMessage user user_query ]
              None w)
    as (result & w' & Hrun & _ & Hres).
  - exists []. reflexivity.
  - left. rewrite (range_from_1_succ _ Hmax). discriminate.
  - discriminate.
  - exists result, w'. split; [exact Hrun|].
    destruct Hres as [Hfail | (r & more & _ & Hlt & Hout & Hcases)].
    + left. exact Hfail.
    + right. exists r, more. split; [now apply Hlt|]. now split.
Qed.

(** X19. With [max_iterations] at zero or below the loop body never runs,
    and the closing [return] reads a variable that was never bound: [run]
    raises [UnboundLocalError], having called neither the provider nor the
    engine. *)
Theorem run_without_iterations (user_query : string) (w : World) :
  max_iterations config <= 0 ->
  run json_loads db provider config system_prompt user_query w
  = (inl (UnboundLocalError
            "cannot access local variable 'response' where it is not associated with a value"),
     w).
Proof.
  intros H. unfold run, range_from_1.
  replace (Z.to_nat (max_iterations config)) with 0%nat by lia.
  reflexivity.
Qed.

(** X20. One run never calls the provider more than
    [max_iterations * max_retries] times. *)
Theorem run_call_budget (user_query : string) (w : World) :
  (llm_calls
     (snd (run json_loads db provider config system_prompt user_query w))
   <= llm_calls w
      + Z.to_nat (max_iterations config) * Z.to_nat (max_retries config))%nat.
Proof.
  unfold run.
  pose proof (run_loop_calls_bounded (range_from_1 (max_iterations config))
                [ mkMessage system system_prompt; mkMessage user user_query ]
                None w) as H.
  unfold range_from_1 in H at 2. rewrite length_map, length_seq in H.
  exact H.
Qed.

End ControllerFurther.

Lemma iteration_extends_history_witness :
  has_final_answer "Let me think." = false
  /\ exists said,
       [ mkMessage user "How many employees?";
         mkMessage assistant "Let me think.";
         mkMessage user
           "Error: Expected ACTION or FINAL ANSWER. Please provide one." ]
       = ([mkMessage user "How many employees?"]
            ++ [ mkMessage assistant "Let me think.";
                 mkMessage user said ])%list
       /\ match extract_action_from_response Sample.loads "Let me think." with
          | inr None =>
              said
              = "Error: Expected ACTION or FINAL ANSWER. Please provide one."
              /\ sql_statements
                   (events (mkWorld 1000 1000 1 [EvLlmCall 1000 1]))
                 = sql_statements (events (Sample.fresh 1000))
          | inr (Some _) =>
              exists observation, said = "OBSERVATION: " ++ observation
          | inl _ => False
          end.
Proof.
  apply (iteration_extends_history Sample.loads Sample.db
           (Sample.scripted [] (inr "Let me think.")) Sample.config).
  reflexivity.
Defined.

Lemma run_ends_in_one_of_four_witness :
  exists result w',
    run Sample.loads Sample.db
      (Sample.scripted [] (inr "Let me think.")) Sample.config
      "You are a SQL Database Agent" "How many employees?"
      (Sample.fresh 1000)
    = (result, w')
    /\ ((exists e more w0,
           _call_llm (Sample.scripted [] (inr "Let me think.")) Sample.config
             ([ mkMessage system "You are a SQL Database Agent";
                mkMessage user "How many employees?" ] ++ more)%list w0
           = (inl e, w')
           /\ result = inr ("Error: LLM call failed: " ++ exn_str e))
        \/ (exists r more,
              (llm_calls (Sample.fresh 1000) < llm_calls w')%nat
              /\ outcome
                   (Sample.scripted [] (inr "Let me think.")
                      (llm_calls w' - 1)
                      ([ mkMessage system "You are a SQL Database Agent";
                         mkMessage user "How many employees?" ] ++ more)%list)
                 = inr r
              /\ (has_final_answer r = true
                  /\ result = inr (extract_final_answer r)
                  \/ has_final_answer r = false
                     /\ result
                        = inr ("Agent stopped: Reached maximum iterations ("
                                 ++ str_of_Z (max_iterations Sample.config)
                                 ++ "). Last response:" ++ LF ++ LF ++ r)
                  \/ has_final_answer r = false
                     /\ exists e,
                          extract_action_from_response Sample.loads r = inl e
                          /\ result = inl e))).
Proof.
  apply run_ends_in_one_of_four. cbn. lia.
Defined.

Lemma run_without_iterations_witness :
  run Sample.loads Sample.db
    (Sample.scripted [] (inr "FINAL ANSWER: 8"))
    (mkAgentConfig 0 "model" [] 20 3 5)
    "You are a SQL Database Agent" "How many employees?"
    (Sample.fresh 1000)
  = (inl (UnboundLocalError
            "cannot access local variable 'response' where it is not associated with a value"),
     Sample.fresh 1000).
Proof.
  apply run_without_iterations. cbn. lia.
Defined.

(** ** The logging run, further *)

Section ApiFurther.

Variable json_loads : string -> Loaded.
Variable db : Database.
Variable provider : nat -> list Message -> Reply.
Variable config : AgentConfig.

(** What one pass of the logging loop adds to the step list. *)
Lemma api_iteration_outcome (it : Z) (history : list Message)
    (steps0 : list StepData) (w : World) :
  exists s w',
    api_iteration json_loads db provider config it history steps0 w
    = (inr s, w')
    /\ match s with
       | ApiReturn result =>
           status result = "success"
           /\ iterations result = it
           /\ exists last,
                steps result = (steps0 ++ [last])%list
                /\ iteration last = it
                /\ type last = Some FINAL_ANSWER
                /\ step_final_answer last = Some (final_answer result)
                /\ final_answer result
                   = extract_final_answer (raw_llm_response last)
       | ApiNext _ steps' | ApiBreak steps' =>
           exists step,
             steps' = (steps0 ++ [step])%list
             /\ iteration step = it
             /\ (type step = Some ERROR \/ type step = Some REACT_CYCLE)
       end.
Proof.
  unfold api_iteration, bind, try_except, ret, time_now.
  destruct (_call_llm provider config history w) as [[e|text] w1].
  - do 2 eexists. split; [reflexivity|].
    eexists. split; [reflexivity|]. cbn. auto.
  - destruct (has_final_answer text).
    + do 2 eexists. split; [reflexivity|]. cbn.
      split; [reflexivity|]. split; [reflexivity|].
      eexists. split; [reflexivity|]. cbn. auto.
    + destruct (extract_action_from_response json_loads text)
        as [e|[[action_name params]|]].
      * do 2 eexists. split; [reflexivity|].
        eexists. split; [reflexivity|]. cbn. auto.
      * destruct (api_execute_tool_returns db action_name params w1)
          as (observation & w2 & ->).
        do 2 eexists. split; [reflexivity|].
        eexists. split; [reflexivity|]. cbn. auto.
      * do 2 eexists. split; [reflexivity|].
        eexists. split; [reflexivity|]. cbn. auto.
Qed.

Lemma numbered_snoc (steps0 : list StepData) (step : StepData) :
  map iteration steps0 = map Z.of_nat (seq 1 (List.length steps0)) ->
  iteration step = Z.of_nat (S (List.length steps0)) ->
  map iteration (steps0 ++ [step])
  = map Z.of_nat (seq 1 (List.length (steps0 ++ [step]))).
Proof.
  intros Hnum Hit.
  rewrite length_app, Nat.add_1_r, seq_S, !map_app, Hnum. cbn [map].
  now rewrite Hit.
Qed.

Lemma api_loop_outcome (n : nat) :
  forall (history : list Message) (steps0 : list StepData) (w : World),
    map iteration steps0 = map Z.of_nat (seq 1 (List.length steps0)) ->
    Forall (fun s => type s = Some ERROR \/ type s = Some REACT_CYCLE)
           steps0 ->
    exists result w',
      api_loop json_loads db provider config
        (map Z.of_nat (seq (S (List.length steps0)) n)) history steps0 w
      = (inr result, w')
      /\ map iteration (steps result)
         = map Z.of_nat (seq 1 (List.length (steps result)))
      /\ (List.length (steps result) <= List.length steps0 + n)%nat
      /\ (status result = "success"
          /\ iterations result = Z.of_nat (List.length (steps result))
          /\ (exists earlier last,
                steps result = (earlier ++ [last])%list
                /\ Forall (fun s => type s = Some ERROR
                                    \/ type s = Some REACT_CYCLE) earlier
                /\ type last = Some FINAL_ANSWER
                /\ step_final_answer last = Some (final_answer result)
                /\ final_answer result
                   = extract_final_answer (raw_llm_response last))
          \/ status result = "max_iterations"
             /\ iterations result = max_iterations config
             /\ final_answer result
                = "Max iterations reached without final answer"
             /\ Forall (fun s => type s = Some ERROR
                                 \/ type s = Some REACT_CYCLE)
                       (steps result)).
Proof.
  induction n as [|n IH]; intros history steps0 w Hnum Hall.
  - do 2 eexists. split; [reflexivity|]. cbn [after_loop steps].
    split; [assumption|]. split; [lia|]. right. cbn. auto.
  - cbn [seq map api_loop]. unfold bind.
    destruct (api_iteration_outcome (Z.of_nat (S (List.length steps0)))
                history steps0 w) as (s & w1 & -> & Hs).
    destruct s as [result | history' steps' | steps'].
    + destruct Hs as (Hst & Hit & last & Hsteps & Hlast & Hty & Hfa & Hans).
      do 2 eexists. split; [reflexivity|].
      split; [rewrite Hsteps; now apply numbered_snoc|].
      split; [rewrite Hsteps, length_app; cbn; lia|].
      left. split; [assumption|].
      split; [rewrite Hit, Hsteps, length_app, Nat.add_1_r; reflexivity|].
      exists steps0, last. auto.
    + destruct Hs as (step & -> & Hit & Hty).
      destruct (IH history' (steps0 ++ [step])%list w1)
        as (result & w' & Hrun & Hn & Hlen & Hres).
      { now apply numbered_snoc. }
      { apply Forall_app. split; [assumption | now constructor]. }
      rewrite length_app, Nat.add_1_r in Hrun. rewrite Hrun.
      exists result, w'. split; [reflexivity|]. split; [assumption|].
      split; [rewrite length_app in Hlen; cbn in Hlen; lia | assumption].
    + destruct Hs as (step & -> & Hit & Hty).
      do 2 eexists. split; [reflexivity|]. cbn [after_loop steps].
      split; [now apply numbered_snoc|].
      split; [rewrite length_app; cbn; lia|].
      right. cbn.
      repeat split. apply Forall_app. split; [assumption | now constructor].
Qed.

Variable system_prompt : string.

(** X21. The logging run raises nothing, whatever the budget, and what it
    returns is well formed.  The steps are numbered 1, 2, 3, ... in order
    and are no more than [max_iterations].  A result of status [success]
    counts as its iterations the steps it lists; its last step, and only
    that one, is a final-answer step, and the answer of the result is the
    one of that step, extracted from its raw response.  Any other result
    has the status [max_iterations] with the fixed text and the whole
    budget as its iteration count, and no final-answer step. *)
Theorem logged_run_is_well_formed (query : string) (w : World) :
  exists result w',
    run_query_with_full_logging json_loads db provider config system_prompt
                                query w
    = (inr result, w')
    /\ map iteration (steps result)
       = map Z.of_nat (seq 1 (List.length (steps result)))
    /\ (List.length (steps result) <= Z.to_nat (max_iterations config))%nat
    /\ (status result = "success"
        /\ iterations result = Z.of_nat (List.length (steps result))
        /\ (exists earlier last,
              steps result = (earlier ++ [last])%list
              /\ Forall (fun s => type s = Some ERROR
                                  \/ type s = Some REACT_CYCLE) earlier
              /\ type last = Some FINAL_ANSWER
              /\ step_final_answer last = Some (final_answer result)
              /\ final_answer result
                 = extract_final_answer (raw_llm_response last))
        \/ status result = "max_iterations"
           /\ iterations result = max_iterations config
           /\ final_answer result
              = "Max iterations reached without final answer"
           /\ Forall (fun s => type s = Some ERROR
                               \/ type s = Some REACT_CYCLE)
                     (steps result)).
Proof.
  unfold run_query_with_full_logging, range_from_1.
  exact (api_loop_outcome (Z.to_nat (max_iterations config))
           [ mkMessage system system_prompt; mkMessage user query ] [] w
           eq_refl (Forall_nil _)).
Qed.

(** X22. When the tool returns, the two drivers observe the same thing:
    what the tool returned, with the same statements sent.  For
    [list_tables] this needs an empty parameter object, since the logging
    run does not pass the parameters on to it. *)
Theorem drivers_agree_when_the_tool_returns (action_name : string)
    (params : Params) (tool : Tool) (w w' : World) (text : string) :
  tools_dict_get db action_name = Some tool ->
  tool_func tool params w = (inr text, w') ->
  (action_name = "list_tables" -> params = []) ->
  execute_tool db action_name params w = (inr text, w')
  /\ api_execute_tool db action_name params w = (inr text, w').
Proof.
  intros Hget Hrun Hlist.
  split.
  - unfold execute_tool. rewrite Hget. unfold try_except. now rewrite Hrun.
  - unfold tools_dict_get in Hget.
    cbn [create_tool_registry find tool_name] in Hget.
    unfold api_execute_tool, try_except.
    rewrite (String.eqb_sym action_name "list_tables"),
      (String.eqb_sym action_name "describe_table"),
      (String.eqb_sym action_name "query_database").
    destruct (String.eqb "list_tables" action_name) eqn:E1.
    + injection Hget as <-. cbn [tool_func] in Hrun.
      apply String.eqb_eq in E1. rewrite (Hlist (eq_sym E1)) in Hrun.
      unfold bind, lift, bind_no_argument, ret in Hrun.
      now rewrite Hrun.
    + destruct (String.eqb "describe_table" action_name) eqn:E2.
      * injection Hget as <-. cbn [tool_func] in Hrun. now rewrite Hrun.
      * destruct (String.eqb "query_database" action_name) eqn:E3;
          [| discriminate].
        injection Hget as <-. cbn [tool_func] in Hrun. now rewrite Hrun.
Qed.

End ApiFurther.

Lemma drivers_agree_when_the_tool_returns_witness :
  execute_tool Sample.db "describe_table" [("table_name", JStr "ghosts")]
               (Sample.fresh 1000)
  = (inr "Error: Table 'ghosts' does not exist.",
     after_sql "SELECT name FROM sqlite_master WHERE type='table' AND name=?"
               ["ghosts"] (Sample.fresh 1000))
  /\ api_execute_tool Sample.db "describe_table"
                      [("table_name", JStr "ghosts")] (Sample.fresh 1000)
     = (inr "Error: Table 'ghosts' does not exist.",
        after_sql "SELECT name FROM sqlite_master WHERE type='table' AND name=?"
                  ["ghosts"] (Sample.fresh 1000)).
Proof.
  eapply (drivers_agree_when_the_tool_returns Sample.db "describe_table"
            [("table_name", JStr "ghosts")]).
  - reflexivity.
  - reflexivity.
  - discriminate.
Defined.

(** ** An exception of the decoder *)

(** X28. When [json.loads] raises something other than
    [json.JSONDecodeError] on the action block of a response without
    final-answer marker, the parser lets it through.  [run] calls the
    parser outside any [try] and ends with that exception, raised to its
    caller.  The logging run calls it inside its [try]: it records a step
    of type [ERROR] that carries the message and the response, leaves the
    loop, and reports the budget as used up. *)
Theorem decoder_exception_leaves_the_parser
    (json_loads : string -> Loaded) (db : Database)
    (provider : nat -> list Message -> Reply) (config : AgentConfig)
    (iteration : Z) (rest : list Z) (history : list Message)
    (response : option string) (steps0 : list StepData) (w w1 : World)
    (text : string) (e : exn) :
  _call_llm provider config history w = (inr text, w1) ->
  has_final_answer text = false ->
  extract_action_from_response json_loads text = inl e ->
  run_loop json_loads db provider config (iteration :: rest) history
           response w
  = (inl e, w1)
  /\ api_loop json_loads db provider config (iteration :: rest) history
              steps0 w
     = (inr (mkQueryResult
               "Max iterations reached without final answer"
               (steps0 ++ [mkStepData iteration (Some ERROR) (clock w)
                             EmptyString EmptyString [] (exn_str e) text
                             None])%list
               (max_iterations config) "max_iterations"),
        w1).
Proof.
  intros Hcall Hfinal Hraise. split.
  - now apply run_loop_parser_raises with (text := text).
  - cbn [api_loop].
    unfold bind, api_iteration, bind, try_except, ret, time_now.
    now rewrite Hcall, Hfinal, Hraise.
Qed.

Lemma decoder_exception_leaves_the_parser_witness :
  run_loop (Sample.loads_with_limit 4) Sample.db
    (Sample.scripted []
       (inr ("ACTION: describe_table"
               ++ Sample.dumps [("table_name", JInt 12345)])))
    Sample.config [1; 2] [] None (Sample.fresh 1000)
  = (inl (ValueError
            "Exceeds the limit (4 digits) for integer string conversion"),
     mkWorld 1000 1000 1 [EvLlmCall 1000 1])
  /\ api_loop (Sample.loads_with_limit 4) Sample.db
       (Sample.scripted []
          (inr ("ACTION: describe_table"
                  ++ Sample.dumps [("table_name", JInt 12345)])))
       Sample.config [1; 2] [] [] (Sample.fresh 1000)
     = (inr (mkQueryResult
               "Max iterations reached without final answer"
               ([] ++ [mkStepData 1 (Some ERROR) (clock (Sample.fresh 1000))
                         EmptyString EmptyString []
                         (exn_str
                            (ValueError
                               "Exceeds the limit (4 digits) for integer string conversion"))
                         ("ACTION: describe_table"
                            ++ Sample.dumps [("table_name", JInt 12345)])
                         None])%list
               (max_iterations Sample.config) "max_iterations"),
        mkWorld 1000 1000 1 [EvLlmCall 1000 1]).
Proof.
  apply decoder_exception_leaves_the_parser with
    (text := "ACTION: describe_table"
               ++ Sample.dumps [("table_name", JInt 12345)]);
    reflexivity.
Defined.

(** ** The system prompt *)

(** X23. The two branches of [to_prompt_string] write the same text: with
    no parameter the list between the parentheses is empty, which is what
    the second branch spells out. *)
Theorem to_prompt_string_one_shape (tool : Tool) :
  to_prompt_string tool
  = tool_name tool ++ "("
      ++ join ", " (map (fun kv : string * string =>
                           fst kv ++ " (" ++ snd kv ++ ")")
                        (tool_param_schema tool))
      ++ "): " ++ tool_description tool.
Proof.
  unfold to_prompt_string.
  destruct (String.eqb_spec
              (join ", " (map (fun kv : string * string =>
                                 fst kv ++ " (" ++ snd kv ++ ")")
                              (tool_param_schema tool)))
              EmptyString) as [-> | Hne]; reflexivity.
Qed.

(** A text without line feed. *)
Lemma startswith_before_line_feed (old : string) :
  str_in LF old = false ->
  forall s t, startswith (s ++ LF ++ t) old = startswith s old.
Proof.
  induction old as [|a p IH]; intros Hlf s t; [reflexivity|].
  assert (Ha : Ascii.eqb a "010" = false).
  { apply str_in_false_here in Hlf. cbn in Hlf.
    destruct (Ascii.eqb_spec "010"%char a) as [<- | Hne]; [discriminate|].
    apply Ascii.eqb_neq. congruence. }
  assert (Hp : str_in LF p = false).
  { change (String a p) with (String a EmptyString ++ p) in Hlf.
    now apply str_in_false_suffix in Hlf. }
  destruct s as [|b s'].
  - cbn. now rewrite Ha.
  - cbn [append startswith]. now rewrite (IH Hp).
Qed.

Lemma replace_from_skip (old new : string) :
  forall (x t : string),
    replace_from (String.length x) old new (x ++ t)
    = replace_from 0 old new t.
Proof.
  induction x as [|c x IH]; intros t; [reflexivity|].
  cbn. apply IH.
Qed.

Lemma replace_here (old new t : string) :
  old <> EmptyString ->
  replace old new (old ++ t) = new ++ replace old new t.
Proof.
  intros Hne. unfold replace.
  destruct old as [|a p]; [congruence|].
  cbn [append replace_from]. 
  change (String a (p ++ t)) with (String a p ++ t).
  rewrite startswith_app.
  replace (String.length (String a p) - 1)%nat with (String.length p)
    by (cbn [String.length]; lia).
  now rewrite replace_from_skip.
Qed.

Lemma replace_line_without (old new s t : string) :
  old <> EmptyString ->
  str_in LF old = false ->
  str_in old s = false ->
  replace old new (s ++ LF ++ t) = s ++ LF ++ replace old new t.
Proof.
  intros Hne Hlf. unfold replace. induction s as [|c s IH]; intros Hs.
  - change (EmptyString ++ LF ++ t) with (String "010"%char t).
    cbn [replace_from].
    change (startswith (String "010"%char t) old)
      with (startswith (EmptyString ++ LF ++ t) old).
    rewrite (startswith_before_line_feed old Hlf).
    destruct old; [congruence | reflexivity].
  - pose proof (str_in_false_here _ _ Hs) as Hhere.
    assert (Hs' : str_in old s = false).
    { change (String c s) with (String c EmptyString ++ s) in Hs.
      now apply str_in_false_suffix in Hs. }
    cbn [append replace_from].
    change (String c (s ++ LF ++ t)) with (String c s ++ LF ++ t).
    rewrite (startswith_before_line_feed old Hlf), Hhere.
    cbn [append]. f_equal. now apply IH.
Qed.

(** Replacing a placeholder that holds no line feed, in a text whose lines
    either are the placeholder or do not hold it, replaces those lines. *)
Lemma replace_unlines (old new : string) (lines : list string) :
  old <> EmptyString ->
  str_in LF old = false ->
  Forall (fun l => l = old \/ str_in old l = false) lines ->
  replace old new (unlines lines)
  = unlines (map (fun l => if String.eqb l old then new else l) lines).
Proof.
  intros Hne Hlf Hall. induction Hall as [|l lines Hl _ IH]; [reflexivity|].
  cbn [unlines map].
  destruct Hl as [-> | Hl].
  - rewrite String.eqb_refl, (replace_here _ _ _ Hne).
    f_equal.
    change (LF ++ unlines lines) with (EmptyString ++ LF ++ unlines lines).
    rewrite (replace_line_without _ _ _ _ Hne Hlf).
    + cbn [append]. now rewrite IH.
    + destruct old; [congruence | reflexivity].
  - rewrite (replace_line_without _ _ _ _ Hne Hlf Hl), IH.
    destruct (String.eqb_spec l old) as [-> | _]; [| reflexivity].
    rewrite <- (app_nil_right old) in Hl at 2.
    change (old ++ EmptyString) with (EmptyString ++ old ++ EmptyString) in Hl.
    now rewrite str_in_app in Hl.
Qed.

Lemma str_in_false_neq (old s : string) :
  str_in old s = false -> String.eqb s old = false.
Proof.
  intros H. destruct (String.eqb_spec s old) as [-> | _]; [| reflexivity].
  rewrite <- (app_nil_right old) in H at 2.
  change (old ++ EmptyString) with (EmptyString ++ old ++ EmptyString) in H.
  now rewrite str_in_app in H.
Qed.

Lemma startswith_length (s p : string) :
  startswith s p = true -> (String.length p <= String.length s)%nat.
Proof.
  intros H. apply startswith_iff in H as [t ->]. rewrite app_length_str. lia.
Qed.

Lemma replace_from_line (old new t : string) :
  old <> EmptyString ->
  str_in LF old = false ->
  forall (s : string) (k : nat),
    (k <= String.length s)%nat ->
    replace_from k old new (s ++ LF ++ t)
    = replace_from k old new s ++ LF ++ replace_from 0 old new t.
Proof.
  intros Hne Hlf. induction s as [|c s IH]; intros k Hk.
  - cbn [String.length] in Hk. replace k with 0%nat by lia.
    change (EmptyString ++ LF ++ t) with (String "010"%char t).
    cbn [replace_from].
    change (startswith (String "010"%char t) old)
      with (startswith (EmptyString ++ LF ++ t) old).
    rewrite (startswith_before_line_feed old Hlf).
    destruct old; [congruence | reflexivity].
  - cbn [append replace_from]. cbn [String.length] in Hk.
    destruct k as [|k]; [| apply IH; lia].
    change (String c (s ++ LF ++ t)) with (String c s ++ LF ++ t).
    rewrite (startswith_before_line_feed old Hlf).
    destruct (startswith (String c s) old) eqn:Hstart.
    + apply startswith_length in Hstart. cbn [String.length] in Hstart.
      rewrite IH by lia. now rewrite app_assoc_str.
    + cbn [append]. f_equal. apply IH. lia.
Qed.

(** A placeholder without line feed is replaced line by line. *)
Lemma replace_line_by_line (old new : string) (lines : list string) :
  old <> EmptyString ->
  str_in LF old = false ->
  replace old new (unlines lines) = unlines (map (replace old new) lines).
Proof.
  intros Hne Hlf. induction lines as [|l lines IH]; [reflexivity|].
  cbn [unlines map]. unfold replace in *.
  rewrite (replace_from_line old new _ Hne Hlf l 0) by lia.
  now rewrite IH.
Qed.

Lemma replace_whole (old new : string) :
  old <> EmptyString -> replace old new old = new.
Proof.
  intros Hne. rewrite <- (app_nil_right old) at 2.
  rewrite (replace_here _ _ _ Hne). apply app_nil_right.
Qed.

(** X24. What [build_system_prompt] returns, for any schema and any tools:
    the template with its three placeholder lines filled in and every other
    line as it is.  The replacements being made one after the other, the
    schema that goes in has itself passed through the two later ones, and
    the tool descriptions through the last: a placeholder written in them
    is replaced as well. *)
Theorem build_system_prompt_in_sequence (schema : string)
    (tools : list Tool) (include_examples : bool) :
  let few_shot := if include_examples then FEW_SHOT_EXAMPLES
                  else EmptyString in
  let tool_descriptions := build_tool_descriptions tools in
  build_system_prompt schema tools include_examples
  = unlines
      (map (fill_slot
              (replace "___EXAMPLES___" few_shot
                 (replace "___TOOLS___" tool_descriptions schema))
              (replace "___EXAMPLES___" few_shot tool_descriptions)
              few_shot)
           SYSTEM_PROMPT_TEMPLATE_lines).
Proof.
  intros few_shot tool_descriptions.
  unfold build_system_prompt, SYSTEM_PROMPT_TEMPLATE.
  fold few_shot. fold tool_descriptions.
  rewrite !replace_line_by_line by (discriminate || reflexivity).
  rewrite !map_map.
  unfold SYSTEM_PROMPT_TEMPLATE_lines. cbn [map].
  rewrite (replace_whole "___SCHEMA___" schema) by discriminate.
  change (replace "___SCHEMA___" schema "___TOOLS___") with "___TOOLS___".
  rewrite (replace_whole "___TOOLS___" tool_descriptions) by discriminate.
  change (replace "___SCHEMA___" schema "___EXAMPLES___")
    with "___EXAMPLES___".
  change (replace "___TOOLS___" tool_descriptions "___EXAMPLES___")
    with "___EXAMPLES___".
  rewrite (replace_whole "___EXAMPLES___" few_shot) by discriminate.
  reflexivity.
Qed.

(** X25. The three replacements of [build_system_prompt], made one after
    the other, fill the three placeholder lines of the template as if at
    once, and leave every other line as it is: provided the schema holds
    neither of the two placeholders replaced after it, and the tool
    descriptions do not hold the last one.  Without examples the last
    placeholder leaves an empty line. *)
Theorem build_system_prompt_fills_the_slots (schema : string)
    (tools : list Tool) (include_examples : bool) :
  str_in "___TOOLS___" schema = false ->
  str_in "___EXAMPLES___" schema = false ->
  str_in "___EXAMPLES___" (build_tool_descriptions tools) = false ->
  build_system_prompt schema tools include_examples
  = unlines
      (map (fill_slot schema (build_tool_descriptions tools)
                      (if include_examples then FEW_SHOT_EXAMPLES
                       else EmptyString))
           SYSTEM_PROMPT_TEMPLATE_lines).
Proof.
  intros Hst Hse Hte. unfold build_system_prompt, SYSTEM_PROMPT_TEMPLATE.
  set (descriptions := build_tool_descriptions tools) in *.
  set (few_shot := if include_examples then FEW_SHOT_EXAMPLES
                   else EmptyString).
  rewrite (replace_unlines "___SCHEMA___" schema);
    [| discriminate | reflexivity
     | unfold SYSTEM_PROMPT_TEMPLATE_lines;
       repeat (constructor; [first [left; reflexivity | right; reflexivity]|]);
       constructor ].
  rewrite (replace_unlines "___TOOLS___" descriptions);
    [| discriminate | reflexivity
     | unfold SYSTEM_PROMPT_TEMPLATE_lines; cbn [map String.eqb Ascii.eqb Bool.eqb andb];
       repeat (constructor;
               [first [ left; reflexivity | right; reflexivity
                      | right; exact Hst ]|]);
       constructor ].
  rewrite (replace_unlines "___EXAMPLES___" few_shot);
    [| discriminate | reflexivity
     | unfold SYSTEM_PROMPT_TEMPLATE_lines; cbn [map String.eqb Ascii.eqb Bool.eqb andb];
       rewrite (str_in_false_neq _ _ Hst);
       repeat (constructor;
               [first [ left; reflexivity | right; reflexivity
                      | right; exact Hse | right; exact Hte ]|]);
       constructor ].
  unfold SYSTEM_PROMPT_TEMPLATE_lines. cbn [map String.eqb Ascii.eqb Bool.eqb andb].
  rewrite (str_in_false_neq _ _ Hst), (str_in_false_neq _ _ Hse),
    (str_in_false_neq _ _ Hte).
  reflexivity.
Qed.

Lemma build_system_prompt_fills_the_slots_witness :
  build_system_prompt "DATABASE SCHEMA:" (create_tool_registry Sample.db) true
  = unlines
      (map (fill_slot "DATABASE SCHEMA:"
                      (build_tool_descriptions
                         (create_tool_registry Sample.db))
                      FEW_SHOT_EXAMPLES)
           SYSTEM_PROMPT_TEMPLATE_lines).
Proof.
  apply (build_system_prompt_fills_the_slots "DATABASE SCHEMA:"
           (create_tool_registry Sample.db) true); reflexivity.
Defined.
